(** * The resumable analysis pipeline of ai-training

    A shallow embedding of [src/models.py], [src/instagram.py],
    [src/analyzer.py] and [src/pipeline.py], and the properties of the
    pipeline driver, the item processor, the progress ledger and the retry
    policies that the specification states about them.

    Conventions of the model:
    - the program is written in a state-and-exception monad [M]; the state
      holds the files on disk, the local variables of the running driver, a
      chronological log of the observable calls, and the outside world;
    - every call that leaves the program (network, Gemini client, random
      numbers, temporary names) is a field of the class [External]: a
      deterministic function of a hidden world state, which may return, raise
      or never come back;
    - the JSON files and the results files are the files of one disk, so a
      path may name both; reading a file that exists succeeds; a write either
      goes through or raises and leaves the file as it was, as the operating
      system decides ([os_write] of [External]); the temporary files are kept
      apart, and creating and removing them succeeds;
    - Python floats (sleep durations) are idealised as rationals. *)

From stdpp Require Import base strings list gmap numbers.
From Stdlib Require Qcanon.
From Stdlib Require Import Ascii.

Set Warnings "-register-all".

Abbreviation Qc := Qcanon.Qc.

(** A whole number of seconds as a duration. *)
Definition seconds (n : Z) : Qc := Qcanon.Q2Qc (QArith_base.inject_Z n).

(** ** Python exceptions *)

(** The exception classes the program distinguishes.  [KeyboardInterrupt]
    derives from [BaseException] only; every other class derives from
    [Exception].  In instaloader [TooManyRequestsException] is a subclass of
    [ConnectionException]. *)
Inductive exn_class :=
  | KeyboardInterrupt
  | ConnectionException
  | TooManyRequestsException
  | QueryReturnedBadRequestException
  | RuntimeError
  | ValidationError
  | JSONDecodeError
  | OSError
  | OtherException.

(** An exception value: an instance of a class with its message, or
    tenacity's [RetryError], which wraps the exception of the last attempt. *)
Inductive exn :=
  | Exn (c : exn_class) (msg : string)
  | RetryError (last : exn).

Definition class_name (c : exn_class) : string :=
  match c with
  | KeyboardInterrupt => "KeyboardInterrupt"
  | ConnectionException => "ConnectionException"
  | TooManyRequestsException => "TooManyRequestsException"
  | QueryReturnedBadRequestException => "QueryReturnedBadRequestException"
  | RuntimeError => "RuntimeError"
  | ValidationError => "ValidationError"
  | JSONDecodeError => "JSONDecodeError"
  | OSError => "OSError"
  | OtherException => "Exception"
  end.

Definition exn_name (e : exn) : string :=
  match e with
  | Exn c _ => class_name c
  | RetryError _ => "RetryError"
  end.

(** [str(e)].  A [RetryError] prints the future of its last attempt. *)
Definition str (e : exn) : string :=
  match e with
  | Exn _ msg => msg
  | RetryError last =>
      "RetryError[<Future state=finished raised " +:+ exn_name last +:+ ">]"
  end.

(** [isinstance(e, Exception)]: what [except Exception] catches. *)
Definition is_Exception (e : exn) : bool :=
  match e with
  | Exn KeyboardInterrupt _ => false
  | _ => true
  end.

(** [isinstance(e, (ConnectionException, QueryReturnedBadRequestException))]. *)
Definition is_connection_error (e : exn) : bool :=
  match e with
  | Exn ConnectionException _
  | Exn TooManyRequestsException _
  | Exn QueryReturnedBadRequestException _ => true
  | _ => false
  end.

(** The outcome of running a piece of the program: it returns, it raises, or
    it never comes back. *)
Inductive res (A : Type) :=
  | Ret (a : A)
  | Raise (e : exn)
  | Hang.
Arguments Ret {A} a.
Arguments Raise {A} e.
Arguments Hang {A}.

(** ** Data model ([src/models.py], [src/instagram.py]) *)

Module ExerciseAnalysis.
Record t := {
  muscle_group : string;
  machine : string;
  wrong_way : string;
  correct_way : string;
  trainer_insights : string
}.
End ExerciseAnalysis.

Module GeneralInsights.
Record t := {
  trainer_insights : string;
  video_type : string
}.
End GeneralInsights.

Module VideoResult.
Record t := {
  shortcode : string;
  url : string;
  is_exercise_video : bool;
  exercise_analysis : option ExerciseAnalysis.t;
  general_insights : option GeneralInsights.t;
  error : option string
}.
End VideoResult.

Module ProgressState.
Record t := {
  profile : string;
  processed_shortcodes : list string;
  results_file : string
}.
End ProgressState.

Module VideoPost.
Record t := {
  shortcode : string;
  url : string;
  video_url : string;
  caption : option string
}.
End VideoPost.

Module VideoList.
Record t := {
  profile : string;
  videos : list VideoPost.t
}.
End VideoList.

(** The truth value of a [str | None]: [None] and the empty string are
    false. *)
Definition truthy (o : option string) : bool :=
  match o with
  | Some s => negb (String.eqb s "")
  | None => false
  end.

(** ** JSON documents and the progress file *)

Inductive json :=
  | JNull
  | JBool (b : bool)
  | JNum (z : Z)
  | JStr (s : string)
  | JArr (items : list json)
  | JObj (fields : list (string * json)).

(** The text of a file, up to what [json.loads] makes of it: a text it
    rejects, or the document it returns. *)
Inductive file_text :=
  | NotJson (raw : string)
  | JsonDoc (doc : json).

Definition as_str (j : json) : option string :=
  match j with
  | JStr s => Some s
  | _ => None
  end.

Definition as_str_list (j : json) : option (list string) :=
  match j with
  | JArr items => mapM as_str items
  | _ => None
  end.

Fixpoint get_field (k : string) (fields : list (string * json)) : option json :=
  match fields with
  | [] => None
  | (k', v) :: rest => if String.eqb k k' then Some v else get_field k rest
  end.

(** [ProgressState.model_validate(data)]: [data] must be an object whose
    ["profile"] and ["results_file"] are strings and whose
    ["processed_shortcodes"], when present, is an array of strings (absent:
    the default, an empty list); other keys are ignored.  [None] stands for
    pydantic's [ValidationError]. *)
Definition model_validate (data : json) : option ProgressState.t :=
  match data with
  | JObj fields =>
      profile ← get_field "profile" fields ≫= as_str;
      processed ←
        match get_field "processed_shortcodes" fields with
        | Some j => as_str_list j
        | None => Some []
        end;
      results_file ← get_field "results_file" fields ≫= as_str;
      Some {| ProgressState.profile := profile;
              ProgressState.processed_shortcodes := processed;
              ProgressState.results_file := results_file |}
  | _ => None
  end.

(** The document [state.model_dump_json(...)] writes. *)
Definition model_dump (state : ProgressState.t) : json :=
  JObj [("profile", JStr (ProgressState.profile state));
        ("processed_shortcodes",
          JArr (JStr <$> ProgressState.processed_shortcodes state));
        ("results_file", JStr (ProgressState.results_file state))].

Definition ExerciseAnalysis_model_dump (a : ExerciseAnalysis.t) : json :=
  JObj [("muscle_group", JStr (ExerciseAnalysis.muscle_group a));
        ("machine", JStr (ExerciseAnalysis.machine a));
        ("wrong_way", JStr (ExerciseAnalysis.wrong_way a));
        ("correct_way", JStr (ExerciseAnalysis.correct_way a));
        ("trainer_insights", JStr (ExerciseAnalysis.trainer_insights a))].

Definition GeneralInsights_model_dump (g : GeneralInsights.t) : json :=
  JObj [("trainer_insights", JStr (GeneralInsights.trainer_insights g));
        ("video_type", JStr (GeneralInsights.video_type g))].

(** The document of the line [result.model_dump_json()] writes. *)
Definition VideoResult_model_dump (r : VideoResult.t) : json :=
  JObj [("shortcode", JStr (VideoResult.shortcode r));
        ("url", JStr (VideoResult.url r));
        ("is_exercise_video", JBool (VideoResult.is_exercise_video r));
        ("exercise_analysis",
          match VideoResult.exercise_analysis r with
          | Some a => ExerciseAnalysis_model_dump a
          | None => JNull
          end);
        ("general_insights",
          match VideoResult.general_insights r with
          | Some g => GeneralInsights_model_dump g
          | None => JNull
          end);
        ("error",
          match VideoResult.error r with
          | Some e => JStr e
          | None => JNull
          end)].

(** ** The files on disk *)

(** What a file holds: a text, and after it the lines of the records that
    were appended to it.  A progress file is a text without lines; a results
    file that the program created is the empty text with its lines. *)
Record content := {
  text : file_text;
  records : list VideoResult.t
}.

Definition document (t : file_text) : content := {| text := t; records := [] |}.

(** The file after a line was appended to it; a file that did not exist is
    created. *)
Definition add_record (r : VideoResult.t) (c : option content) : content :=
  match c with
  | Some c => {| text := text c; records := records c ++ [r] |}
  | None => {| text := NotJson ""; records := [r] |}
  end.

Definition chars (s : string) : list ascii := String.list_ascii_of_string s.

(** The whitespace of JSON: space, tab, line feed and carriage return. *)
Definition is_space (c : ascii) : bool :=
  Ascii.eqb c " " || Ascii.eqb c "009" || Ascii.eqb c "010" || Ascii.eqb c "013".

Definition blank (raw : string) : bool := forallb is_space (chars raw).

(** [json.loads] on what a file holds.  A document followed by lines is a
    text with extra data, and so is a text with two lines or more; a text
    that is not a document stays none when lines follow it, unless it is
    blank and one line follows: then the line is the document. *)
Definition json_loads (c : content) : option json :=
  match text c, records c with
  | JsonDoc doc, [] => Some doc
  | NotJson raw, [r] => if blank raw then Some (VideoResult_model_dump r) else None
  | _, _ => None
  end.

(** ** The state of a run *)

(** [types.File] of the Gemini client: its name and [state.name]. *)
Record File := {
  file_name : string;
  file_state : string
}.

Inductive schema := ExerciseSchema | GeneralSchema.

(** The observable calls, in the order in which they happen. *)
Inductive event :=
  | EvUniform (a b x : Qc)                   (* random.uniform(a, b) gave x *)
  | EvSleep (secs : Qc)                      (* time.sleep(secs) in the program *)
  | EvBackoff (secs : Z)                     (* the retry wrapper sleeping *)
  | EvUrlretrieve (url path : string)        (* urllib.request.urlretrieve is called *)
  | EvRetrieved (url path : string)          (* ... and has returned *)
  | EvProcess (shortcode : string)           (* _process_video starts on a post *)
  | EvAnalyze (path shortcode : string)      (* VideoAnalyzer.analyze is entered *)
  | EvSinkAppend (path : string) (r : VideoResult.t)
      (* _append_result has returned: the line is written *)
  | EvLedgerSave (path : string) (st : ProgressState.t)
      (* _save_progress has returned: the progress is written *)
  | EvMarked (shortcode : string)            (* the post counted as processed *)
  | EvNotMarked (shortcode : string)         (* "NOT marked as processed (will retry)" *)
  | EvSummary (processed errors : nat).      (* "Pipeline complete. ..." *)

(** The local variables of [run_pipeline_from_file] that the loop mutates. *)
Record Locals := {
  state : ProgressState.t;
  processed_count : nat;
  error_count : nat
}.

(** The calls that leave the program.  [W] is the hidden state of the outside
    world. *)
Class External (W : Type) := {
  (* tempfile.NamedTemporaryFile(suffix=..., delete=False).name *)
  mkstemp : string → W → string * W;
  (* random.uniform(a, b) *)
  random_uniform : Qc → Qc → W → Qc * W;
  (* urllib.request.urlretrieve(url, path) *)
  urlretrieve : string → string → W → res unit * W;
  (* what the operating system makes of a write to the file at a path *)
  os_write : string → W → res unit * W;
  (* instaloader.Profile.from_username(context, name), as the profile's name *)
  profile_from_username : string → W → res string * W;
  (* InstagramCrawler(username, password): session or login *)
  crawler_init : string → string → W → res unit * W;
  (* VideoAnalyzer(api_key): client construction and prompt file *)
  analyzer_init : string → W → res unit * W;
  (* client.files.upload(file=path) *)
  files_upload : string → W → res File * W;
  (* client.files.get(name=...) *)
  files_get : string → W → res File * W;
  (* client.files.delete(name=...) *)
  files_delete : string → W → res unit * W;
  (* client.models.generate_content(...).text *)
  generate_content : File → schema → W → res string * W;
  (* ExerciseAnalysis.model_validate_json / GeneralInsights.model_validate_json *)
  validate_exercise : string → option ExerciseAnalysis.t;
  validate_general : string → option GeneralInsights.t
}.

Section State.

Context {W : Type}.

Record St := {
  files : gmap string content;
  tmp_files : gset string;
  locals : Locals;
  log : list event;
  world : W
}.

Definition set_files (f : gmap string content → gmap string content)
    (s : St) : St :=
  {| files := f (files s);
     tmp_files := tmp_files s; locals := locals s; log := log s;
     world := world s |}.

Definition set_tmp_files (f : gset string → gset string) (s : St) : St :=
  {| files := files s;
     tmp_files := f (tmp_files s); locals := locals s; log := log s;
     world := world s |}.

Definition set_locals (f : Locals → Locals) (s : St) : St :=
  {| files := files s;
     tmp_files := tmp_files s; locals := f (locals s); log := log s;
     world := world s |}.

Definition add_log (e : event) (s : St) : St :=
  {| files := files s;
     tmp_files := tmp_files s; locals := locals s; log := log s ++ [e];
     world := world s |}.

Definition set_world (w : W) (s : St) : St :=
  {| files := files s;
     tmp_files := tmp_files s; locals := locals s; log := log s;
     world := w |}.

(** ** The monad *)

Definition M (A : Type) : Type := St → res A * St.

Definition ret {A} (a : A) : M A := λ s, (Ret a, s).

Definition bind {A B} (m : M A) (k : A → M B) : M B :=
  λ s, match m s with
       | (Ret a, s') => k a s'
       | (Raise e, s') => (Raise e, s')
       | (Hang, s') => (Hang, s')
       end.

Definition raise {A} (e : exn) : M A := λ s, (Raise e, s).

Definition hang {A} : M A := λ s, (Hang, s).

Definition emit (e : event) : M unit := λ s, (Ret tt, add_log e s).

Definition modify (f : St → St) : M unit := λ s, (Ret tt, f s).

Definition gets {A} (f : St → A) : M A := λ s, (Ret (f s), s).

(** A call that returns: only the world changes. *)
Definition ask {A} (f : W → A * W) : M A :=
  λ s, let '(a, w) := f (world s) in (Ret a, set_world w s).

(** A call that may raise or hang. *)
Definition ext {A} (f : W → res A * W) : M A :=
  λ s, let '(r, w) := f (world s) in (r, set_world w s).

(** [try: m  except Exception as e: h e]. *)
Definition catch_Exception {A} (m : M A) (h : exn → M A) : M A :=
  λ s, match m s with
       | (Raise e, s') => if is_Exception e then h e s' else (Raise e, s')
       | other => other
       end.

(** [try: m  finally: f].  The finaliser runs when [m] returns or raises; an
    exception of the finaliser replaces the outcome of [m]. *)
Definition try_finally {A} (m : M A) (f : M unit) : M A :=
  λ s, match m s with
       | (Hang, s') => (Hang, s')
       | (r, s') =>
           match f s' with
           | (Ret _, s'') => (r, s'')
           | (Raise e, s'') => (Raise e, s'')
           | (Hang, s'') => (Hang, s'')
           end
       end.

End State.

Arguments St W : clear implicits.
Arguments M W A : clear implicits.

Notation "'let!' x ':=' m 'in' k" := (bind m (λ x, k))
  (at level 10, x name, m at level 100, k at level 200).

(** ** The retry wrapper ([tenacity.retry] as the program configures it) *)

Record retry_policy := {
  retry_if : exn → bool;        (* retry=retry_if_exception_type(...) *)
  stop_after_attempt : nat;     (* stop=stop_after_attempt(n) *)
  multiplier : Z;               (* wait=wait_exponential(multiplier, min, max) *)
  wait_min : Z;
  wait_max : Z
}.

Definition clamp (x lo hi : Z) : Z := Z.max lo (Z.min x hi).

(** Modelled from the spec: the backoff of the Rate-Limited Retry Wrapper,
    [delay = clamp(multiplier * 2^attempt, min, max)], where [attempt] is the
    index of the failed attempt, counted from 0.  The wrapper itself is the
    tenacity library, which is not part of the repository; its
    [wait_exponential] computes this value with [attempt_number - 1] for
    [attempt]. *)
Definition wait_exponential (pol : retry_policy) (attempt : nat) : Z :=
  clamp (multiplier pol * 2 ^ Z.of_nat attempt) (wait_min pol) (wait_max pol).

Section Retry.

Context {W : Type}.

(** Modelled from the spec: the Rate-Limited Retry Wrapper.  It executes the
    operation; on a retryable failure with attempts left it sleeps for the
    computed delay and re-attempts; on exhausting the attempts it raises the
    last failure wrapped in a [RetryError]; a failure that is not retryable
    propagates as it is.  [retries] counts the re-attempts still allowed and
    [attempt] is the index of the attempt being made. *)
Fixpoint retry_from {A} (pol : retry_policy) (op : M W A)
    (retries attempt : nat) : M W A :=
  λ s, match op s with
       | (Raise e, s') =>
           if retry_if pol e then
             match retries with
             | O => (Raise (RetryError e), s')
             | S retries' =>
                 retry_from pol op retries' (S attempt)
                   (add_log (EvBackoff (wait_exponential pol attempt)) s')
             end
           else (Raise e, s')
       | other => other
       end.

Definition retry {A} (pol : retry_policy) (op : M W A) : M W A :=
  retry_from pol op (stop_after_attempt pol - 1) 0.

End Retry.

(** The three policies of the program. *)

(** [_get_profile], [get_post_by_shortcode] *)
Definition network_policy : retry_policy :=
  {| retry_if := is_connection_error; stop_after_attempt := 3;
     multiplier := 60; wait_min := 60; wait_max := 300 |}.

(** [_upload_video], [_analyze_with_schema], [_get_video_url] *)
Definition gemini_policy : retry_policy :=
  {| retry_if := is_Exception; stop_after_attempt := 3;
     multiplier := 10; wait_min := 10; wait_max := 120 |}.

(** [download_video] *)
Definition download_policy : retry_policy :=
  {| retry_if := is_Exception; stop_after_attempt := 3;
     multiplier := 5; wait_min := 5; wait_max := 60 |}.

(** ** [src/instagram.py] *)

Definition BASE_DELAY_SECONDS : Qc := seconds 5.
Definition DELAY_JITTER_SECONDS : Qc := seconds 3.

Section Program.

Context {W : Type} `{External W}.

Definition time_sleep (secs : Qc) : M W unit := emit (EvSleep secs).

(** [random.uniform(a, b)] *)
Definition uniform (a b : Qc) : M W Qc :=
  let! x := ask (random_uniform a b) in
  let! _ := emit (EvUniform a b x) in
  ret x.

Definition _sleep_with_jitter (base : Qc) : M W unit :=
  let! jitter := uniform (seconds 0) DELAY_JITTER_SECONDS in
  time_sleep (Qcanon.Qcplus base jitter).

(** The undecorated body of [download_video]: on success the payload is at
    [output_path]. *)
Definition download_video_body (video_url output_path : string) : M W string :=
  let! _ := _sleep_with_jitter BASE_DELAY_SECONDS in
  let! _ := emit (EvUrlretrieve video_url output_path) in
  let! _ := ext (urlretrieve video_url output_path) in
  let! _ := emit (EvRetrieved video_url output_path) in
  let! _ := modify (set_tmp_files (λ fs, {[output_path]} ∪ fs)) in
  ret output_path.

Definition download_video (video_url output_path : string) : M W string :=
  retry download_policy (download_video_body video_url output_path).

Definition _get_profile_body (profile_name : string) : M W string :=
  let! _ := _sleep_with_jitter (seconds 2) in
  ext (profile_from_username profile_name).

Definition _get_profile (profile_name : string) : M W string :=
  retry network_policy (_get_profile_body profile_name).

(** ** [src/analyzer.py] *)

Definition GEMINI_REQUEST_DELAY_SECONDS : Qc := seconds 1.

(** The polling loop of [_upload_video]; [fuel] bounds the number of polls,
    and the loop hangs when the file is still processing after them. *)
Fixpoint wait_while_processing (fuel : nat) (video_file : File) : M W File :=
  if String.eqb (file_state video_file) "PROCESSING" then
    match fuel with
    | O => hang
    | S fuel' =>
        let! _ := time_sleep (seconds 5) in
        let! video_file' := ext (files_get (file_name video_file)) in
        wait_while_processing fuel' video_file'
    end
  else ret video_file.

Variable poll_fuel : nat.

Definition _upload_video_body (video_path : string) : M W File :=
  let! video_file := ext (files_upload video_path) in
  let! video_file := wait_while_processing poll_fuel video_file in
  if negb (String.eqb (file_state video_file) "ACTIVE") then
    raise (Exn RuntimeError
             ("File processing failed: " +:+ file_state video_file))
  else ret video_file.

Definition _upload_video (video_path : string) : M W File :=
  retry gemini_policy (_upload_video_body video_path).

Definition _analyze_with_schema (video_file : File) (sch : schema) : M W string :=
  retry gemini_policy
    (let! _ := time_sleep GEMINI_REQUEST_DELAY_SECONDS in
     ext (generate_content video_file sch)).

Definition _delete_video (video_file : File) : M W unit :=
  catch_Exception (ext (files_delete (file_name video_file))) (λ _, ret tt).

(** [ExerciseAnalysis.model_validate_json]; pydantic's message names the
    model. *)
Definition model_validate_exercise (text : string) : M W ExerciseAnalysis.t :=
  match validate_exercise text with
  | Some a => ret a
  | None => raise (Exn ValidationError "1 validation error for ExerciseAnalysis")
  end.

Definition model_validate_general (text : string) : M W GeneralInsights.t :=
  match validate_general text with
  | Some g => ret g
  | None => raise (Exn ValidationError "1 validation error for GeneralInsights")
  end.

Definition post_url (shortcode : string) : string :=
  "https://www.instagram.com/p/" +:+ shortcode +:+ "/".

Definition exercise_result (shortcode : string) (a : ExerciseAnalysis.t)
    : VideoResult.t :=
  {| VideoResult.shortcode := shortcode; VideoResult.url := post_url shortcode;
     VideoResult.is_exercise_video := true;
     VideoResult.exercise_analysis := Some a;
     VideoResult.general_insights := None; VideoResult.error := None |}.

Definition general_result (shortcode : string) (g : GeneralInsights.t)
    : VideoResult.t :=
  {| VideoResult.shortcode := shortcode; VideoResult.url := post_url shortcode;
     VideoResult.is_exercise_video := false;
     VideoResult.exercise_analysis := None;
     VideoResult.general_insights := Some g; VideoResult.error := None |}.

Definition error_result (shortcode : string) (e : exn) : VideoResult.t :=
  {| VideoResult.shortcode := shortcode; VideoResult.url := post_url shortcode;
     VideoResult.is_exercise_video := false;
     VideoResult.exercise_analysis := None;
     VideoResult.general_insights := None; VideoResult.error := Some (str e) |}.

(** The inner [try] of [analyze]: the full schema, and on any exception the
    fallback schema. *)
Definition analyze_uploaded (video_file : File) (shortcode : string)
    : M W VideoResult.t :=
  catch_Exception
    (let! response_text := _analyze_with_schema video_file ExerciseSchema in
     let! exercise_analysis := model_validate_exercise response_text in
     ret (exercise_result shortcode exercise_analysis))
    (λ _,
     let! response_text := _analyze_with_schema video_file GeneralSchema in
     let! general_insights := model_validate_general response_text in
     ret (general_result shortcode general_insights)).

(** [VideoAnalyzer.analyze].  [video_file] is [None] until [_upload_video]
    has returned, so the [finally] clause deletes the upload only then. *)
Definition analyze (video_path shortcode : string) : M W VideoResult.t :=
  let! _ := emit (EvAnalyze video_path shortcode) in
  λ s, match _upload_video video_path s with
       | (Ret video_file, s1) =>
           try_finally
             (catch_Exception (analyze_uploaded video_file shortcode)
                (λ e, ret (error_result shortcode e)))
             (_delete_video video_file) s1
       | (Raise e, s1) =>
           if is_Exception e then (Ret (error_result shortcode e), s1)
           else (Raise e, s1)
       | (Hang, s1) => (Hang, s1)
       end.

(** ** [src/pipeline.py] *)

Definition _get_progress_file (profile output_dir : string) : string :=
  output_dir +:+ "/.progress_" +:+ profile +:+ ".json".

Definition _get_results_file (profile output_dir : string) : string :=
  output_dir +:+ "/results_" +:+ profile +:+ ".jsonl".

(** [json.loads(path.read_text())]; the message of the decoder, which
    depends on the text, is not modelled. *)
Definition read_json (path : string) : M W json :=
  λ s, match files s !! path with
       | Some c =>
           match json_loads c with
           | Some doc => (Ret doc, s)
           | None => (Raise (Exn JSONDecodeError "Expecting value"), s)
           end
       | None => (Raise (Exn OSError "No such file or directory"), s)
       end.

(** [path.write_text(...)] with the text of a document: the write goes
    through, or it raises and the file is as it was. *)
Definition write_text (path : string) (doc : json) : M W unit :=
  let! _ := ext (os_write path) in
  modify (set_files <[path := document (JsonDoc doc)]>).

(** [with path.open("a") as f: f.write(...)] with the line of a record. *)
Definition append_line (path : string) (r : VideoResult.t) : M W unit :=
  let! _ := ext (os_write path) in
  modify (set_files (λ fs, <[path := add_record r (fs !! path)]> fs)).

Definition fresh_state (profile output_dir : string) : ProgressState.t :=
  {| ProgressState.profile := profile;
     ProgressState.processed_shortcodes := [];
     ProgressState.results_file := _get_results_file profile output_dir |}.

Definition _load_progress (profile output_dir : string) : M W ProgressState.t :=
  let progress_file := _get_progress_file profile output_dir in
  let! present :=
    gets (λ s, bool_decide (is_Some (files s !! progress_file))) in
  if (present : bool) then
    catch_Exception
      (let! data := read_json progress_file in
       match model_validate data with
       | Some st => ret st
       | None =>
           raise (Exn ValidationError "validation error for ProgressState")
       end)
      (* logger.warning, then the fresh state below *)
      (λ _, ret (fresh_state profile output_dir))
  else ret (fresh_state profile output_dir).

Definition _save_progress (st : ProgressState.t) (output_dir : string)
    : M W unit :=
  let progress_file := _get_progress_file (ProgressState.profile st) output_dir in
  let! _ := write_text progress_file (model_dump st) in
  emit (EvLedgerSave progress_file st).

Definition _append_result (result : VideoResult.t) (results_file : string)
    : M W unit :=
  let! _ := append_line results_file result in
  emit (EvSinkAppend results_file result).

Definition named_temporary_file (suffix : string) : M W string :=
  let! name := ask (mkstemp suffix) in
  let! _ := modify (set_tmp_files (λ fs, {[name]} ∪ fs)) in
  ret name.

Definition path_exists (path : string) : M W bool :=
  gets (λ s, bool_decide (path ∈ tmp_files s)).

Definition unlink (path : string) : M W unit :=
  modify (set_tmp_files (λ fs, fs ∖ {[path]})).

Definition _process_video (post : VideoPost.t) : M W VideoResult.t :=
  let! video_path := named_temporary_file ".mp4" in
  try_finally
    (let! _ := emit (EvProcess (VideoPost.shortcode post)) in
     let! _ := download_video (VideoPost.video_url post) video_path in
     let! result := analyze video_path (VideoPost.shortcode post) in
     ret result)
    (let! still_there := path_exists video_path in
     if (still_there : bool) then unlink video_path else ret tt).

(** [l[:n]] *)
Definition slice_to {A} (n : Z) (l : list A) : list A :=
  if bool_decide (n < 0)%Z then take (Z.to_nat (Z.of_nat (length l) + n)) l
  else take (Z.to_nat n) l.

(** The filter and the cap of [run_pipeline_from_file]; [if max_videos:]
    is false for [None] and for [0]. *)
Definition videos_to_process (video_list : VideoList.t) (max_videos : option Z)
    (st : ProgressState.t) : list VideoPost.t :=
  let skip_shortcodes : gset string :=
    list_to_set (ProgressState.processed_shortcodes st) in
  let candidates :=
    filter (λ v, VideoPost.shortcode v ∉ skip_shortcodes)
      (VideoList.videos video_list) in
  match max_videos with
  | Some n => if bool_decide (n ≠ 0%Z) then slice_to n candidates else candidates
  | None => candidates
  end.

Definition count_error (l : Locals) : Locals :=
  {| state := state l; processed_count := processed_count l;
     error_count := S (error_count l) |}.

Definition count_processed (l : Locals) : Locals :=
  {| state := state l; processed_count := S (processed_count l);
     error_count := error_count l |}.

(** [state.processed_shortcodes.append(shortcode)] *)
Definition append_shortcode (st : ProgressState.t) (shortcode : string)
    : ProgressState.t :=
  {| ProgressState.profile := ProgressState.profile st;
     ProgressState.processed_shortcodes :=
       ProgressState.processed_shortcodes st ++ [shortcode];
     ProgressState.results_file := ProgressState.results_file st |}.

Definition mark_processed (shortcode : string) (l : Locals) : Locals :=
  {| state := append_shortcode (state l) shortcode;
     processed_count := processed_count l; error_count := error_count l |}.

(** The body of the [for] loop, with its [try ... except Exception]. *)
Definition process_post (results_file output_dir : string) (post : VideoPost.t)
    : M W unit :=
  catch_Exception
    (let! result := _process_video post in
     if truthy (VideoResult.error result) then
       let! _ := modify (set_locals count_error) in
       emit (EvNotMarked (VideoPost.shortcode post))
     else
       let! _ := _append_result result results_file in
       let! _ := modify (set_locals (mark_processed (VideoPost.shortcode post))) in
       let! st := gets (λ s, state (locals s)) in
       let! _ := _save_progress st output_dir in
       let! _ := modify (set_locals count_processed) in
       emit (EvMarked (VideoPost.shortcode post)))
    (λ _,
     let! _ := modify (set_locals count_error) in
     emit (EvNotMarked (VideoPost.shortcode post))).

Fixpoint for_each {A} (items : list A) (body : A → M W unit) : M W unit :=
  match items with
  | [] => ret tt
  | x :: rest => let! _ := body x in for_each rest body
  end.

(** [run_pipeline_from_file].  Directories are not modelled, so
    [output_dir.mkdir] is left out; of the logging only the final summary is
    kept, so the [except KeyboardInterrupt] clause, which logs and re-raises,
    is the identity. *)
Definition run_pipeline_from_file (video_list : VideoList.t)
    (api_key output_dir instagram_username instagram_password : string)
    (max_videos : option Z) : M W unit :=
  let profile := VideoList.profile video_list in
  let! st := _load_progress profile output_dir in
  let results_file := ProgressState.results_file st in
  let! _ := ext (crawler_init instagram_username instagram_password) in
  let! _ := ext (analyzer_init api_key) in
  let todo := videos_to_process video_list max_videos st in
  let! _ := modify (set_locals (λ _, {| state := st; processed_count := 0;
                                        error_count := 0 |})) in
  try_finally
    (for_each todo (process_post results_file output_dir))
    (let! l := gets locals in
     emit (EvSummary (processed_count l) (error_count l))).

End Program.

(** ** A scripted outside world

    Each kind of call answers with the next entry of its script, and with a
    fixed success once the script is exhausted. *)

Record Script := {
  tmp_names : list string;
  jitters : list Qc;
  downloads : list (res unit);
  profiles : list (res string);
  uploads : list (res File);
  polls : list (res File);
  deletions : list (res unit);
  generations : list (res string);
  writes : list (res unit)
}.

Definition pop {A} (d : A) (l : list A) : A * list A :=
  match l with
  | [] => (d, [])
  | x :: rest => (x, rest)
  end.

Definition active_file : File := {| file_name := "files/1"; file_state := "ACTIVE" |}.

Definition sample_exercise : ExerciseAnalysis.t :=
  {| ExerciseAnalysis.muscle_group := "back";
     ExerciseAnalysis.machine := "lat pulldown";
     ExerciseAnalysis.wrong_way := "Using momentum";
     ExerciseAnalysis.correct_way := "Slow and controlled";
     ExerciseAnalysis.trainer_insights := "Focus on squeeze" |}.

Definition sample_general : GeneralInsights.t :=
  {| GeneralInsights.trainer_insights := "Stay hydrated";
     GeneralInsights.video_type := "nutrition advice" |}.

#[global] Instance scripted : External Script := {|
  mkstemp suffix w :=
    let '(n, rest) := pop "/tmp/tmpvideo" (tmp_names w) in
    (n +:+ suffix,
     {| tmp_names := rest; jitters := jitters w; downloads := downloads w;
        profiles := profiles w; uploads := uploads w; polls := polls w;
        deletions := deletions w; generations := generations w;
        writes := writes w |});
  random_uniform a b w :=
    let '(j, rest) := pop a (jitters w) in
    (j,
     {| tmp_names := tmp_names w; jitters := rest; downloads := downloads w;
        profiles := profiles w; uploads := uploads w; polls := polls w;
        deletions := deletions w; generations := generations w;
        writes := writes w |});
  urlretrieve url path w :=
    let '(r, rest) := pop (Ret tt) (downloads w) in
    (r,
     {| tmp_names := tmp_names w; jitters := jitters w; downloads := rest;
        profiles := profiles w; uploads := uploads w; polls := polls w;
        deletions := deletions w; generations := generations w;
        writes := writes w |});
  profile_from_username name w :=
    let '(r, rest) := pop (Ret name) (profiles w) in
    (r,
     {| tmp_names := tmp_names w; jitters := jitters w; downloads := downloads w;
        profiles := rest; uploads := uploads w; polls := polls w;
        deletions := deletions w; generations := generations w;
        writes := writes w |});
  os_write path w :=
    let '(r, rest) := pop (Ret tt) (writes w) in
    (r,
     {| tmp_names := tmp_names w; jitters := jitters w; downloads := downloads w;
        profiles := profiles w; uploads := uploads w; polls := polls w;
        deletions := deletions w; generations := generations w;
        writes := rest |});
  crawler_init username password w := (Ret tt, w);
  analyzer_init api_key w := (Ret tt, w);
  files_upload path w :=
    let '(r, rest) := pop (Ret active_file) (uploads w) in
    (r,
     {| tmp_names := tmp_names w; jitters := jitters w; downloads := downloads w;
        profiles := profiles w; uploads := rest; polls := polls w;
        deletions := deletions w; generations := generations w;
        writes := writes w |});
  files_get name w :=
    let '(r, rest) := pop (Ret active_file) (polls w) in
    (r,
     {| tmp_names := tmp_names w; jitters := jitters w; downloads := downloads w;
        profiles := profiles w; uploads := uploads w; polls := rest;
        deletions := deletions w; generations := generations w;
        writes := writes w |});
  files_delete name w :=
    let '(r, rest) := pop (Ret tt) (deletions w) in
    (r,
     {| tmp_names := tmp_names w; jitters := jitters w; downloads := downloads w;
        profiles := profiles w; uploads := uploads w; polls := polls w;
        deletions := rest; generations := generations w;
        writes := writes w |});
  generate_content video_file sch w :=
    let '(r, rest) := pop (Ret "exercise") (generations w) in
    (r,
     {| tmp_names := tmp_names w; jitters := jitters w; downloads := downloads w;
        profiles := profiles w; uploads := uploads w; polls := polls w;
        deletions := deletions w; generations := rest;
        writes := writes w |});
  validate_exercise text :=
    if String.eqb text "exercise" then Some sample_exercise else None;
  validate_general text :=
    if String.eqb text "general" then Some sample_general else None
|}.

(** The world in which every call succeeds at once. *)
Definition calm : Script :=
  {| tmp_names := []; jitters := []; downloads := []; profiles := [];
     uploads := []; polls := []; deletions := []; generations := [];
     writes := [] |}.

Definition no_locals : Locals :=
  {| state := {| ProgressState.profile := "";
                 ProgressState.processed_shortcodes := [];
                 ProgressState.results_file := "" |};
     processed_count := 0; error_count := 0 |}.

(** A machine with the given files and world, and nothing else. *)
Definition boot {W} (disk : gmap string content) (w : W) : St W :=
  {| files := disk; tmp_files := ∅;
     locals := no_locals; log := []; world := w |}.

Definition post (shortcode : string) : VideoPost.t :=
  {| VideoPost.shortcode := shortcode; VideoPost.url := post_url shortcode;
     VideoPost.video_url := "https://cdn.example/" +:+ shortcode +:+ ".mp4";
     VideoPost.caption := None |}.

(** *** Concrete runs *)

Definition timed_out : exn := Exn OSError "timed out".
Definition reset : exn := Exn ConnectionException "connection reset".
Definition overloaded : exn := Exn OtherException "503 overloaded".

(** The world without a network: nine downloads in a row time out. *)
Definition offline : Script :=
  {| tmp_names := []; jitters := [];
     downloads := replicate 9 (Raise timed_out);
     profiles := []; uploads := []; polls := []; deletions := [];
     generations := []; writes := [] |}.

(** The world in which the first download times out. *)
Definition one_timeout : Script :=
  {| tmp_names := []; jitters := []; downloads := [Raise timed_out];
     profiles := []; uploads := []; polls := []; deletions := [];
     generations := []; writes := [] |}.

(** The world in which the first download loses its connection. *)
Definition one_reset : Script :=
  {| tmp_names := []; jitters := []; downloads := [Raise reset];
     profiles := []; uploads := []; polls := []; deletions := [];
     generations := []; writes := [] |}.

(** The world in which the first six inference calls fail: the analysis of
    the first post fails on both schemas, after three attempts each. *)
Definition fussy : Script :=
  {| tmp_names := []; jitters := []; downloads := [];
     profiles := []; uploads := []; polls := []; deletions := [];
     generations := replicate 6 (Raise overloaded); writes := [] |}.

(** The world in which the profile lookup fails twice. *)
Definition flaky : Script :=
  {| tmp_names := []; jitters := []; downloads := [];
     profiles := [Raise reset; Raise reset]; uploads := []; polls := [];
     deletions := []; generations := []; writes := [] |}.


Definition one_post : VideoList.t :=
  {| VideoList.profile := "p"; VideoList.videos := [post "A"] |}.



Definition abc_posts : VideoList.t :=
  {| VideoList.profile := "p";
     VideoList.videos := [post "A"; post "B"; post "C"] |}.

Definition ten_posts : VideoList.t :=
  {| VideoList.profile := "p";
     VideoList.videos :=
       [post "V0"; post "V1"; post "V2"; post "V3"; post "V4";
        post "V5"; post "V6"; post "V7"; post "V8"; post "V9"] |}.

(** The progress file of a run that has completed ["A"]. *)
Definition ledger_A : gmap string content :=
  {[ "out/.progress_p.json" :=
       document (JsonDoc (model_dump
         {| ProgressState.profile := "p";
            ProgressState.processed_shortcodes := ["A"];
            ProgressState.results_file := "out/results_p.jsonl" |})) ]}.


(** A progress file that is not JSON. *)
Definition ledger_corrupt : gmap string content :=
  {[ "out/.progress_p.json" := document (NotJson "not valid json") ]}.

(** The driver on a list, with three polls allowed per upload. *)
Definition drive {W} `{External W} (video_list : VideoList.t)
    (max_videos : option Z) (s : St W) : res unit * St W :=
  run_pipeline_from_file 3 video_list "key" "out" "user" "secret" max_videos s.

(** A world in which every call succeeds at once, whatever came before. *)
#[global] Instance steady : External unit := {|
  mkstemp suffix w := ("/tmp/tmpvideo" +:+ suffix, w);
  random_uniform a b w := (a, w);
  urlretrieve url path w := (Ret tt, w);
  os_write path w := (Ret tt, w);
  profile_from_username name w := (Ret name, w);
  crawler_init username password w := (Ret tt, w);
  analyzer_init api_key w := (Ret tt, w);
  files_upload path w := (Ret active_file, w);
  files_get name w := (Ret active_file, w);
  files_delete name w := (Ret tt, w);
  generate_content video_file sch w := (Ret "exercise", w);
  validate_exercise text := Some sample_exercise;
  validate_general text := Some sample_general
|}.

(** ** The rest of [src/instagram.py] *)

(** *** [extract_shortcodes_from_html] *)

Definition in_range (lo hi c : ascii) : bool :=
  (nat_of_ascii lo <=? nat_of_ascii c) && (nat_of_ascii c <=? nat_of_ascii hi).

(** The class [[A-Za-z0-9_-]]. *)
Definition shortcode_char (c : ascii) : bool :=
  in_range "A" "Z" c || in_range "a" "z" c || in_range "0" "9" c ||
  Ascii.eqb c "_" || Ascii.eqb c "-".

(** The text after the literal [lit], when the text starts with it. *)
Fixpoint strip (lit text : list ascii) : option (list ascii) :=
  match lit, text with
  | [], _ => Some text
  | c :: lit', d :: text' => if Ascii.eqb c d then strip lit' text' else None
  | _ :: _, [] => None
  end.

(** [([A-Za-z0-9_-]{11})/] at the head of the text: the group. *)
Definition match_code (text : list ascii) : option (list ascii) :=
  let group := take 11 text in
  if bool_decide (length group = 11) && forallb shortcode_char group then
    match strip (chars "/") (drop 11 text) with
    | Some _ => Some group
    | None => None
    end
  else None.

(** [/(?:p|reel)/([A-Za-z0-9_-]{11})/] at the head of the text: the group
    and the length of the match.  The alternatives are tried in order. *)
Definition match_here (text : list ascii) : option (list ascii * nat) :=
  after ← strip (chars "/") text;
  let rest_of (kind : string) :=
    rest ← strip (chars kind) after;
    rest ← strip (chars "/") rest;
    group ← match_code rest;
    Some (group, 1 + String.length kind + 1 + 11 + 1) in
  match rest_of "p" with
  | Some m => Some m
  | None => rest_of "reel"
  end.

(** [re.findall(pattern, html)]: the groups of the matches found from left
    to right, without overlap.  [skip] counts the characters of the last
    match that are still ahead; no match starts at them. *)
Fixpoint findall (skip : nat) (text : list ascii) : list string :=
  match text with
  | [] => []
  | _ :: rest =>
      match skip with
      | S skip' => findall skip' rest
      | O =>
          match match_here text with
          | Some (group, len) =>
              String.string_of_list_ascii group :: findall (len - 1) rest
          | None => findall 0 rest
          end
      end
  end.

(** [list(dict.fromkeys(keys))]: a dict keeps its keys in the order in which
    they were first inserted. *)
Definition fromkeys (keys : list string) : list string :=
  foldl (λ d k, if bool_decide (k ∈ d) then d else d ++ [k]) [] keys.

(** [extract_shortcodes_from_html], on the text [html] that [read_text]
    returns for the page. *)
Definition extract_shortcodes_from_html (html : string) : list string :=
  fromkeys (findall 0 (chars html)).

(** No match of the pattern starts at a character of [text] when [follow]
    comes after it. *)
Fixpoint no_link_start (text follow : list ascii) : bool :=
  match text with
  | [] => true
  | _ :: rest =>
      bool_decide (match_here (text ++ follow) = None) &&
      no_link_start rest follow
  end.

(** A shortcode as the pattern captures it: 11 characters of the class. *)
Definition is_code (code : string) : bool :=
  (String.length code =? 11) && forallb shortcode_char (chars code).

(** The link to a post or to a reel, as it stands in a page. *)
Definition link (reel : bool) (code : string) : string :=
  "/" +:+ (if reel then "reel" else "p") +:+ "/" +:+ code +:+ "/".

(** A page: links, each after some text, and the text after the last
    link. *)
Fixpoint page (links : list (string * bool * string)) (trailer : string)
    : string :=
  match links with
  | [] => trailer
  | (text, reel, code) :: rest => text +:+ link reel code +:+ page rest trailer
  end.

(** The page is made of its links: each link holds a shortcode, and no match
    of the pattern starts in the text before a link, nor in the text after
    the last one. *)
Fixpoint links_only (links : list (string * bool * string)) (trailer : string)
    : bool :=
  match links with
  | [] => no_link_start (chars trailer) []
  | (text, reel, code) :: rest =>
      no_link_start (chars text) (chars (link reel code +:+ page rest trailer)) &&
      is_code code && links_only rest trailer
  end.

(** *** The video list as a JSON document *)

Definition as_optional_str (j : json) : option (option string) :=
  match j with
  | JNull => Some None
  | JStr s => Some (Some s)
  | _ => None
  end.

(** [VideoPost.model_validate(data)]: the three required strings, and the
    caption, which may be [null] or absent. *)
Definition VideoPost_model_validate (data : json) : option VideoPost.t :=
  match data with
  | JObj fields =>
      shortcode ← get_field "shortcode" fields ≫= as_str;
      url ← get_field "url" fields ≫= as_str;
      video_url ← get_field "video_url" fields ≫= as_str;
      caption ←
        match get_field "caption" fields with
        | Some j => as_optional_str j
        | None => Some None
        end;
      Some {| VideoPost.shortcode := shortcode; VideoPost.url := url;
              VideoPost.video_url := video_url; VideoPost.caption := caption |}
  | _ => None
  end.

(** [VideoList.model_validate(data)] *)
Definition VideoList_model_validate (data : json) : option VideoList.t :=
  match data with
  | JObj fields =>
      profile ← get_field "profile" fields ≫= as_str;
      videos ←
        match get_field "videos" fields with
        | Some (JArr items) => mapM VideoPost_model_validate items
        | _ => None
        end;
      Some {| VideoList.profile := profile; VideoList.videos := videos |}
  | _ => None
  end.

Definition VideoPost_model_dump (v : VideoPost.t) : json :=
  JObj [("shortcode", JStr (VideoPost.shortcode v));
        ("url", JStr (VideoPost.url v));
        ("video_url", JStr (VideoPost.video_url v));
        ("caption", match VideoPost.caption v with
                    | Some c => JStr c
                    | None => JNull
                    end)].

(** The document [video_list.model_dump_json(...)] writes. *)
Definition VideoList_model_dump (video_list : VideoList.t) : json :=
  JObj [("profile", JStr (VideoList.profile video_list));
        ("videos", JArr (VideoPost_model_dump <$> VideoList.videos video_list))].

(** *** The posts of instaloader *)

(** [instaloader.Post], as far as the program reads it without a request:
    the shortcode, [is_video] and the caption come with the node. *)
Module Post.
Record t := {
  shortcode : string;
  is_video : bool;
  caption : option string
}.
End Post.

(** [instaloader.PostSidecarNode]; its [display_url] is not read. *)
Record PostSidecarNode := {
  node_is_video : bool;
  node_video_url : option string
}.

(** The calls into instaloader that may send a request.  The iterator that
    [profile.get_posts()] returns lives in the world: the program holds one
    iterator at a time. *)
Class Instaloader (W : Type) := {
  (* post_iterator = profile.get_posts() *)
  get_posts : string → W → res unit * W;
  (* next(post_iterator); None stands for StopIteration *)
  next_post : W → res (option Post.t) * W;
  (* post.typename *)
  post_typename : Post.t → W → res string * W;
  (* post.video_url *)
  post_video_url : Post.t → W → res (option string) * W;
  (* post.get_sidecar_nodes(): the nodes the generator yields, and how it
     ends when it is run to its end *)
  post_get_sidecar_nodes : Post.t → W → (list PostSidecarNode * res unit) * W;
  (* instaloader.Post.from_shortcode(context, shortcode) *)
  post_from_shortcode : string → W → res Post.t * W
}.

Definition RATE_LIMIT_PAUSE_SECONDS : Z := 120.
Definition MAX_RATE_LIMIT_RETRIES : nat := 5.

(** The [video_url] of the first node that is a video. *)
Fixpoint first_video (nodes : list PostSidecarNode) : option (option string) :=
  match nodes with
  | [] => None
  | node :: rest =>
      if node_is_video node then Some (node_video_url node) else first_video rest
  end.

Section Crawler.

Context {W : Type} `{External W} `{Instaloader W}.

Definition load_video_list (file_path : string) : M W VideoList.t :=
  let! data := read_json file_path in
  match VideoList_model_validate data with
  | Some video_list => ret video_list
  | None => raise (Exn ValidationError "validation error for VideoList")
  end.


(** [_handle_rate_limit]; [attempt] is the number of rate limits in a row
    so far, counted from 0. *)
Definition _handle_rate_limit (attempt : nat) : M W bool :=
  if bool_decide (MAX_RATE_LIMIT_RETRIES ≤ attempt) then ret false
  else
    let wait_time := (RATE_LIMIT_PAUSE_SECONDS * 2 ^ Z.of_nat attempt)%Z in
    let wait_time := Z.min wait_time 600 in
    let! _ := time_sleep (seconds wait_time) in
    ret true.

(** The undecorated body of [_get_video_url]. *)
Definition _get_video_url_body (post : Post.t) : M W (option string) :=
  let! typename := ext (post_typename post) in
  if String.eqb typename "GraphSidecar" then
    λ s, let '((nodes, ending), w) := post_get_sidecar_nodes post (world s) in
         match first_video nodes with
         | Some video_url => (Ret video_url, set_world w s)
         | None =>
             match ending with
             | Ret _ => (Ret None, set_world w s)
             | Raise e => (Raise e, set_world w s)
             | Hang => (Hang, set_world w s)
             end
         end
  else ext (post_video_url post).

Definition _get_video_url (post : Post.t) : M W (option string) :=
  retry gemini_policy (_get_video_url_body post).

Definition video_post (shortcode video_url : string) (caption : option string)
    : VideoPost.t :=
  {| VideoPost.shortcode := shortcode; VideoPost.url := post_url shortcode;
     VideoPost.video_url := video_url; VideoPost.caption := caption |}.

(** The undecorated body of [get_post_by_shortcode]; its [except] clause
    logs and raises again. *)
Definition get_post_by_shortcode_body (shortcode : string)
    : M W (option VideoPost.t) :=
  let! _ := _sleep_with_jitter (seconds 2) in
  let! post := ext (post_from_shortcode shortcode) in
  if negb (Post.is_video post) then ret None
  else
    let! video_url := _get_video_url post in
    match video_url with
    | Some u =>
        if String.eqb u "" then ret None
        else ret (Some (video_post shortcode u (Post.caption post)))
    | None => ret None
    end.

Definition get_post_by_shortcode (shortcode : string)
    : M W (option VideoPost.t) :=
  retry network_policy (get_post_by_shortcode_body shortcode).

(** The loop that passes over the posts already seen, after the iterator
    was made anew. *)
Fixpoint skip_seen (n : nat) : M W unit :=
  match n with
  | O => ret tt
  | S n' =>
      let! skipped := ext next_post in
      match skipped with
      | Some _ => skip_seen n'
      | None => ret tt
      end
  end.

(** The [while True] loop of [list_videos], with its local variables;
    [fuel] bounds the number of iterations, and the loop hangs when they are
    used up. *)
Fixpoint list_videos_loop (fuel : nat) (profile : string)
    (videos : list VideoPost.t) (rate_limit_attempts : nat)
    (seen_shortcodes : gset string) : M W (list VideoPost.t) :=
  match fuel with
  | O => hang
  | S fuel' =>
      λ s,
      match (let! _ := _sleep_with_jitter BASE_DELAY_SECONDS in
             ext next_post) s with
      | (Ret (Some post), s1) =>
          if bool_decide (Post.shortcode post ∈ seen_shortcodes) then
            list_videos_loop fuel' profile videos 0 seen_shortcodes s1
          else
            let seen := {[Post.shortcode post]} ∪ seen_shortcodes in
            if negb (Post.is_video post) then
              list_videos_loop fuel' profile videos 0 seen s1
            else
              (let! videos :=
                 catch_Exception
                   (let! video_url := _get_video_url post in
                    match video_url with
                    | Some u =>
                        if String.eqb u "" then ret videos
                        else ret (videos ++
                                    [video_post (Post.shortcode post) u
                                       (Post.caption post)])
                    | None => ret videos
                    end)
                   (λ _, ret videos) in
               list_videos_loop fuel' profile videos 0 seen) s1
      | (Ret None, s1) => (Ret videos, s1)
      | (Raise e, s1) =>
          if is_connection_error e then
            (let! go_on := _handle_rate_limit rate_limit_attempts in
             if (go_on : bool) then
               let! _ := ext (get_posts profile) in
               let! _ := skip_seen (size seen_shortcodes) in
               list_videos_loop fuel' profile videos (S rate_limit_attempts)
                 seen_shortcodes
             else ret videos) s1
          else (Raise e, s1)
      | (Hang, s1) => (Hang, s1)
      end
  end.

Definition list_videos (fuel : nat) (profile_name : string) : M W VideoList.t :=
  let! profile := _get_profile profile_name in
  let! _ := ext (get_posts profile) in
  let! videos := list_videos_loop fuel profile [] 0 ∅ in
  ret {| VideoList.profile := profile_name; VideoList.videos := videos |}.

(** [get_video_posts], as the list of the posts the generator yields;
    [skip_shortcodes or set()] is the empty set for [None]. *)
Definition get_video_posts (fuel : nat) (profile_name : string)
    (skip_shortcodes : option (gset string)) : M W (list VideoPost.t) :=
  let! video_list := list_videos fuel profile_name in
  let skip_shortcodes := default ∅ skip_shortcodes in
  ret (filter (λ video, VideoPost.shortcode video ∉ skip_shortcodes)
         (VideoList.videos video_list)).

(** ** [src/cli.py] *)

(** [x or y] on two values of type [str | None]. *)
Definition or_else (x y : option string) : option string :=
  if truthy x then x else y.

(** How a command ends: it returns, or it calls [sys.exit(code)]. *)
Inductive ending_of_command :=
  | Returns
  | SysExit (code : Z).

(** The two handlers of the commands: [except KeyboardInterrupt] exits with
    130 and [except Exception] with 1. *)
Definition exit_on_exception (m : M W unit) : M W ending_of_command :=
  λ s, match m s with
       | (Ret _, s') => (Ret Returns, s')
       | (Raise e, s') =>
           match e with
           | Exn KeyboardInterrupt _ => (Ret (SysExit 130), s')
           | _ => if is_Exception e then (Ret (SysExit 1), s') else (Raise e, s')
           end
       | (Hang, s') => (Hang, s')
       end.

Variable poll_fuel : nat.

(** [cmd_analyze]; [environ] is the environment that [os.getenv] reads, and
    the arguments are [args.video_list], [args.output] and
    [args.max_videos]. *)
Definition cmd_analyze (environ : gmap string string)
    (video_list output : string) (max_videos : option Z)
    : M W ending_of_command :=
  let api_key :=
    or_else (environ !! "GEMINI_API_KEY") (environ !! "GOOGLE_API_KEY") in
  if negb (truthy api_key) then ret (SysExit 1)
  else
    let instagram_username := environ !! "INSTAGRAM_USERNAME" in
    let instagram_password := environ !! "INSTAGRAM_PASSWORD" in
    if negb (truthy instagram_username) || negb (truthy instagram_password)
    then ret (SysExit 1)
    else
      let! present :=
        gets (λ s, bool_decide (is_Some (files s !! video_list))) in
      if negb present then ret (SysExit 1)
      else
        exit_on_exception
          (let! video_list := load_video_list video_list in
           run_pipeline_from_file poll_fuel video_list (default "" api_key)
             output (default "" instagram_username)
             (default "" instagram_password) max_videos).


End Crawler.

(** The invariant of the loop of [list_videos]: the shortcodes of the videos
    collected are pairwise distinct and among those seen, and each video has
    the canonical address of its post and a video address. *)
Definition collected (videos : list VideoPost.t) (seen : gset string) : Prop :=
  NoDup (VideoPost.shortcode <$> videos) ∧
  Forall (λ v, VideoPost.shortcode v ∈ seen ∧
               VideoPost.url v = post_url (VideoPost.shortcode v) ∧
               VideoPost.video_url v ≠ "") videos.

(** *** A scripted profile

    The posts of the profile in the order of the iterator, the position of
    the iterator, and what the coming calls of [next] do before they answer,
    one entry for each call: [Some e] raises [e]. *)

Record Feed := {
  feed_posts : list Post.t;
  feed_cursor : nat;
  feed_faults : list (option exn)
}.

Definition feed_video_url (shortcode : string) : string :=
  "https://cdn.example/" +:+ shortcode +:+ ".mp4".

(** The calls of [next] that are still to fail. *)
Definition faults_left (w : Feed) : nat :=
  length (filter is_Some (feed_faults w)).

(** The videos among the posts, each shortcode at its first occurrence;
    [seen] holds the shortcodes that came before. *)
Fixpoint listed (seen : gset string) (posts : list Post.t) : list VideoPost.t :=
  match posts with
  | [] => []
  | post :: rest =>
      if bool_decide (Post.shortcode post ∈ seen) then listed seen rest
      else
        (if Post.is_video post then
           [video_post (Post.shortcode post)
              (feed_video_url (Post.shortcode post)) (Post.caption post)]
         else []) ++
        listed ({[Post.shortcode post]} ∪ seen) rest
  end.

(** Everything else succeeds at once, as in the steady world. *)
#[global] Instance feed_external : External Feed := {|
  mkstemp suffix w := ("/tmp/tmpvideo" +:+ suffix, w);
  random_uniform a b w := (a, w);
  urlretrieve url path w := (Ret tt, w);
  os_write path w := (Ret tt, w);
  profile_from_username name w := (Ret name, w);
  crawler_init username password w := (Ret tt, w);
  analyzer_init api_key w := (Ret tt, w);
  files_upload path w := (Ret active_file, w);
  files_get name w := (Ret active_file, w);
  files_delete name w := (Ret tt, w);
  generate_content video_file sch w := (Ret "exercise", w);
  validate_exercise text := Some sample_exercise;
  validate_general text := Some sample_general
|}.

#[global] Instance feed_instaloader : Instaloader Feed := {|
  get_posts profile w :=
    (Ret tt, {| feed_posts := feed_posts w; feed_cursor := 0;
                feed_faults := feed_faults w |});
  next_post w :=
    match feed_faults w with
    | Some e :: rest =>
        (Raise e, {| feed_posts := feed_posts w; feed_cursor := feed_cursor w;
                     feed_faults := rest |})
    | faults =>
        (Ret (feed_posts w !! feed_cursor w),
         {| feed_posts := feed_posts w; feed_cursor := S (feed_cursor w);
            feed_faults := tail faults |})
    end;
  post_typename post w := (Ret "GraphVideo", w);
  post_video_url post w := (Ret (Some (feed_video_url (Post.shortcode post))), w);
  post_get_sidecar_nodes post w := (([], Ret tt), w);
  post_from_shortcode shortcode w :=
    (Ret {| Post.shortcode := shortcode; Post.is_video := true;
            Post.caption := None |}, w)
|}.

Definition clip (shortcode : string) : Post.t :=
  {| Post.shortcode := shortcode; Post.is_video := true; Post.caption := None |}.

Definition photo (shortcode : string) : Post.t :=
  {| Post.shortcode := shortcode; Post.is_video := false; Post.caption := None |}.

(** A profile whose iterator yields the clip V1 twice, and whose second call
    of [next] meets a lost connection. *)
Definition gym_feed : Feed :=
  {| feed_posts := [clip "V1"; photo "P1"; clip "V1"; clip "V2"];
     feed_cursor := 0;
     feed_faults := [None; Some reset] |}.

(** A page with two links to the same post and one to a reel, among
    markup with slashes of its own. *)
Definition sample_links : list (string * bool * string) :=
  [("<p>Leg day</p> <a href=", false, "ABC12345678");
   (">Post 1</a> <a href=", true, "REEL1234567");
   (">Reel</a> <a href=", false, "ABC12345678")].

Definition sample_trailer : string := ">Post 1 again</a>".

(** An environment with the three settings, and a disk with a video list. *)
Definition sample_environ : gmap string string :=
  {[ "GEMINI_API_KEY" := "key"; "INSTAGRAM_USERNAME" := "user";
     "INSTAGRAM_PASSWORD" := "secret" ]}.

Definition sample_disk : gmap string content :=
  {[ "videos_p.json" := document (JsonDoc (VideoList_model_dump abc_posts)) ]}.

(** ** Reading the log *)

(** The events of the calls below the driver's bookkeeping. *)
Definition is_noise (e : event) : bool :=
  match e with
  | EvUniform _ _ _ | EvSleep _ | EvBackoff _ | EvUrlretrieve _ _ => true
  | _ => false
  end.

(** The posts handed to [_process_video], in order. *)
Definition process_calls (l : list event) : list string :=
  omap (λ e, match e with EvProcess sc => Some sc | _ => None end) l.

(** The shortcodes with which [VideoAnalyzer.analyze] was invoked. *)
Definition analyze_calls (l : list event) : list string :=
  omap (λ e, match e with EvAnalyze _ sc => Some sc | _ => None end) l.

(** The posts whose download returned: at each return of [urlretrieve], the
    post on which [_process_video] had started; [current] is that post. *)
Fixpoint downloaded_after (current : option string) (l : list event)
    : list string :=
  match l with
  | [] => []
  | EvProcess sc :: rest => downloaded_after (Some sc) rest
  | EvRetrieved _ _ :: rest =>
      match current with
      | Some sc => sc :: downloaded_after current rest
      | None => downloaded_after current rest
      end
  | _ :: rest => downloaded_after current rest
  end.

Definition downloaded (l : list event) : list string := downloaded_after None l.

(** The records appended to results files, with the file. *)
Definition sink_appends (l : list event) : list (string * VideoResult.t) :=
  omap (λ e, match e with EvSinkAppend p r => Some (p, r) | _ => None end) l.

(** The progress states written, with the file. *)
Definition ledger_saves (l : list event) : list (string * ProgressState.t) :=
  omap (λ e, match e with EvLedgerSave p st => Some (p, st) | _ => None end) l.

(** The verdict of the driver on each post it finished: [true] when the post
    was counted as processed, [false] when it was left for a retry. *)
Definition verdicts (l : list event) : list (string * bool) :=
  omap (λ e, match e with
             | EvMarked sc => Some (sc, true)
             | EvNotMarked sc => Some (sc, false)
             | _ => None
             end) l.

(** The backoff sleeps of the retry wrapper. *)
Definition backoffs (l : list event) : list Z :=
  omap (λ e, match e with EvBackoff d => Some d | _ => None end) l.



(** The posts of the list whose shortcode the ledger does not hold. *)
Definition eligible (video_list : VideoList.t) (st : ProgressState.t)
    : list VideoPost.t :=
  filter (λ v, VideoPost.shortcode v ∉ ProgressState.processed_shortcodes st)
    (VideoList.videos video_list).

(** The number of posts of the list whose shortcode the ledger holds. *)
Definition completed (video_list : VideoList.t) (st : ProgressState.t) : nat :=
  length (filter (λ v, VideoPost.shortcode v ∈ ProgressState.processed_shortcodes st)
            (VideoList.videos video_list)).

(** What [_load_progress] makes of what a progress file holds. *)
Definition parse_ledger (c : content) : option ProgressState.t :=
  json_loads c ≫= model_validate.

(** The download as the specification words it: the body of
    [download_video] under the network/connection policy. *)
Definition download_video_claimed {W} `{External W}
    (video_url output_path : string) : M W string :=
  retry network_policy (download_video_body video_url output_path).

(** The log of a download whose attempts drew the jitters [js]: before each
    call of [urlretrieve] the draw of [random.uniform(0, 3)] and a sleep of
    [BASE_DELAY_SECONDS] plus the jitter drawn, between two attempts the
    backoff of [download_policy], and at the end the return of [urlretrieve]
    when the last attempt [returned]. *)
Fixpoint download_trace (video_url output_path : string) (attempt : nat)
    (js : list Qc) (returned : bool) : list event :=
  match js with
  | [] => []
  | j :: rest =>
      [EvUniform (seconds 0) DELAY_JITTER_SECONDS j;
       EvSleep (Qcanon.Qcplus BASE_DELAY_SECONDS j);
       EvUrlretrieve video_url output_path] ++
      match rest with
      | [] => if returned then [EvRetrieved video_url output_path] else []
      | _ =>
          EvBackoff (wait_exponential download_policy attempt) ::
          download_trace video_url output_path (S attempt) rest returned
      end
  end.

(** The ledger a run starts from, given the files on disk: the parsed
    progress file of the profile, or a fresh state. *)
Definition load_ledger (disk : gmap string content) (profile output_dir : string)
    : ProgressState.t :=
  match disk !! _get_progress_file profile output_dir ≫= parse_ledger with
  | Some st => st
  | None => fresh_state profile output_dir
  end.


(** The results file that a ledger names is not a progress file of the
    output directory. *)
Definition sink_apart (st : ProgressState.t) (output_dir : string) : Prop :=
  ∀ profile,
    ProgressState.results_file st ≠ _get_progress_file profile output_dir.

(** The log without the noise. *)
Definition visible (l : list event) : list event :=
  filter (λ e, is_noise e = false) l.

(** ** The bookkeeping of the loop, post by post *)

(** Where the handling of a post was when it was cut short. *)
Inductive stage :=
  | Downloading
  | Analysing (path : string)
  | Appending (path : string) (result : VideoResult.t)
  | Saving (path : string) (result : VideoResult.t).

(** How the driver's handling of one post ended. *)
Inductive ending :=
  | Committed (path : string) (result : VideoResult.t)
      (* analysed without error, line and progress written: marked *)
  | Rejected (path : string) (result : VideoResult.t)
      (* analysed with an error: left for a retry *)
  | Unfetched
      (* the download raised an Exception: left for a retry *)
  | Unwritten (path : string) (result : VideoResult.t)
      (* analysed without error, the write of the line raised an Exception *)
  | Unsaved (path : string) (result : VideoResult.t)
      (* line written, the write of the progress raised an Exception *)
  | Interrupted (stopped : stage).
      (* a KeyboardInterrupt or a call that never came back *)

Definition finished (en : ending) : bool :=
  match en with
  | Interrupted _ => false
  | _ => true
  end.

Definition fetched (en : ending) : bool :=
  match en with
  | Unfetched | Interrupted Downloading => false
  | _ => true
  end.

(** The record whose line the handling wrote to the results file; its
    shortcode is then in the ledger in memory. *)
Definition recorded (en : ending) : option VideoResult.t :=
  match en with
  | Committed _ result | Unsaved _ result | Interrupted (Saving _ result) =>
      Some result
  | _ => None
  end.

(** The result of the analysis, when there was one. *)
Definition analysed (en : ending) : option VideoResult.t :=
  match en with
  | Committed _ result | Rejected _ result | Unwritten _ result
  | Unsaved _ result | Interrupted (Appending _ result)
  | Interrupted (Saving _ result) => Some result
  | _ => None
  end.

(** The facts that come with an ending of the post [sc]. *)
Definition ending_ok (sc : string) (en : ending) : Prop :=
  match en with
  | Rejected _ result =>
      truthy (VideoResult.error result) = true ∧ VideoResult.shortcode result = sc
  | _ =>
      match analysed en with
      | Some result =>
          truthy (VideoResult.error result) = false ∧
          VideoResult.shortcode result = sc
      | None => True
      end
  end.

(** The visible events of the handling of the post [p] when the ledger in
    memory is [st]. *)
Definition item_events (rf out : string) (st : ProgressState.t)
    (p : VideoPost.t) (en : ending) : list event :=
  let sc := VideoPost.shortcode p in
  let got path := [EvProcess sc; EvRetrieved (VideoPost.video_url p) path;
                   EvAnalyze path sc] in
  match en with
  | Committed path result =>
      got path ++
      [EvSinkAppend rf result;
       EvLedgerSave (_get_progress_file (ProgressState.profile st) out)
         (append_shortcode st sc);
       EvMarked sc]
  | Rejected path result => got path ++ [EvNotMarked sc]
  | Unfetched => [EvProcess sc; EvNotMarked sc]
  | Unwritten path result => got path ++ [EvNotMarked sc]
  | Unsaved path result => got path ++ [EvSinkAppend rf result; EvNotMarked sc]
  | Interrupted Downloading => [EvProcess sc]
  | Interrupted (Analysing path) => got path
  | Interrupted (Appending path result) => got path
  | Interrupted (Saving path result) => got path ++ [EvSinkAppend rf result]
  end.

(** The books of the driver: the ledger in memory and the files. *)
Record Books := {
  ledger : ProgressState.t;
  disk : gmap string content
}.

(** The effect of one post on the books: a line in the results file and the
    shortcode in the ledger in memory, and for a post that is marked the
    ledger in the progress file. *)
Definition settle (rf out : string) (b : Books) (sc : string) (en : ending)
    : Books :=
  match recorded en with
  | Some result =>
      let st := append_shortcode (ledger b) sc in
      let d := <[rf := add_record result (disk b !! rf)]> (disk b) in
      {| ledger := st;
         disk :=
           match en with
           | Committed _ _ =>
               <[_get_progress_file (ProgressState.profile (ledger b)) out :=
                   document (JsonDoc (model_dump st))]> d
           | _ => d
           end |}
  | None => b
  end.

Fixpoint settle_all (rf out : string) (b : Books)
    (items : list (VideoPost.t * ending)) : Books :=
  match items with
  | [] => b
  | (p, en) :: rest =>
      settle_all rf out (settle rf out b (VideoPost.shortcode p) en) rest
  end.

Fixpoint loop_events (rf out : string) (st : ProgressState.t)
    (items : list (VideoPost.t * ending)) : list event :=
  match items with
  | [] => []
  | (p, en) :: rest =>
      item_events rf out st p en ++
      loop_events rf out
        (match recorded en with
         | Some _ => append_shortcode st (VideoPost.shortcode p)
         | None => st
         end) rest
  end.

(** The verdict of the loop on a post. *)
Definition verdict_of (item : VideoPost.t * ending) : option (string * bool) :=
  match item.2 with
  | Committed _ _ => Some (VideoPost.shortcode item.1, true)
  | Interrupted _ => None
  | _ => Some (VideoPost.shortcode item.1, false)
  end.

(** The record the loop wrote for a post. *)
Definition record_of (item : VideoPost.t * ending) : option VideoResult.t :=
  recorded item.2.

(** The shortcodes the loop marked as processed, in order. *)
Definition committed (items : list (VideoPost.t * ending)) : list string :=
  omap (λ '(p, en), match en with
                    | Committed _ _ => Some (VideoPost.shortcode p)
                    | _ => None
                    end) items.

(** The shortcodes the loop put into the ledger in memory, in order: those
    of the posts whose line was written. *)
Definition entered (items : list (VideoPost.t * ending)) : list string :=
  omap (λ '(p, en), match recorded en with
                    | Some _ => Some (VideoPost.shortcode p)
                    | None => None
                    end) items.

(** The posts whose download returned. *)
Definition fetched_posts (items : list (VideoPost.t * ending)) : list string :=
  omap (λ '(p, en), if fetched en then Some (VideoPost.shortcode p) else None)
    items.


(** An exception that [except Exception] lets through. *)
Definition uncatchable (e : exn) : Prop := is_Exception e = false.

(** An exception whose message is not empty, or that [except Exception] lets
    through. *)
Definition loud (e : exn) : Prop := str e ≠ "" ∨ is_Exception e = false.

Section Frames.

Context {W : Type}.

(** [s'] is [s] after some calls below the bookkeeping: the files and the
    locals are the same and the log has grown by noise only. *)
Definition quiet (s s' : St W) : Prop :=
  files s' = files s ∧
  locals s' = locals s ∧
  ∃ new, log s' = log s ++ new ∧ Forall (λ e, is_noise e = true) new.

(** Every run of [m] relates its initial and final states by [R]. *)
Definition preserves (R : relation (St W)) {A} (m : M W A) : Prop :=
  ∀ s r s', m s = (r, s') → R s s'.

(** From [s] to [s'] the log has grown, and what is visible of the growth is
    [l]. *)
Definition logged (l : list event) (s s' : St W) : Prop :=
  ∃ new, log s' = log s ++ new ∧ visible new = l.

(** Every exception that escapes [m] satisfies [P]. *)
Definition raises (P : exn → Prop) {A} (m : M W A) : Prop :=
  ∀ s e s', m s = (Raise e, s') → P e.

Definition books_of (s : St W) : Books :=
  {| ledger := state (locals s); disk := files s |}.

End Frames.

(** The state in which [_process_video] calls [download_video]: the
    temporary file is made and the call is logged. *)
Definition at_download {W} `{External W} (p : VideoPost.t) (s : St W) : St W :=
  add_log (EvProcess (VideoPost.shortcode p))
    (set_tmp_files (λ fs, {[(mkstemp ".mp4" (world s)).1]} ∪ fs)
       (set_world (mkstemp ".mp4" (world s)).2 s)).

(** ** The counters of the driver, read off the log *)

(** The posts that a log counts as processed, and those that it leaves for a
    retry. *)
Definition marked (l : list event) : list string :=
  (filter (λ v, v.2 = true) (verdicts l)).*1.

Definition not_marked (l : list event) : list string :=
  (filter (λ v, v.2 = false) (verdicts l)).*1.

(** The summaries that a log holds. *)
Definition summaries (l : list event) : list (nat * nat) :=
  omap (λ e, match e with EvSummary p e => Some (p, e) | _ => None end) l.

(** From [s] to [s'] the log has grown without a summary, and the two
    counters of the driver by the numbers of posts that the growth counts as
    processed and leaves for a retry. *)
Definition tallied {W} (s s' : St W) : Prop :=
  ∃ new, log s' = log s ++ new ∧ summaries new = [] ∧
    processed_count (locals s') = processed_count (locals s) + length (marked new) ∧
    error_count (locals s') = error_count (locals s) + length (not_marked new).

(** From [s] to [s'] no temporary file has appeared. *)
Definition tmp_kept {W} (s s' : St W) : Prop := tmp_files s' ⊆ tmp_files s.

(** An event that is neither a verdict nor a summary. *)
Definition plain (e : event) : bool :=
  match e with
  | EvMarked _ | EvNotMarked _ | EvSummary _ _ => false
  | _ => true
  end.

(** From [s] to [s'] no temporary file has gone, and none has appeared but
    [path]. *)
Definition tmp_within {W} (path : string) (s s' : St W) : Prop :=
  tmp_files s ⊆ tmp_files s' ∧ tmp_files s' ⊆ {[path]} ∪ tmp_files s.

(** * Properties *)

(** ** Reasoning about the monad *)

Section MonadFacts.

Context {W : Type}.

Lemma bind_inv {A B} (m : M W A) (k : A → M W B) s r s' :
  bind m k s = (r, s') →
  (∃ a s1, m s = (Ret a, s1) ∧ k a s1 = (r, s')) ∨
  (∃ e, m s = (Raise e, s') ∧ r = Raise e) ∨
  (m s = (Hang, s') ∧ r = Hang).
Proof.
  unfold bind. destruct (m s) as [[a|e|] s1] eqn:E; intros Hk.
  - left. eauto.
  - right. left. exists e. by simplify_eq.
  - right. right. by simplify_eq.
Qed.

Lemma bind_ret_inv {A B} (m : M W A) (k : A → M W B) s b s' :
  bind m k s = (Ret b, s') →
  ∃ a s1, m s = (Ret a, s1) ∧ k a s1 = (Ret b, s').
Proof.
  intros Hb. apply bind_inv in Hb as [(a & s1 & ? & ?)|[(e & ? & ?)|[? ?]]];
    [eauto|done|done].
Qed.

Section Preserves.

Context (R : relation (St W)) `{!PreOrder R}.

Lemma preserves_ret {A} (a : A) : preserves R (ret a).
Proof. intros s r s' [= <- <-]. reflexivity. Qed.

Lemma preserves_raise {A} e : preserves R (@raise W A e).
Proof. intros s r s' [= <- <-]. reflexivity. Qed.

Lemma preserves_hang {A} : preserves R (@hang W A).
Proof. intros s r s' [= <- <-]. reflexivity. Qed.

Lemma preserves_gets {A} (f : St W → A) : preserves R (gets f).
Proof. intros s r s' [= <- <-]. reflexivity. Qed.

Lemma preserves_bind {A B} (m : M W A) (k : A → M W B) :
  preserves R m → (∀ a, preserves R (k a)) → preserves R (bind m k).
Proof.
  intros Hm Hk s r s' Hb.
  apply bind_inv in Hb as [(a & s1 & Hm1 & Hk1)|[(e & Hm1 & _)|[Hm1 _]]].
  - transitivity s1; [by eapply Hm | by eapply Hk].
  - by eapply Hm.
  - by eapply Hm.
Qed.

Lemma preserves_catch {A} (m : M W A) (h : exn → M W A) :
  preserves R m → (∀ e, preserves R (h e)) → preserves R (catch_Exception m h).
Proof.
  intros Hm Hh s r s'. unfold catch_Exception.
  destruct (m s) as [[a|e|] s1] eqn:E.
  - intros [= <- <-]. by eapply Hm.
  - destruct (is_Exception e).
    + intros Hh1. transitivity s1; [by eapply Hm | by eapply Hh].
    + intros [= <- <-]. by eapply Hm.
  - intros [= <- <-]. by eapply Hm.
Qed.

Lemma preserves_finally {A} (m : M W A) (f : M W unit) :
  preserves R m → preserves R f → preserves R (try_finally m f).
Proof.
  intros Hm Hf s r s'. unfold try_finally.
  destruct (m s) as [[a|e|] s1] eqn:E.
  - destruct (f s1) as [[[]|e'|] s2] eqn:E'; intros [= <- <-];
      (transitivity s1; [by eapply Hm | by eapply Hf]).
  - destruct (f s1) as [[[]|e'|] s2] eqn:E'; intros [= <- <-];
      (transitivity s1; [by eapply Hm | by eapply Hf]).
  - intros [= <- <-]. by eapply Hm.
Qed.

Lemma preserves_retry_from {A} pol (op : M W A) retries attempt :
  preserves R op →
  (∀ s d, R s (add_log (EvBackoff d) s)) →
  preserves R (retry_from pol op retries attempt).
Proof.
  intros Hop Hlog. revert attempt.
  induction retries as [|n IH]; intros attempt s r s'; simpl;
    destruct (op s) as [[a|e|] s1] eqn:E.
  - intros [= <- <-]. by eapply Hop.
  - destruct (retry_if pol e); intros [= <- <-]; by eapply Hop.
  - intros [= <- <-]. by eapply Hop.
  - intros [= <- <-]. by eapply Hop.
  - destruct (retry_if pol e).
    + intros Hr. transitivity s1; [by eapply Hop|].
      transitivity (add_log (EvBackoff (wait_exponential pol attempt)) s1);
        [apply Hlog | by eapply IH].
    + intros [= <- <-]. by eapply Hop.
  - intros [= <- <-]. by eapply Hop.
Qed.

Lemma preserves_retry {A} pol (op : M W A) :
  preserves R op →
  (∀ s d, R s (add_log (EvBackoff d) s)) →
  preserves R (retry pol op).
Proof. intros. by apply preserves_retry_from. Qed.

Lemma preserves_ask {A} (f : W → A * W) :
  (∀ s w, R s (set_world w s)) → preserves R (ask f).
Proof.
  intros Hw s r s'. unfold ask. destruct (f (world s)) as [a w].
  intros [= <- <-]. apply Hw.
Qed.

Lemma preserves_ext {A} (f : W → res A * W) :
  (∀ s w, R s (set_world w s)) → preserves R (ext f).
Proof.
  intros Hw s r s'. unfold ext. destruct (f (world s)) as [a w].
  intros [= <- <-]. apply Hw.
Qed.

Lemma preserves_emit e :
  (∀ s, R s (add_log e s)) → preserves R (emit e).
Proof. intros He s r s' [= <- <-]. apply He. Qed.

Lemma preserves_modify (f : St W → St W) :
  (∀ s, R s (f s)) → preserves R (modify f).
Proof. intros He s r s' [= <- <-]. apply He. Qed.

End Preserves.

(** [quiet] is a preorder that the calls below the bookkeeping respect. *)

#[global] Instance quiet_preorder : PreOrder (@quiet W).
Proof.
  split.
  - intros s. repeat split. exists []. by rewrite app_nil_r.
  - intros s1 s2 s3 (Hp1 & Hl1 & n1 & Hn1 & Hf1) (Hp2 & Hl2 & n2 & Hn2 & Hf2).
    repeat split; [congruence..|].
    exists (n1 ++ n2). split.
    + by rewrite Hn2, Hn1, app_assoc.
    + by apply Forall_app.
Qed.

Lemma quiet_world (s : St W) w : quiet s (set_world w s).
Proof. repeat split. exists []. by rewrite app_nil_r. Qed.

Lemma quiet_tmp (s : St W) f : quiet s (set_tmp_files f s).
Proof. repeat split. exists []. by rewrite app_nil_r. Qed.

Lemma quiet_noise (s : St W) e : is_noise e = true → quiet s (add_log e s).
Proof. intros He. repeat split. exists [e]. split; [done|]. by constructor. Qed.

End MonadFacts.

(** ** The calls below the bookkeeping are quiet *)

Ltac quiet_step :=
  lazymatch goal with
  | |- preserves _ (ret _) => apply preserves_ret; apply _
  | |- preserves _ (raise _) => apply preserves_raise; apply _
  | |- preserves _ hang => apply preserves_hang; apply _
  | |- preserves _ (gets _) => apply preserves_gets; apply _
  | |- preserves _ (bind _ _) => apply preserves_bind; [apply _| |intros ?]
  | |- preserves _ (catch_Exception _ _) =>
      apply preserves_catch; [apply _| |intros ?]
  | |- preserves _ (try_finally _ _) => apply preserves_finally; [apply _|..]
  | |- preserves _ (retry _ _) =>
      apply preserves_retry; [apply _| |intros; by apply quiet_noise]
  | |- preserves _ (ask _) => apply preserves_ask; intros; apply quiet_world
  | |- preserves _ (ext _) => apply preserves_ext; intros; apply quiet_world
  | |- preserves _ (emit _) => apply preserves_emit; intros; by apply quiet_noise
  | |- preserves _ (modify _) => apply preserves_modify; intros; apply quiet_tmp
  end.

Ltac quiet_solve := repeat quiet_step.

Section ProgramFacts.

Context {W : Type} `{External W}.
Variable poll_fuel : nat.


Lemma wait_while_processing_quiet fuel video_file :
  preserves quiet (wait_while_processing fuel video_file).
Proof.
  revert video_file. induction fuel as [|n IH]; intros video_file; simpl;
    destruct (String.eqb _ _); unfold time_sleep; quiet_solve.
  apply IH.
Qed.

Lemma _upload_video_quiet video_path :
  preserves quiet (_upload_video poll_fuel video_path).
Proof.
  unfold _upload_video, _upload_video_body. quiet_solve.
  - apply wait_while_processing_quiet.
  - destruct (negb _); quiet_solve.
Qed.

Lemma _analyze_with_schema_quiet video_file sch :
  preserves quiet (_analyze_with_schema video_file sch).
Proof. unfold _analyze_with_schema, time_sleep. quiet_solve. Qed.

Lemma _delete_video_quiet video_file : preserves quiet (_delete_video video_file).
Proof. unfold _delete_video. quiet_solve. Qed.

Lemma analyze_uploaded_quiet video_file shortcode :
  preserves quiet (analyze_uploaded video_file shortcode).
Proof.
  unfold analyze_uploaded, model_validate_exercise, model_validate_general.
  quiet_solve; try apply _analyze_with_schema_quiet.
  - destruct (validate_exercise _); quiet_solve.
  - destruct (validate_general _); quiet_solve.
Qed.

(** After its entry event, [analyze] is quiet. *)
Lemma analyze_quiet video_path shortcode s r s' :
  analyze poll_fuel video_path shortcode s = (r, s') →
  quiet (add_log (EvAnalyze video_path shortcode) s) s'.
Proof.
  unfold analyze, bind, emit. set (s0 := add_log _ s).
  destruct (_upload_video poll_fuel video_path s0) as [[vf|e|] s1] eqn:Hup;
    apply _upload_video_quiet in Hup.
  - intros Hrest. transitivity s1; [done|]. revert Hrest.
    apply preserves_finally; [apply _|..].
    + quiet_solve. apply analyze_uploaded_quiet.
    + apply _delete_video_quiet.
  - destruct (is_Exception e); by intros [= <- <-].
  - by intros [= <- <-].
Qed.

(** *** What can escape *)

Lemma raises_ret {A} P (a : A) : raises P (@ret W A a).
Proof. by intros s e s'. Qed.

Lemma raises_bind {A B} P (m : M W A) (k : A → M W B) :
  raises P m → (∀ a, raises P (k a)) → raises P (bind m k).
Proof.
  intros Hm Hk s e s' Hb.
  apply bind_inv in Hb as [(a & s1 & _ & Hk1)|[(e' & Hm1 & ?)|[_ ?]]].
  - by eapply Hk.
  - simplify_eq. by eapply Hm.
  - done.
Qed.

Lemma raises_catch {A} (m : M W A) (h : exn → M W A) :
  (∀ e, raises uncatchable (h e)) → raises uncatchable (catch_Exception m h).
Proof.
  intros Hh s e s'. unfold catch_Exception.
  destruct (m s) as [[a|e0|] s1]; [done| |done].
  destruct (is_Exception e0) eqn:He0.
  - apply Hh.
  - by intros [= <- <-].
Qed.

Lemma raises_catch_loud {A} (m : M W A) (h : exn → M W A) :
  (∀ e, raises loud (h e)) → raises loud (catch_Exception m h).
Proof.
  intros Hh s e s'. unfold catch_Exception.
  destruct (m s) as [[a|e0|] s1]; [done| |done].
  destruct (is_Exception e0) eqn:He0.
  - apply Hh.
  - intros [= <- <-]. by right.
Qed.

Lemma raises_finally {A} P (m : M W A) (f : M W unit) :
  raises P m → raises P f → raises P (try_finally m f).
Proof.
  intros Hm Hf s e s'. unfold try_finally.
  destruct (m s) as [[a|e0|] s1] eqn:E; [| |done];
    destruct (f s1) as [[[]|e1|] s2] eqn:E'; intros ?; simplify_eq;
    first [by eapply Hf | by eapply Hm].
Qed.

Lemma retry_from_raises {A} pol (op : M W A) retries attempt s e s' :
  retry_from pol op retries attempt s = (Raise e, s') →
  (∃ last, e = RetryError last) ∨ retry_if pol e = false.
Proof.
  revert attempt s. induction retries as [|n IH]; intros attempt s; simpl;
    destruct (op s) as [[a|e0|] s1]; try done;
    destruct (retry_if pol e0) eqn:Hre.
  - intros [= <- <-]. eauto.
  - intros [= <- <-]. eauto.
  - apply IH.
  - intros [= <- <-]. eauto.
Qed.

Lemma raises_retry_loud {A} pol (op : M W A) :
  retry_if pol = is_Exception → raises loud (retry pol op).
Proof.
  intros Hpol s e s' Hr. apply retry_from_raises in Hr as [[last ->]|Hr].
  - by left.
  - right. by rewrite Hpol in Hr.
Qed.

Lemma _delete_video_raises video_file :
  raises uncatchable (_delete_video video_file).
Proof. apply raises_catch. intros e. apply raises_ret. Qed.

Lemma analyze_uploaded_raises video_file shortcode :
  raises loud (analyze_uploaded video_file shortcode).
Proof.
  apply raises_catch_loud. intros _.
  apply raises_bind; [by apply raises_retry_loud|]. intros text.
  apply raises_bind; [|intros g; apply raises_ret].
  unfold model_validate_general. destruct (validate_general text).
  - apply raises_ret.
  - intros s e s' [= <- <-]. by left.
Qed.

Lemma analyze_uploaded_returns video_file shortcode s r s' :
  analyze_uploaded video_file shortcode s = (Ret r, s') →
  (∃ a, r = exercise_result shortcode a) ∨ (∃ g, r = general_result shortcode g).
Proof.
  unfold analyze_uploaded, catch_Exception.
  match goal with |- context [bind ?m ?k s] => destruct (bind m k s) as [[r1|e1|] s1] eqn:E end.
  - intros [= <- <-]. left.
    apply bind_ret_inv in E as (text & s2 & _ & E).
    apply bind_ret_inv in E as (a & s3 & _ & E).
    exists a. by inversion E.
  - destruct (is_Exception e1); [|done]. intros E2. right.
    apply bind_ret_inv in E2 as (text & s2 & _ & E2).
    apply bind_ret_inv in E2 as (g & s3 & _ & E2).
    exists g. by inversion E2.
  - done.
Qed.

(** [analyze] lets no [Exception] escape. *)
Lemma analyze_raises video_path shortcode :
  raises uncatchable (analyze poll_fuel video_path shortcode).
Proof.
  intros s e s'. unfold analyze, bind, emit. set (s0 := add_log _ s).
  destruct (_upload_video poll_fuel video_path s0) as [[vf|e0|] s1] eqn:Hup.
  - apply raises_finally; [|apply _delete_video_raises].
    apply raises_catch. intros ?. apply raises_ret.
  - destruct (is_Exception e0) eqn:He0; [done|]. by intros [= <- <-].
  - done.
Qed.

(** What [analyze] returns: an analysis, or the record of an [Exception]
    whose message is not empty. *)
Lemma analyze_returns video_path shortcode s r s' :
  analyze poll_fuel video_path shortcode s = (Ret r, s') →
  (∃ a, r = exercise_result shortcode a) ∨
  (∃ g, r = general_result shortcode g) ∨
  (∃ e, is_Exception e = true ∧ str e ≠ "" ∧ r = error_result shortcode e).
Proof.
  unfold analyze, bind, emit. set (s0 := add_log _ s).
  destruct (_upload_video poll_fuel video_path s0) as [[vf|e0|] s1] eqn:Hup.
  - unfold try_finally, catch_Exception.
    destruct (analyze_uploaded vf shortcode s1) as [[r1|e1|] s2] eqn:Hin.
    + destruct (_delete_video vf s2) as [[[]|?|] ?]; intros [= <- <-].
      apply analyze_uploaded_returns in Hin as [?|?]; eauto.
    + destruct (is_Exception e1) eqn:He1; simpl.
      * destruct (_delete_video vf s2) as [[[]|?|] ?]; intros [= <- <-].
        right. right. exists e1. split_and!; [done| |done].
        apply analyze_uploaded_raises in Hin as [?|?]; [done|congruence].
      * by destruct (_delete_video vf s2) as [[[]|?|] ?].
    + done.
  - destruct (is_Exception e0) eqn:He0; [|done]. intros [= <- <-].
    right. right. exists e0. split_and!; [done| |done].
    apply raises_retry_loud in Hup as [?|?]; [done|congruence|done].
  - done.
Qed.

Lemma analyze_shortcode video_path shortcode s r s' :
  analyze poll_fuel video_path shortcode s = (Ret r, s') →
  VideoResult.shortcode r = shortcode.
Proof.
  intros Ha. apply analyze_returns in Ha as [[a ->]|[[g ->]|(e & _ & _ & ->)]]; done.
Qed.

(** *** The log *)

Lemma visible_app l1 l2 : visible (l1 ++ l2) = visible l1 ++ visible l2.
Proof. unfold visible. apply list.filter_app. Qed.

Lemma visible_noise l : Forall (λ e, is_noise e = true) l → visible l = [].
Proof.
  induction 1 as [|e l He _ IH]; [done|].
  unfold visible in *. rewrite filter_cons_False; [done|congruence].
Qed.

Lemma logged_refl (s : St W) : logged [] s s.
Proof. exists []. by rewrite app_nil_r. Qed.

Lemma logged_trans l1 l2 (s1 s2 s3 : St W) :
  logged l1 s1 s2 → logged l2 s2 s3 → logged (l1 ++ l2) s1 s3.
Proof.
  intros (n1 & Hn1 & Hv1) (n2 & Hn2 & Hv2). exists (n1 ++ n2). split.
  - by rewrite Hn2, Hn1, app_assoc.
  - by rewrite visible_app, Hv1, Hv2.
Qed.

Lemma logged_emit (s : St W) e : is_noise e = false → logged [e] s (add_log e s).
Proof.
  intros He. exists [e]. split; [done|].
  unfold visible. by rewrite filter_cons_True.
Qed.

Lemma logged_same_log l (s s1 s2 : St W) :
  log s2 = log s1 → logged l s s1 → logged l s s2.
Proof. intros Hl (n & Hn & Hv). exists n. by rewrite Hl. Qed.

Lemma quiet_logged (s s' : St W) : quiet s s' → logged [] s s'.
Proof.
  intros (_ & _ & n & Hn & Hf). exists n. split; [done|].
  by apply visible_noise.
Qed.

Lemma quiet_books (s s' : St W) : quiet s s' → books_of s' = books_of s.
Proof. intros (Hp & Hl & _). unfold books_of. by rewrite Hp, Hl. Qed.

(** *** [download_video] *)

(** A download leaves the files and the locals as they are; of what it logs
    only the return of [urlretrieve] is visible. *)
Lemma download_video_body_logged video_url output_path (s : St W) r s' :
  download_video_body video_url output_path s = (r, s') →
  books_of s' = books_of s ∧
  logged (match r with
          | Ret _ => [EvRetrieved video_url output_path]
          | _ => []
          end) s s'.
Proof.
  unfold download_video_body, _sleep_with_jitter, uniform, time_sleep, bind,
    ask, emit, ext, modify, ret.
  destruct (random_uniform (seconds 0) DELAY_JITTER_SECONDS (world s)) as [j w1].
  simpl.
  destruct (urlretrieve video_url output_path w1) as [[[]|e|] w2];
    intros [= <- <-]; (split; [done|]); eexists; simpl;
    rewrite <- ?app_assoc; (split; [reflexivity|done]).
Qed.

Lemma download_retry_logged video_url output_path retries attempt
    (s : St W) r s' :
  retry_from download_policy (download_video_body video_url output_path)
    retries attempt s = (r, s') →
  books_of s' = books_of s ∧
  logged (match r with
          | Ret _ => [EvRetrieved video_url output_path]
          | _ => []
          end) s s'.
Proof.
  revert s attempt. induction retries as [|n IH]; intros s attempt; simpl;
    destruct (download_video_body video_url output_path s) as [[v|e|] s1] eqn:Hb;
    apply download_video_body_logged in Hb as [Hb Hlog].
  - by intros [= <- <-].
  - destruct (is_Exception e); by intros [= <- <-].
  - by intros [= <- <-].
  - by intros [= <- <-].
  - destruct (is_Exception e); [|by intros [= <- <-]].
    intros Hrest. apply IH in Hrest as [Hb' Hlog'].
    split; [by rewrite Hb'|].
    change (match r with Ret _ => _ | _ => _ end)
      with (([] ++ []) ++ match r with
                          | Ret _ => [EvRetrieved video_url output_path]
                          | _ => []
                          end).
    eapply logged_trans; [|exact Hlog'].
    eapply logged_trans; [exact Hlog|].
    by exists [EvBackoff (wait_exponential download_policy attempt)].
  - by intros [= <- <-].
Qed.

Lemma download_video_logged video_url output_path (s : St W) r s' :
  download_video video_url output_path s = (r, s') →
  books_of s' = books_of s ∧
  logged (match r with
          | Ret _ => [EvRetrieved video_url output_path]
          | _ => []
          end) s s'.
Proof. apply download_retry_logged. Qed.

(** *** Writing to the disk *)

Lemma append_line_spec path result (s : St W) r s' :
  append_line path result s = (r, s') →
  locals s' = locals s ∧ log s' = log s ∧ tmp_files s' = tmp_files s ∧
  ((r = Ret tt ∧
    files s' = <[path := add_record result (files s !! path)]> (files s)) ∨
   ((∀ u, r ≠ Ret u) ∧ files s' = files s)).
Proof.
  unfold append_line, bind, ext, modify.
  destruct (os_write path (world s)) as [[[]|e|] w]; intros [= <- <-];
    (split_and!; [done..|]); [left|right|right]; done.
Qed.

Lemma write_text_spec path doc (s : St W) r s' :
  write_text path doc s = (r, s') →
  locals s' = locals s ∧ log s' = log s ∧ tmp_files s' = tmp_files s ∧
  ((r = Ret tt ∧ files s' = <[path := document (JsonDoc doc)]> (files s)) ∨
   ((∀ u, r ≠ Ret u) ∧ files s' = files s)).
Proof.
  unfold write_text, bind, ext, modify.
  destruct (os_write path (world s)) as [[[]|e|] w]; intros [= <- <-];
    (split_and!; [done..|]); [left|right|right]; done.
Qed.

Lemma _append_result_spec result rf (s : St W) r s' :
  _append_result result rf s = (r, s') →
  locals s' = locals s ∧ tmp_files s' = tmp_files s ∧
  ((r = Ret tt ∧
    files s' = <[rf := add_record result (files s !! rf)]> (files s) ∧
    log s' = log s ++ [EvSinkAppend rf result]) ∨
   ((∀ u, r ≠ Ret u) ∧ files s' = files s ∧ log s' = log s)).
Proof.
  unfold _append_result. intros Ha.
  apply bind_inv in Ha as [([] & s1 & Hw & Ha)|[(e & Hw & ->)|[Hw ->]]];
    apply append_line_spec in Hw as (Hl & Hlog & Htmp & Hw).
  - injection Ha as <- <-. simpl. split_and!; [done..|]. left.
    destruct Hw as [[_ ->]|[Hno _]]; [|by destruct (Hno tt)].
    by rewrite Hlog.
  - split_and!; [done..|]. right.
    destruct Hw as [[[=] _]|[_ ->]]. done.
  - split_and!; [done..|]. right.
    destruct Hw as [[[=] _]|[_ ->]]. done.
Qed.

Lemma _save_progress_spec st out (s : St W) r s' :
  let pf := _get_progress_file (ProgressState.profile st) out in
  _save_progress st out s = (r, s') →
  locals s' = locals s ∧ tmp_files s' = tmp_files s ∧
  ((r = Ret tt ∧
    files s' = <[pf := document (JsonDoc (model_dump st))]> (files s) ∧
    log s' = log s ++ [EvLedgerSave pf st]) ∨
   ((∀ u, r ≠ Ret u) ∧ files s' = files s ∧ log s' = log s)).
Proof.
  intros pf. unfold _save_progress. fold pf. intros Ha.
  apply bind_inv in Ha as [([] & s1 & Hw & Ha)|[(e & Hw & ->)|[Hw ->]]];
    apply write_text_spec in Hw as (Hl & Hlog & Htmp & Hw).
  - injection Ha as <- <-. simpl. split_and!; [done..|]. left.
    destruct Hw as [[_ ->]|[Hno _]]; [|by destruct (Hno tt)].
    by rewrite Hlog.
  - split_and!; [done..|]. right.
    destruct Hw as [[[=] _]|[_ ->]]. done.
  - split_and!; [done..|]. right.
    destruct Hw as [[[=] _]|[_ ->]]. done.
Qed.

(** *** [_process_video] *)

Lemma named_temporary_file_eq suffix (s : St W) :
  named_temporary_file suffix s =
    (Ret (mkstemp suffix (world s)).1,
     set_tmp_files (λ fs, {[(mkstemp suffix (world s)).1]} ∪ fs)
       (set_world (mkstemp suffix (world s)).2 s)).
Proof.
  unfold named_temporary_file, bind, ask, modify, ret.
  by destruct (mkstemp suffix (world s)).
Qed.

(** The [finally] clause of [_process_video]: whatever the body did, the
    file is gone when the call returns or raises. *)
Lemma cleanup_spec {A} (body : M W A) path s r s' :
  try_finally body
    (let! still_there := path_exists path in
     if (still_there : bool) then unlink path else ret tt) s = (r, s') →
  ∃ s2, body s = (r, s2) ∧ quiet s2 s' ∧ (r ≠ Hang → path ∉ tmp_files s').
Proof.
  assert (Hfin : ∀ s2 : St W, ∃ s3,
    (let! still_there := path_exists path in
     if (still_there : bool) then unlink path else ret tt) s2 = (Ret tt, s3) ∧
    quiet s2 s3 ∧ path ∉ tmp_files s3).
  { intros s2. unfold bind, path_exists, gets, unlink, modify, ret.
    destruct (bool_decide (path ∈ tmp_files s2)) eqn:Hin; eexists;
      (split; [done|]); split.
    - apply quiet_tmp.
    - simpl. rewrite elem_of_difference, elem_of_singleton. by intros [_ ?].
    - reflexivity.
    - by apply bool_decide_eq_false in Hin. }
  unfold try_finally. destruct (body s) as [[a|e|] s2] eqn:E.
  - destruct (Hfin s2) as (s3 & -> & Hq & Hgone). intros [= <- <-]. eauto.
  - destruct (Hfin s2) as (s3 & -> & Hq & Hgone). intros [= <- <-]. eauto.
  - intros [= <- <-]. exists s2. split_and!; [done|reflexivity|done].
Qed.

Lemma _process_video_spec p s r s' :
  _process_video poll_fuel p s = (r, s') →
  let path := (mkstemp ".mp4" (world s)).1 in
  let sc := VideoPost.shortcode p in
  let url := VideoPost.video_url p in
  books_of s' = books_of s ∧
  (r ≠ Hang → path ∉ tmp_files s') ∧
  ((logged [EvProcess sc] s s' ∧ (∀ v, r ≠ Ret v) ∧
    ∃ s1, download_video url path (at_download p s) = (Hang, s1) ∧ r = Hang ∨
          ∃ e, download_video url path (at_download p s) = (Raise e, s1) ∧
               r = Raise e) ∨
   (logged [EvProcess sc; EvRetrieved url path; EvAnalyze path sc] s s' ∧
    (∃ v s1, download_video url path (at_download p s) = (Ret v, s1)) ∧
    (∀ e, r = Raise e → uncatchable e) ∧
    (∀ v, r = Ret v →
       (∃ a, v = exercise_result sc a) ∨ (∃ g, v = general_result sc g) ∨
       (∃ e, is_Exception e = true ∧ str e ≠ "" ∧ v = error_result sc e)))).
Proof.
  intros Hp path sc url. unfold _process_video, bind in Hp.
  rewrite named_temporary_file_eq in Hp. fold path in Hp.
  set (s0 := set_tmp_files _ _) in Hp.
  apply cleanup_spec in Hp as (s2 & Hbody & Hq & Hgone).
  assert (Hs0 : books_of s0 = books_of s ∧ log s0 = log s) by done.
  destruct Hs0 as [Hb0 Hl0]. unfold emit in Hbody. fold sc url in Hbody.
  change (add_log (EvProcess sc) s0) with (at_download p s) in Hbody.
  set (s0' := at_download p s) in *.
  assert (Hstart : logged [EvProcess sc] s s0') by (by exists [EvProcess sc]).
  destruct (download_video url path s0') as [[v|e|] s1] eqn:Hd;
    pose proof (download_video_logged _ _ _ _ _ Hd) as [Hb1 Hlog1].
  - destruct (analyze poll_fuel path sc s1) as [ra s3] eqn:Ha.
    pose proof (analyze_quiet _ _ _ _ _ Ha) as Hq2.
    assert (r = ra ∧ s2 = s3) as [-> ->]
      by (by destruct ra; unfold ret in Hbody; simplify_eq).
    split_and!; [|done|right; split_and!].
    + rewrite (quiet_books _ _ Hq), (quiet_books _ _ Hq2).
      change (books_of s1 = books_of s). by rewrite Hb1.
    + change [EvProcess sc; EvRetrieved url path; EvAnalyze path sc]
        with ((([EvProcess sc] ++ [EvRetrieved url path]) ++
               [EvAnalyze path sc]) ++ [] ++ []).
      eapply logged_trans; [|eapply logged_trans; by apply quiet_logged].
      eapply logged_trans; [eapply logged_trans; [done|done]|].
      by apply logged_emit.
    + eauto.
    + intros e ->. by eapply analyze_raises.
    + intros v' ->. by eapply analyze_returns.
  - injection Hbody as <- <-. split_and!; [|done|left; split_and!].
    + rewrite (quiet_books _ _ Hq). by rewrite Hb1.
    + change [EvProcess sc] with (([EvProcess sc] ++ []) ++ []).
      eapply logged_trans; [eapply logged_trans; [done|done]|].
      by apply quiet_logged.
    + done.
    + exists s1. right. by exists e.
  - injection Hbody as <- <-. split_and!; [|done|left; split_and!].
    + rewrite (quiet_books _ _ Hq). by rewrite Hb1.
    + change [EvProcess sc] with (([EvProcess sc] ++ []) ++ []).
      eapply logged_trans; [eapply logged_trans; [done|done]|].
      by apply quiet_logged.
    + done.
    + exists s1. by left.
Qed.

(** *** The body of the loop *)

Lemma books_ledger (s s1 : St W) :
  books_of s1 = books_of s → state (locals s1) = state (locals s).
Proof. by intros [= ? _]. Qed.

Lemma process_post_spec rf out p s r s' :
  process_post poll_fuel rf out p s = (r, s') →
  ∃ en,
    logged (item_events rf out (state (locals s)) p en) s s' ∧
    books_of s' = settle rf out (books_of s) (VideoPost.shortcode p) en ∧
    ending_ok (VideoPost.shortcode p) en ∧
    (if finished en then r = Ret tt
     else r = Hang ∨ ∃ e, r = Raise e ∧ uncatchable e).
Proof.
  unfold process_post, catch_Exception. unfold bind at 1.
  destruct (_process_video poll_fuel p s) as [[result|e|] s1] eqn:Hp;
    apply _process_video_spec in Hp as (Hb & _ & Hcase);
    set (path := (mkstemp ".mp4" (world s)).1) in *;
    set (sc := VideoPost.shortcode p) in *;
    set (url := VideoPost.video_url p) in *.
  - destruct Hcase as [(_ & Hno & _)|(Hlog & _ & _ & Hret)];
      [by destruct (Hno result)|].
    assert (Hsc : VideoResult.shortcode result = sc).
    { by destruct (Hret _ eq_refl) as [[a ->]|[[g ->]|(e & _ & _ & ->)]]. }
    pose proof (books_ledger _ _ Hb) as Hst.
    destruct (truthy (VideoResult.error result)) eqn:Ht.
    + intros [= <- <-]. exists (Rejected path result). split_and!; try done.
      change (item_events _ _ _ _ _)
        with ([EvProcess sc; EvRetrieved url path; EvAnalyze path sc] ++
              [EvNotMarked sc]).
      eapply logged_trans; [done|]. by exists [EvNotMarked sc].
    + unfold bind at 1.
      destruct (_append_result result rf s1) as [ra sa] eqn:Ha.
      apply _append_result_spec in Ha
        as (Hla & _ & [(-> & Hfa & Hloga)|(Hnoa & Hfa & Hloga)]).
      * unfold bind at 1, modify at 1. unfold bind at 1, gets at 1.
        unfold bind at 1.
        match goal with
        | |- context [_save_progress ?st out ?s2] =>
            destruct (_save_progress st out s2) as [rs ss] eqn:Hs;
            apply _save_progress_spec in Hs
              as (Hls & _ & [(-> & Hfs & Hlogs)|(Hnos & Hfs & Hlogs)])
        end; simpl in Hls, Hfs, Hlogs.
        -- unfold bind, modify, emit. intros [= <- <-].
           exists (Committed path result). split_and!; try done.
           ++ change (item_events _ _ _ _ _)
                with ([EvProcess sc; EvRetrieved url path; EvAnalyze path sc] ++
                      [EvSinkAppend rf result;
                       EvLedgerSave
                         (_get_progress_file (ProgressState.profile (state (locals s))) out)
                         (append_shortcode (state (locals s)) sc);
                       EvMarked sc]).
              eapply logged_trans; [done|].
              exists [EvSinkAppend rf result;
                      EvLedgerSave
                        (_get_progress_file (ProgressState.profile (state (locals s))) out)
                        (append_shortcode (state (locals s)) sc);
                      EvMarked sc].
              split; [|done]. simpl. rewrite Hlogs, Hloga, Hla, Hst.
              by rewrite <- !app_assoc.
           ++ unfold books_of, settle. simpl. rewrite Hls, Hfs, Hfa. simpl.
              rewrite Hla, Hst. by injection Hb as _ ->.
        -- assert (Hend : ∀ en' : ending,
             recorded en' = Some result →
             (∀ a b, en' ≠ Committed a b) →
             books_of ss = settle rf out (books_of s) sc en').
           { intros en' Hrec Hnc. unfold books_of, settle. rewrite Hrec.
             rewrite Hls, Hfs, Hfa. simpl. rewrite Hla, Hst.
             injection Hb as _ Hfiles. rewrite Hfiles.
             destruct en' as [a b| | | | |[]]; try done. by destruct (Hnc a b). }
           assert (Hlg : logged [EvProcess sc; EvRetrieved url path;
                                 EvAnalyze path sc; EvSinkAppend rf result] s ss).
           { change [EvProcess sc; EvRetrieved url path; EvAnalyze path sc;
                     EvSinkAppend rf result]
               with ([EvProcess sc; EvRetrieved url path; EvAnalyze path sc] ++
                     [EvSinkAppend rf result]).
             eapply logged_trans; [done|]. exists [EvSinkAppend rf result].
             split; [|done]. by rewrite Hlogs. }
           destruct rs as [u|e|]; [by destruct (Hnos u)| |].
           ++ destruct (is_Exception e) eqn:He.
              ** unfold bind, modify, emit. intros [= <- <-].
                 exists (Unsaved path result). split_and!; try done.
                 --- change (item_events _ _ _ _ _)
                       with ([EvProcess sc; EvRetrieved url path;
                              EvAnalyze path sc; EvSinkAppend rf result] ++
                             [EvNotMarked sc]).
                     eapply logged_trans; [done|]. by exists [EvNotMarked sc].
                 --- rewrite <- (Hend (Unsaved path result)); done.
              ** intros [= <- <-].
                 exists (Interrupted (Saving path result)).
                 split_and!; try done; [by apply Hend|]. right. by exists e.
           ++ intros [= <- <-].
              exists (Interrupted (Saving path result)).
              split_and!; try done; [by apply Hend|]. by left.
      * assert (Hbk : books_of sa = books_of s).
        { rewrite <- Hb. unfold books_of. by rewrite Hla, Hfa. }
        assert (Hlg : logged [EvProcess sc; EvRetrieved url path;
                              EvAnalyze path sc] s sa).
        { destruct Hlog as (n & Hn & Hv). exists n. by rewrite Hloga. }
        destruct ra as [u|e|]; [by destruct (Hnoa u)| |].
        -- destruct (is_Exception e) eqn:He.
           ++ unfold bind, modify, emit. intros [= <- <-].
              exists (Unwritten path result). split_and!; try done.
              change (item_events _ _ _ _ _)
                with ([EvProcess sc; EvRetrieved url path; EvAnalyze path sc] ++
                      [EvNotMarked sc]).
              eapply logged_trans; [done|]. by exists [EvNotMarked sc].
           ++ intros [= <- <-].
              exists (Interrupted (Appending path result)).
              split_and!; try done. right. by exists e.
        -- intros [= <- <-].
           exists (Interrupted (Appending path result)).
           split_and!; try done. by left.
  - destruct (is_Exception e) eqn:He.
    + intros [= <- <-].
      destruct Hcase as [(Hlog & _ & _)|(_ & _ & Hunc & _)];
        [|by rewrite (Hunc _ eq_refl) in He].
      exists Unfetched. split_and!; try done.
      change (item_events _ _ _ _ _) with ([EvProcess sc] ++ [EvNotMarked sc]).
      eapply logged_trans; [done|]. by exists [EvNotMarked sc].
    + intros [= <- <-]. destruct Hcase as [(Hlog & _ & _)|(Hlog & _ & _ & _)].
      * exists (Interrupted Downloading). split_and!; try done.
        right. by exists e.
      * exists (Interrupted (Analysing path)). split_and!; try done.
        right. by exists e.
  - intros [= <- <-]. destruct Hcase as [(Hlog & _ & _)|(Hlog & _ & _ & _)].
    + exists (Interrupted Downloading). split_and!; try done. by left.
    + exists (Interrupted (Analysing path)). split_and!; try done. by left.
Qed.

(** *** The loop *)

Lemma for_each_spec rf out todo s r s' :
  for_each todo (process_post poll_fuel rf out) s = (r, s') →
  ∃ ens,
    length ens ≤ length todo ∧
    logged (loop_events rf out (state (locals s)) (zip todo ens)) s s' ∧
    books_of s' = settle_all rf out (books_of s) (zip todo ens) ∧
    Forall (λ '(p, en), ending_ok (VideoPost.shortcode p) en) (zip todo ens) ∧
    (r = Ret tt → length ens = length todo ∧ Forall (λ en, finished en = true) ens) ∧
    (r = Ret tt ∨ r = Hang ∨ ∃ e, r = Raise e ∧ uncatchable e) ∧
    (r ≠ Ret tt → ∃ front en, ens = front ++ [en] ∧ finished en = false).
Proof.
  revert s. induction todo as [|p todo IH]; intros s; simpl.
  - intros [= <- <-]. exists []. split_and!; try done; eauto using logged_refl.
  - unfold bind at 1.
    destruct (process_post poll_fuel rf out p s) as [rp s1] eqn:Hp.
    apply process_post_spec in Hp as (en & Hlog & Hb & Hok & Hr).
    destruct (finished en) eqn:Hfin.
    + subst rp. intros Hrest.
      apply IH in Hrest as (ens & Hlen & Hlog' & Hb' & Hok' & Hr' & Hu' & Hl').
      exists (en :: ens). simpl.
      assert (Hst : state (locals s1) =
                match recorded en with
                | Some _ => append_shortcode (state (locals s)) (VideoPost.shortcode p)
                | None => state (locals s)
                end).
      { apply (f_equal ledger) in Hb. unfold settle in Hb.
        by destruct (recorded en). }
      split_and!.
      * lia.
      * eapply logged_trans; [done|]. by rewrite <- Hst.
      * by rewrite <- Hb.
      * by constructor.
      * intros Hret. destruct (Hr' Hret) as [-> ?]. by split; [|constructor].
      * done.
      * intros Hnr. destruct (Hl' Hnr) as (front & en' & -> & Hen').
        by exists (en :: front), en'.
    + intros Hrest. assert (r = rp ∧ s' = s1) as [-> ->].
      { destruct Hr as [->|(e & -> & _)]; by simplify_eq. }
      exists [en]. simpl. rewrite zip_with_nil_r. simpl. split_and!.
      * lia.
      * by rewrite app_nil_r.
      * done.
      * by constructor.
      * intros ->. by destruct Hr as [?|(? & ? & _)].
      * right. done.
      * intros _. by exists [], en.
Qed.

(** *** Loading the ledger and the whole run *)

Lemma _load_progress_eq profile output_dir (s : St W) :
  _load_progress profile output_dir s =
    (Ret (load_ledger (files s) profile output_dir), s).
Proof.
  unfold _load_progress, load_ledger, parse_ledger, bind, gets, catch_Exception,
    read_json.
  cbn beta zeta.
  destruct (files s !! _get_progress_file profile output_dir)
    as [c|] eqn:Hf; simpl; rewrite ?Hf; simpl; [|done].
  destruct (json_loads c) as [doc|]; simpl; [|done].
  unfold ret, raise. by destruct (model_validate doc).
Qed.

Lemma ext_quiet {A} (f : W → res A * W) s r s' : ext f s = (r, s') → quiet s s'.
Proof. apply preserves_ext. intros. apply quiet_world. Qed.

(** The [finally] clause of the driver: the summary is logged unless the
    loop never came back. *)
Lemma summary_spec {A} (m : M W A) s r s' :
  try_finally m
    (let! l := gets locals in
     emit (EvSummary (processed_count l) (error_count l))) s = (r, s') →
  ∃ s2, m s = (r, s2) ∧
    ((r = Hang ∧ s' = s2) ∨
     (r ≠ Hang ∧
      s' = add_log (EvSummary (processed_count (locals s2))
                      (error_count (locals s2))) s2)).
Proof.
  unfold try_finally, bind, gets, emit.
  destruct (m s) as [[a|e|] s2]; intros [= <- <-]; exists s2;
    (split; [done|]); [right|right|left]; done.
Qed.

(** A run: either the construction of the crawler or of the analyzer did
    not return, and nothing was done; or the loop ran, post by post. *)
Lemma run_pipeline_from_file_spec video_list api_key output_dir username
    password max_videos s r s' :
  run_pipeline_from_file poll_fuel video_list api_key output_dir username
    password max_videos s = (r, s') →
  let st0 := load_ledger (files s) (VideoList.profile video_list)
               output_dir in
  let rf := ProgressState.results_file st0 in
  let todo := videos_to_process video_list max_videos st0 in
  let b0 := {| ledger := st0; disk := files s |} in
  ((∀ v, r ≠ Ret v) ∧ logged [] s s' ∧ files s' = files s) ∨
  ∃ ens tail,
    length ens ≤ length todo ∧
    logged (loop_events rf output_dir st0 (zip todo ens) ++ tail) s s' ∧
    (∀ e, e ∈ tail → ∃ a b, e = EvSummary a b) ∧
    books_of s' = settle_all rf output_dir b0 (zip todo ens) ∧
    Forall (λ '(p, en), ending_ok (VideoPost.shortcode p) en) (zip todo ens) ∧
    (r = Ret tt → length ens = length todo ∧ Forall (λ en, finished en = true) ens) ∧
    (r = Ret tt ∨ r = Hang ∨ ∃ e, r = Raise e ∧ uncatchable e) ∧
    (r ≠ Ret tt → ∃ front en, ens = front ++ [en] ∧ finished en = false).
Proof.
  intros Hrun st0 rf todo b0. unfold run_pipeline_from_file in Hrun.
  apply bind_inv in Hrun as [(st & s0 & Hload & Hrun)|[(e & Hload & _)|[Hload _]]];
    rewrite _load_progress_eq in Hload; [|done..].
  injection Hload as <- <-. fold st0 rf todo in Hrun.
  apply bind_inv in Hrun as [(u1 & s1 & Hc & Hrun)|[(e & Hc & ->)|[Hc ->]]];
    apply ext_quiet in Hc;
    [|left; pose proof (quiet_logged _ _ Hc); destruct Hc as (? & _);
      by split_and!..].
  apply bind_inv in Hrun as [(u2 & s2 & Ha & Hrun)|[(e & Ha & ->)|[Ha ->]]];
    apply ext_quiet in Ha; pose proof (transitivity Hc Ha) as Hq;
    [|left; pose proof (quiet_logged _ _ Hq); destruct Hq as (? & _);
      by split_and!..].
  unfold bind at 1, modify at 1 in Hrun.
  set (s3 := set_locals _ s2) in Hrun.
  assert (Hs3 : books_of s3 = b0 ∧ log s3 = log s2).
  { destruct Hq as (Hp & _). unfold books_of, b0. simpl. by rewrite Hp. }
  destruct Hs3 as [Hb3 Hl3].
  right. apply summary_spec in Hrun as (s4 & Hloop & Hend).
  apply for_each_spec in Hloop as (ens & Hlen & Hlog & Hb & Hok & Hr & Hu & Hl).
  change (state (locals s3)) with st0 in Hlog. rewrite Hb3 in Hb.
  assert (Hlog' : logged ([] ++ loop_events rf output_dir st0 (zip todo ens)) s s4).
  { eapply logged_trans; [by apply quiet_logged|].
    destruct Hlog as (n & Hn & Hv). exists n. by rewrite <- Hl3. }
  exists ens.
  destruct Hend as [[-> ->]|[Hnh ->]].
  - exists []. split_and!; try done.
    + by rewrite app_nil_r.
    + by intros e ?%elem_of_nil.
  - exists [EvSummary (processed_count (locals s4)) (error_count (locals s4))].
    split_and!; try done.
    + eapply logged_trans; [done|]. by eexists.
    + intros e ->%list_elem_of_singleton. eauto.
Qed.

End ProgramFacts.

(** ** The bookkeeping of the loop, read off the log *)

Section Bookkeeping.

Lemma visible_cons e l :
  visible (e :: l) = if is_noise e then visible l else e :: visible l.
Proof.
  unfold visible. destruct (is_noise e) eqn:He.
  - by rewrite filter_cons_False by congruence.
  - by rewrite filter_cons_True by done.
Qed.

Lemma omap_visible {B} (f : event → option B) l :
  (∀ e, is_noise e = true → f e = None) → omap f (visible l) = omap f l.
Proof.
  intros Hf. induction l as [|e l IH]; [done|].
  rewrite visible_cons. destruct (is_noise e) eqn:He; simpl.
  - rewrite Hf by done. apply IH.
  - destruct (f e); [f_equal|]; exact IH.
Qed.

Lemma process_calls_visible l : process_calls (visible l) = process_calls l.
Proof. apply omap_visible. by intros []. Qed.

Lemma analyze_calls_visible l : analyze_calls (visible l) = analyze_calls l.
Proof. apply omap_visible. by intros []. Qed.

Lemma sink_appends_visible l : sink_appends (visible l) = sink_appends l.
Proof. apply omap_visible. by intros []. Qed.

Lemma ledger_saves_visible l : ledger_saves (visible l) = ledger_saves l.
Proof. apply omap_visible. by intros []. Qed.

Lemma verdicts_visible l : verdicts (visible l) = verdicts l.
Proof. apply omap_visible. by intros []. Qed.

Lemma downloaded_after_visible current l :
  downloaded_after current (visible l) = downloaded_after current l.
Proof.
  revert current. induction l as [|e l IH]; intros current; [done|].
  rewrite visible_cons. destruct e; simpl; rewrite ?IH; done.
Qed.

Lemma omap_summary {B} (f : event → option B) tail :
  (∀ a b, f (EvSummary a b) = None) →
  (∀ e, e ∈ tail → ∃ a b, e = EvSummary a b) → omap f tail = [].
Proof.
  intros Hf. induction tail as [|e tail IH]; [done|]. intros Ht.
  destruct (Ht e) as (a & b & ->); [by left|]. simpl. rewrite Hf.
  apply IH. intros e' He'. apply Ht. by right.
Qed.

Lemma downloaded_after_summary current tail :
  (∀ e, e ∈ tail → ∃ a b, e = EvSummary a b) →
  downloaded_after current tail = [].
Proof.
  induction tail as [|e tail IH]; [done|]. intros Ht.
  destruct (Ht e) as (a & b & ->); [by left|]. simpl.
  apply IH. intros e' He'. apply Ht. by right.
Qed.

Lemma process_calls_loop rf out st items :
  process_calls (loop_events rf out st items) = VideoPost.shortcode <$> items.*1.
Proof.
  revert st. induction items as [|[p en] items IH]; intros st; [done|].
  simpl. unfold process_calls in *. rewrite omap_app, IH.
  by destruct en as [| | | | |[]].
Qed.

Lemma analyze_calls_loop rf out st items :
  analyze_calls (loop_events rf out st items) = fetched_posts items.
Proof.
  revert st. induction items as [|[p en] items IH]; intros st; [done|].
  simpl. unfold analyze_calls, fetched_posts in *. rewrite omap_app, IH.
  by destruct en as [| | | | |[]].
Qed.

Lemma downloaded_after_loop rf out st items tail current :
  (∀ e, e ∈ tail → ∃ a b, e = EvSummary a b) →
  downloaded_after current (loop_events rf out st items ++ tail) =
    fetched_posts items.
Proof.
  intros Ht. revert st current.
  induction items as [|[p en] items IH]; intros st current.
  - by apply downloaded_after_summary.
  - simpl. rewrite <- app_assoc. unfold fetched_posts in *.
    destruct en as [| | | | |[]]; simpl; rewrite IH; done.
Qed.

Lemma fetched_posts_sublist items :
  fetched_posts items `sublist_of` VideoPost.shortcode <$> items.*1.
Proof.
  induction items as [|[p en] items IH]; [done|].
  unfold fetched_posts in *. simpl. destruct (fetched en); simpl;
    first [apply sublist_skip; apply IH | apply sublist_cons; apply IH].
Qed.

Lemma verdicts_loop rf out st items :
  verdicts (loop_events rf out st items) = omap verdict_of items.
Proof.
  revert st. induction items as [|[p en] items IH]; intros st; [done|].
  simpl. unfold verdicts in *. rewrite omap_app, IH.
  by destruct en as [| | | | |[]].
Qed.

Lemma sink_appends_loop rf out st items :
  sink_appends (loop_events rf out st items) = (λ r, (rf, r)) <$> omap record_of items.
Proof.
  revert st. induction items as [|[p en] items IH]; intros st; [done|].
  simpl. unfold sink_appends in *. rewrite omap_app, IH.
  by destruct en as [| | | | |[]].
Qed.

Lemma ledger_saves_loop rf out st items :
  length (ledger_saves (loop_events rf out st items)) = length (committed items).
Proof.
  revert st. induction items as [|[p en] items IH]; intros st; [done|].
  simpl. unfold ledger_saves, committed in *. rewrite omap_app, length_app, IH.
  by destruct en as [| | | | |[]].
Qed.






Lemma entered_cons p en items :
  entered ((p, en) :: items) =
    match recorded en with
    | Some _ => [VideoPost.shortcode p]
    | None => []
    end ++ entered items.
Proof. unfold entered. simpl. by destruct (recorded en). Qed.


Lemma verdicts_finished items :
  Forall (λ en, finished en = true) items.*2 →
  (omap verdict_of items).*1 = VideoPost.shortcode <$> items.*1.
Proof.
  induction items as [|[p en] items IH]; [done|]. simpl.
  intros Hall. apply Forall_cons_1 in Hall as [Hf Hrest].
  destruct en as [| | | | |[]]; try done; simpl; f_equal; by apply IH.
Qed.

End Bookkeeping.

(** ** The books after the loop *)

Section Books.

Implicit Types (b : Books) (items : list (VideoPost.t * ending)).

Lemma settle_profile rf out b sc en :
  ProgressState.profile (ledger (settle rf out b sc en)) =
    ProgressState.profile (ledger b).
Proof. unfold settle. by destruct (recorded en). Qed.

Lemma settle_all_ledger rf out b items :
  ledger (settle_all rf out b items) =
    {| ProgressState.profile := ProgressState.profile (ledger b);
       ProgressState.processed_shortcodes :=
         ProgressState.processed_shortcodes (ledger b) ++ entered items;
       ProgressState.results_file := ProgressState.results_file (ledger b) |}.
Proof.
  revert b. induction items as [|[p en] items IH]; intros b.
  - simpl. rewrite app_nil_r. by destruct (ledger b).
  - rewrite entered_cons. cbn [settle_all]. rewrite IH. unfold settle.
    destruct (recorded en); simpl; [|done]. by rewrite <- app_assoc.
Qed.

(** A file that is neither the results file nor the progress file of the
    ledger is as it was. *)
Lemma settle_all_frame rf out b items q :
  q ≠ rf →
  q ≠ _get_progress_file (ProgressState.profile (ledger b)) out →
  disk (settle_all rf out b items) !! q = disk b !! q.
Proof.
  intros Hrf. revert b. induction items as [|[p en] items IH]; intros b Hpf;
    [done|].
  simpl. rewrite IH by (by rewrite settle_profile). unfold settle.
  destruct (recorded en); [|done]. simpl.
  destruct en; rewrite ?lookup_insert_ne by (by apply not_eq_sym); done.
Qed.




(** *** The order of the two writes *)




(** What the log of a loop says about its posts. *)
Lemma loop_log rf out st new items tail :
  visible new = loop_events rf out st items ++ tail →
  (∀ e, e ∈ tail → ∃ x y, e = EvSummary x y) →
  process_calls new = VideoPost.shortcode <$> items.*1 ∧
  analyze_calls new = fetched_posts items ∧
  downloaded new = fetched_posts items ∧
  sink_appends new = (λ record, (rf, record)) <$> omap record_of items ∧
  length (ledger_saves new) = length (committed items) ∧
  verdicts new = omap verdict_of items.
Proof.
  intros Hvis Htail. split_and!.
  - rewrite <- process_calls_visible, Hvis. unfold process_calls.
    rewrite omap_app, (omap_summary _ tail) by done. rewrite app_nil_r.
    apply process_calls_loop.
  - rewrite <- analyze_calls_visible, Hvis. unfold analyze_calls.
    rewrite omap_app, (omap_summary _ tail) by done. rewrite app_nil_r.
    apply analyze_calls_loop.
  - unfold downloaded. rewrite <- downloaded_after_visible, Hvis.
    by apply downloaded_after_loop.
  - rewrite <- sink_appends_visible, Hvis. unfold sink_appends.
    rewrite omap_app, (omap_summary _ tail) by done. rewrite app_nil_r.
    apply sink_appends_loop.
  - rewrite <- ledger_saves_visible, Hvis. unfold ledger_saves.
    rewrite omap_app, (omap_summary _ tail) by done. rewrite app_nil_r.
    apply ledger_saves_loop.
  - rewrite <- verdicts_visible, Hvis. unfold verdicts.
    rewrite omap_app, (omap_summary _ tail) by done. rewrite app_nil_r.
    apply verdicts_loop.
Qed.

End Books.

(** ** The run, read off the log *)

Section RunFacts.

Context {W : Type} `{External W}.
Variable poll_fuel : nat.

Lemma videos_to_process_None video_list st :
  videos_to_process video_list None st = eligible video_list st.
Proof.
  unfold videos_to_process, eligible. apply list_filter_iff. intros v.
  by rewrite elem_of_list_to_set.
Qed.

Lemma videos_to_process_cap video_list max_videos st :
  videos_to_process video_list max_videos st =
    match max_videos with
    | Some n =>
        if bool_decide (n ≠ 0%Z) then slice_to n (eligible video_list st)
        else eligible video_list st
    | None => eligible video_list st
    end.
Proof.
  rewrite <- videos_to_process_None. by destruct max_videos.
Qed.

Lemma fst_zip_take {A B} (l : list A) (k : list B) :
  (zip l k).*1 = take (length k) l.
Proof.
  revert k. induction l as [|x l IH]; intros [|y k]; simpl; [done..|].
  by rewrite IH.
Qed.

(** Every run, post by post: what is visible of its log is the events of
    the posts it handled, a prefix of the work list, and then the summary;
    the files are those the loop left. *)
Lemma run_items video_list api_key output_dir username password max_videos
    (s : St W) r s' :
  run_pipeline_from_file poll_fuel video_list api_key output_dir username
    password max_videos s = (r, s') →
  let st0 := load_ledger (files s) (VideoList.profile video_list)
               output_dir in
  let rf := ProgressState.results_file st0 in
  let todo := videos_to_process video_list max_videos st0 in
  ∃ new items tail,
    log s' = log s ++ new ∧
    visible new = loop_events rf output_dir st0 items ++ tail ∧
    (∀ e, e ∈ tail → ∃ x y, e = EvSummary x y) ∧
    items.*1 `prefix_of` todo ∧
    (r = Ret tt → items.*1 = todo ∧ Forall (λ en, finished en = true) items.*2) ∧
    (r ≠ Ret tt → Forall (λ en, finished en = true) items.*2 → items = []) ∧
    Forall (λ '(p, en), ending_ok (VideoPost.shortcode p) en) items ∧
    files s' =
      disk (settle_all rf output_dir {| ledger := st0; disk := files s |} items).
Proof.
  intros Hrun st0 rf todo.
  apply run_pipeline_from_file_spec in Hrun
    as [(Hno & (new & Hnew & Hvis) & Hf)
       |(ens & tail & Hlen & (new & Hnew & Hvis) & Htail & Hb & Hok & Hr & _ & Hl)].
  - exists new, [], []. split_and!; try done.
    + by intros e ?%elem_of_nil.
    + apply prefix_nil.
    + intros ->. by destruct (Hno tt).
  - fold st0 rf todo in Hvis, Hb, Hok, Hr, Hlen.
    exists new, (zip todo ens), tail.
    assert (Hsnd : (zip todo ens).*2 = ens) by (by apply snd_zip).
    split_and!; try done.
    + rewrite fst_zip_take. apply prefix_take.
    + intros Hret. destruct (Hr Hret) as [Hlen' Hfin].
      rewrite Hsnd. split; [|done]. rewrite fst_zip_take, Hlen'.
      by rewrite take_ge.
    + intros Hnr Hfin. destruct (Hl Hnr) as (front & en & -> & Hen).
      rewrite Hsnd in Hfin. apply Forall_app in Hfin as [_ Hfin].
      apply Forall_cons_1 in Hfin as [Hfin _]. congruence.
    + by apply (f_equal disk) in Hb.
Qed.

(** Every run has handed a prefix of its work list to [_process_video], in
    order, and a run that returns the whole of it; the analyzer was invoked
    for the posts whose download returned, once for each. *)
Lemma run_processes video_list api_key output_dir username password
    max_videos (s : St W) r s' :
  run_pipeline_from_file poll_fuel video_list api_key output_dir username
    password max_videos s = (r, s') →
  let todo := videos_to_process video_list max_videos
                (load_ledger (files s) (VideoList.profile video_list)
                   output_dir) in
  ∃ new,
    log s' = log s ++ new ∧
    process_calls new `prefix_of` VideoPost.shortcode <$> todo ∧
    (r = Ret tt → process_calls new = VideoPost.shortcode <$> todo) ∧
    analyze_calls new = downloaded new ∧
    downloaded new `sublist_of` process_calls new.
Proof.
  intros Hrun todo.
  destruct (run_items _ _ _ _ _ _ _ _ _ Hrun)
    as (new & items & tail & Hnew & Hvis & Htail & Hpre & Hret & _ & _ & _).
  destruct (loop_log _ _ _ _ _ _ Hvis Htail) as (Hp & Ha & Hd & _).
  exists new. split_and!; [done|..].
  - rewrite Hp. destruct Hpre as [k Hk]. unfold todo.
    rewrite Hk, fmap_app. by eexists.
  - intros Hr. rewrite Hp. destruct (Hret Hr) as [Heq _]. unfold todo.
    by rewrite Heq.
  - by rewrite Ha, Hd.
  - rewrite Hd, Hp. apply fetched_posts_sublist.
Qed.

End RunFacts.

(** ** Resuming: the ledger and the work list of the next run *)

Section Resumption.






(** The results file of a fresh state is no progress file. *)
Lemma fresh_sink_apart profile out : sink_apart (fresh_state profile out) out.
Proof.
  intros q. unfold fresh_state, _get_results_file, _get_progress_file. simpl.
  induction out as [|c out IH]; simpl; [done|]. intros [= Heq]. by apply IH.
Qed.






Lemma fst_zip_sublist {A B} (l : list A) (k : list B) :
  (zip l k).*1 `sublist_of` l.
Proof.
  revert k. induction l as [|x l IH]; intros [|y k]; simpl;
    [done|done|apply sublist_nil_l|apply sublist_skip, IH].
Qed.

Lemma elem_of_visible e l : e ∈ l → is_noise e = false → e ∈ visible l.
Proof. intros. by apply list_elem_of_filter. Qed.



End Resumption.

(** * The claims *)

Section Claims.

Context {W : Type} `{External W}.
Variable poll_fuel : nat.

Lemma sublist_same_length {A} (l1 l2 : list A) :
  l1 `sublist_of` l2 → length l2 ≤ length l1 → l1 = l2.
Proof.
  induction 1 as [|x l1 l2 Hsub IH|x l1 l2 Hsub IH]; simpl; intros Hlen.
  - done.
  - f_equal. apply IH. lia.
  - apply sublist_length in Hsub. lia.
Qed.

(** C10: when the configured item cap [max_videos] equals 0 the driver
    applies no cap at all: its work list is every eligible (not yet
    completed) post of the input list, the run is the run without a cap, and
    it hands the eligible posts to [_process_video], in input order: all of
    them when it returns, and the first of them when it is cut short. *)
Theorem C10_zero_cap_is_no_cap video_list api_key output_dir username
    password (s : St W) r s' :
  let st0 := load_ledger (files s) (VideoList.profile video_list)
               output_dir in
  run_pipeline_from_file poll_fuel video_list api_key output_dir username
    password (Some 0%Z) s = (r, s') →
  videos_to_process video_list (Some 0%Z) st0 = eligible video_list st0 ∧
  run_pipeline_from_file poll_fuel video_list api_key output_dir username
    password None s = (r, s') ∧
  ∃ new,
    log s' = log s ++ new ∧
    process_calls new `prefix_of` VideoPost.shortcode <$> eligible video_list st0 ∧
    (r = Ret tt →
     process_calls new = VideoPost.shortcode <$> eligible video_list st0).
Proof.
  intros st0 Hrun.
  assert (Hall : videos_to_process video_list (Some 0%Z) st0 =
                 eligible video_list st0) by (by rewrite videos_to_process_cap).
  split_and!; [done|done|].
  apply run_processes in Hrun as (new & Hnew & Hpre & Hret & _).
  fold st0 in Hpre, Hret. rewrite Hall in Hpre, Hret. by exists new.
Qed.

(** C6: when the progress file is missing, or what it holds fails to parse
    ([json.loads] rejects it) or to validate ([model_validate] rejects the
    document), [_load_progress] returns a fresh state with no completed
    shortcode, raises nothing and changes nothing; the driver then works on
    the full input list. *)
Theorem C6_corrupt_ledger_recovery video_list api_key output_dir username
    password (s : St W) :
  let profile := VideoList.profile video_list in
  let progress_file := _get_progress_file profile output_dir in
  (files s !! progress_file = None ∨
   (∃ c, files s !! progress_file = Some c ∧ json_loads c = None) ∨
   (∃ c doc, files s !! progress_file = Some c ∧ json_loads c = Some doc ∧
             model_validate doc = None)) →
  _load_progress profile output_dir s =
    (Ret (fresh_state profile output_dir), s) ∧
  ProgressState.processed_shortcodes (fresh_state profile output_dir) = [] ∧
  videos_to_process video_list None (fresh_state profile output_dir) =
    VideoList.videos video_list ∧
  ∀ s',
    run_pipeline_from_file poll_fuel video_list api_key output_dir username
      password None s = (Ret tt, s') →
    ∃ new, log s' = log s ++ new ∧
           process_calls new = VideoPost.shortcode <$> VideoList.videos video_list.
Proof.
  intros profile progress_file Hbad.
  assert (Hload : load_ledger (files s) profile output_dir =
                  fresh_state profile output_dir).
  { unfold load_ledger, parse_ledger. fold progress_file.
    destruct Hbad as [->|[(c & -> & Hl)|(c & doc & -> & Hl & Hv)]]; simpl;
      rewrite ?Hl; simpl; by rewrite ?Hv. }
  assert (Hall : videos_to_process video_list None (fresh_state profile output_dir) =
                 VideoList.videos video_list).
  { rewrite videos_to_process_None. unfold eligible. simpl.
    induction (VideoList.videos video_list) as [|v vs IH]; [done|].
    rewrite filter_cons_True by apply not_elem_of_nil. by rewrite IH. }
  split_and!; [|done|done|].
  - by rewrite _load_progress_eq, Hload.
  - intros s' Hrun. apply run_processes in Hrun as (new & Hnew & _ & Hp & _).
    exists new. split; [done|]. fold profile in Hp.
    by rewrite (Hp eq_refl), Hload, Hall.
Qed.

(** C9: after [_process_video] returns a result (with or without an error)
    or raises, the temporary file that the call created no longer exists. *)
Theorem C9_temp_file_removed p (s : St W) r s' :
  _process_video poll_fuel p s = (r, s') →
  r ≠ Hang →
  let video_path := (mkstemp ".mp4" (world s)).1 in
  (named_temporary_file ".mp4" s).1 = Ret video_path ∧
  video_path ∈ tmp_files (named_temporary_file ".mp4" s).2 ∧
  video_path ∉ tmp_files s'.
Proof.
  intros Hp Hr video_path. rewrite named_temporary_file_eq. simpl.
  split_and!; [done|set_solver|].
  apply _process_video_spec in Hp as (_ & Hgone & _). by apply Hgone.
Qed.

(** C7: an operation under the retry wrapper that fails twice with a
    retryable exception and succeeds on the third attempt: the wrapper
    returns the value of the third attempt, and between the attempts it
    sleeps exactly twice, for [clamp (multiplier * 2^0) min max] and
    [clamp (multiplier * 2^1) min max] seconds.  [n1], [n2] and [n3] are what
    the three attempts themselves add to the log. *)
Theorem C7_retry_then_succeed {A} (pol : retry_policy) (op : M W A)
    s0 e1 s1 e2 s2 v s3 n1 n2 n3 :
  let d0 := clamp (multiplier pol * 2 ^ 0) (wait_min pol) (wait_max pol) in
  let d1 := clamp (multiplier pol * 2 ^ 1) (wait_min pol) (wait_max pol) in
  3 ≤ stop_after_attempt pol →
  retry_if pol e1 = true →
  retry_if pol e2 = true →
  op s0 = (Raise e1, s1) →
  log s1 = log s0 ++ n1 →
  op (add_log (EvBackoff d0) s1) = (Raise e2, s2) →
  log s2 = log (add_log (EvBackoff d0) s1) ++ n2 →
  op (add_log (EvBackoff d1) s2) = (Ret v, s3) →
  log s3 = log (add_log (EvBackoff d1) s2) ++ n3 →
  retry pol op s0 = (Ret v, s3) ∧
  log s3 = log s0 ++ n1 ++ [EvBackoff d0] ++ n2 ++ [EvBackoff d1] ++ n3.
Proof.
  intros d0 d1 Hstop Hr1 Hr2 H1 L1 H2 L2 H3 L3. split.
  - unfold retry.
    destruct (stop_after_attempt pol) as [|[|[|n]]]; [lia..|].
    change (S (S (S n)) - 1) with (S (S n)). cbn [retry_from].
    rewrite H1, Hr1. change (wait_exponential pol 0) with d0.
    rewrite H2, Hr2. change (wait_exponential pol 1) with d1.
    destruct n; cbn [retry_from]; by rewrite H3.
  - rewrite L3. simpl. rewrite L2. simpl. rewrite L1. by rewrite <- !app_assoc.
Qed.

Lemma eligible_length video_list st :
  length (eligible video_list st) =
    length (VideoList.videos video_list) - completed video_list st.
Proof.
  unfold eligible, completed.
  pose proof (filter_app_complement
    (λ v, VideoPost.shortcode v ∈ ProgressState.processed_shortcodes st)
    (VideoList.videos video_list)) as Hperm.
  apply Permutation_length in Hperm. rewrite length_app in Hperm. lia.
Qed.

(** C2 (amended): with no cap configured, a run that returns has handed to
    the item processor exactly the posts whose shortcodes are not in the
    ledger's completed list, in input order: [N - k] posts, for a list of [N]
    posts of which [k] are completed.  The analyzer is invoked for the posts
    whose download returned, once for each and for no other: for a sublist
    of the posts handed over, and for each of them, [N - k] times, exactly
    when [N - k] downloads returned. *)
Theorem C2_resumption video_list api_key output_dir username password
    (s : St W) s' :
  let st0 := load_ledger (files s) (VideoList.profile video_list)
               output_dir in
  let N := length (VideoList.videos video_list) in
  let k := completed video_list st0 in
  run_pipeline_from_file poll_fuel video_list api_key output_dir username
    password None s = (Ret tt, s') →
  ∃ new,
    log s' = log s ++ new ∧
    process_calls new = VideoPost.shortcode <$> eligible video_list st0 ∧
    length (process_calls new) = N - k ∧
    analyze_calls new = downloaded new ∧
    downloaded new `sublist_of` process_calls new ∧
    (length (downloaded new) = N - k ↔ analyze_calls new = process_calls new).
Proof.
  intros st0 N k Hrun.
  apply run_processes in Hrun as (new & Hnew & _ & Hp & Ha & Hsub).
  specialize (Hp eq_refl). fold st0 in Hp. rewrite videos_to_process_None in Hp.
  assert (Hlen : length (process_calls new) = N - k).
  { by rewrite Hp, length_fmap, eligible_length. }
  exists new. split_and!; try done. rewrite Ha. split.
  - intros Hd. apply sublist_same_length; [done|lia].
  - intros ->. done.
Qed.

(** C5 (amended): when a positive item cap [max_videos] is configured, the
    work list of the driver is the first [max_videos] eligible posts in input
    order, and a run that returns has handed exactly these to the item
    processor.  The analyzer is invoked for the posts whose download
    returned, once for each and for no other: at most [max_videos] times,
    and [max_videos] times exactly when that many downloads returned. *)
Theorem C5_cap video_list api_key output_dir username password (m : Z)
    (s : St W) s' :
  let st0 := load_ledger (files s) (VideoList.profile video_list)
               output_dir in
  (0 < m)%Z →
  run_pipeline_from_file poll_fuel video_list api_key output_dir username
    password (Some m) s = (Ret tt, s') →
  videos_to_process video_list (Some m) st0 =
    take (Z.to_nat m) (eligible video_list st0) ∧
  ∃ new,
    log s' = log s ++ new ∧
    process_calls new =
      VideoPost.shortcode <$> take (Z.to_nat m) (eligible video_list st0) ∧
    analyze_calls new = downloaded new ∧
    downloaded new `sublist_of` process_calls new ∧
    length (analyze_calls new) ≤ Z.to_nat m ∧
    (length (downloaded new) = Z.to_nat m →
     analyze_calls new = process_calls new ∧
     length (analyze_calls new) = Z.to_nat m).
Proof.
  intros st0 Hm Hrun.
  assert (Hcap : videos_to_process video_list (Some m) st0 =
                 take (Z.to_nat m) (eligible video_list st0)).
  { rewrite videos_to_process_cap. rewrite bool_decide_eq_true_2 by lia.
    unfold slice_to. by rewrite bool_decide_eq_false_2 by lia. }
  split; [done|].
  apply run_processes in Hrun as (new & Hnew & _ & Hp & Ha & Hsub).
  specialize (Hp eq_refl). fold st0 in Hp. rewrite Hcap in Hp.
  assert (Hlen : length (process_calls new) ≤ Z.to_nat m).
  { rewrite Hp, length_fmap, length_take. lia. }
  exists new. split_and!; try done.
  - rewrite Ha. apply sublist_length in Hsub. lia.
  - intros Hd. rewrite Ha. split; [|done].
    apply sublist_same_length; [done|lia].
Qed.

Lemma _process_video_download_raises p (s : St W) e s1 :
  download_video (VideoPost.video_url p) (mkstemp ".mp4" (world s)).1
    (at_download p s) = (Raise e, s1) →
  ∃ s2, _process_video poll_fuel p s = (Raise e, s2).
Proof.
  intros Hd. unfold _process_video, bind at 1.
  rewrite named_temporary_file_eq. unfold try_finally, bind at 1, emit at 1.
  change (add_log _ (set_tmp_files _ _)) with (at_download p s).
  unfold bind at 1. rewrite Hd.
  unfold bind, path_exists, gets, unlink, modify, ret.
  destruct (bool_decide _); by eexists.
Qed.

(** C3 (amended): an exception raised during analysis is caught inside
    [analyze] and converted to a result that carries the message of that
    very exception: of the one [_upload_video] raised, or of the one the
    analysis of the uploaded file raised; so [analyze] lets no [Exception]
    escape.  An exception raised by the download escapes [_process_video]
    as it is; when it is an [Exception], the handler of the driver for the
    post catches it, counts an error and leaves the post unmarked.  Either
    way no [Exception] escapes from the loop: a failure in one post never
    aborts the batch. *)
Theorem C3_failures_do_not_abort results_file output_dir :
  (∀ video_path shortcode (s : St W) r s',
     analyze poll_fuel video_path shortcode s = (r, s') →
     (∀ e, r = Raise e → is_Exception e = false) ∧
     (∀ v, r = Ret v → VideoResult.error v ≠ None →
        ∃ e, is_Exception e = true ∧
             v = error_result shortcode e ∧
             VideoResult.error v = Some (str e) ∧
             ((∃ s1, _upload_video poll_fuel video_path
                       (add_log (EvAnalyze video_path shortcode) s) =
                     (Raise e, s1)) ∨
              (∃ video_file s1 s2,
                 _upload_video poll_fuel video_path
                   (add_log (EvAnalyze video_path shortcode) s) =
                   (Ret video_file, s1) ∧
                 analyze_uploaded video_file shortcode s1 = (Raise e, s2))))) ∧
  (∀ video_path shortcode (s : St W) e s1,
     _upload_video poll_fuel video_path
       (add_log (EvAnalyze video_path shortcode) s) = (Raise e, s1) →
     is_Exception e = true →
     analyze poll_fuel video_path shortcode s =
       (Ret (error_result shortcode e), s1)) ∧
  (∀ video_path shortcode (s : St W) video_file s1 e s2 s3,
     _upload_video poll_fuel video_path
       (add_log (EvAnalyze video_path shortcode) s) = (Ret video_file, s1) →
     analyze_uploaded video_file shortcode s1 = (Raise e, s2) →
     is_Exception e = true →
     _delete_video video_file s2 = (Ret tt, s3) →
     analyze poll_fuel video_path shortcode s =
       (Ret (error_result shortcode e), s3)) ∧
  (∀ p (s : St W) e s1,
     download_video (VideoPost.video_url p) (mkstemp ".mp4" (world s)).1
       (at_download p s) = (Raise e, s1) →
     ∃ s2,
       _process_video poll_fuel p s = (Raise e, s2) ∧
       (is_Exception e = true →
        process_post poll_fuel results_file output_dir p s =
          (Ret tt,
           add_log (EvNotMarked (VideoPost.shortcode p))
             (set_locals count_error s2)))) ∧
  (∀ todo (s : St W) e s',
     for_each todo (process_post poll_fuel results_file output_dir) s =
       (Raise e, s') →
     is_Exception e = false).
Proof.
  split_and!.
  - intros video_path shortcode s r s' Ha. split.
    { intros e ->. by eapply analyze_raises. }
    intros v -> Herr. revert Ha.
    unfold analyze, bind, emit. set (s0 := add_log _ s).
    destruct (_upload_video poll_fuel video_path s0) as [[vf|e0|] s1] eqn:Hup.
    + unfold try_finally, catch_Exception.
      destruct (analyze_uploaded vf shortcode s1) as [[r1|e1|] s2] eqn:Hin.
      * destruct (_delete_video vf s2) as [[[]|?|] ?]; intros [= <- <-].
        apply analyze_uploaded_returns in Hin as [[a ->]|[g ->]]; by destruct Herr.
      * destruct (is_Exception e1) eqn:He1; simpl.
        -- destruct (_delete_video vf s2) as [[[]|?|] ?]; intros [= <- <-].
           exists e1. split_and!; [done..|]. right. by exists vf, s1, s2.
        -- by destruct (_delete_video vf s2) as [[[]|?|] ?].
      * done.
    + destruct (is_Exception e0) eqn:He0; [|done]. intros [= <- <-].
      exists e0. split_and!; [done..|]. left. by exists s1.
    + done.
  - intros video_path shortcode s e s1 Hup He.
    unfold analyze, bind, emit. by rewrite Hup, He.
  - intros video_path shortcode s vf s1 e s2 s3 Hup Hin He Hdel.
    unfold analyze, bind, emit. rewrite Hup.
    unfold try_finally, catch_Exception. rewrite Hin, He. unfold ret.
    cbv beta iota. by rewrite Hdel.
  - intros p s e s1 Hd.
    destruct (_process_video_download_raises _ _ _ _ Hd) as [s2 Hp].
    exists s2. split; [done|]. intros He.
    unfold process_post, catch_Exception, bind. by rewrite Hp, He.
  - intros todo s e s' Hloop.
    apply for_each_spec in Hloop as (_ & _ & _ & _ & _ & _ & Hr & _).
    by destruct Hr as [?|[?|(e' & [= <-] & ?)]].
Qed.


Lemma download_video_body_spec video_url output_path (s : St W) r s' :
  download_video_body video_url output_path s = (r, s') →
  let j := (random_uniform (seconds 0) DELAY_JITTER_SECONDS (world s)).1 in
  log s' = log s ++
    [EvUniform (seconds 0) DELAY_JITTER_SECONDS j;
     EvSleep (Qcanon.Qcplus BASE_DELAY_SECONDS j);
     EvUrlretrieve video_url output_path] ++
    match r with
    | Ret _ => [EvRetrieved video_url output_path]
    | _ => []
    end ∧
  ∀ v, r = Ret v → v = output_path.
Proof.
  unfold download_video_body, _sleep_with_jitter, uniform, time_sleep, bind,
    ask, emit, ext, modify, ret.
  destruct (random_uniform (seconds 0) DELAY_JITTER_SECONDS (world s)) as [j w1].
  simpl.
  destruct (urlretrieve video_url output_path w1) as [[[]|e|] w2];
    intros [= <- <-]; simpl; rewrite <- ?app_assoc;
    (split; [done|]); by intros v [= <-].
Qed.

Lemma download_retry_spec video_url output_path retries attempt (s : St W) r s' :
  retry_from download_policy (download_video_body video_url output_path)
    retries attempt s = (r, s') →
  ∃ js,
    1 ≤ length js ≤ S retries ∧
    head js = Some (random_uniform (seconds 0) DELAY_JITTER_SECONDS (world s)).1 ∧
    log s' = log s ++
      download_trace video_url output_path attempt js
        (match r with Ret _ => true | _ => false end) ∧
    match r with
    | Ret v => v = output_path
    | Raise e =>
        (length js = S retries ∧
         ∃ last, e = RetryError last ∧ is_Exception last = true) ∨
        is_Exception e = false
    | Hang => True
    end.
Proof.
  revert attempt s. induction retries as [|n IH]; intros attempt s; simpl;
    destruct (download_video_body video_url output_path s) as [[v|e|] s1] eqn:Hb;
    apply download_video_body_spec in Hb as (Hlog & Hv);
    set (j := (random_uniform (seconds 0) DELAY_JITTER_SECONDS (world s)).1) in *.
  - intros [= <- <-]. exists [j]. split_and!; simpl; [lia|lia|done|done|by apply Hv].
  - destruct (is_Exception e) eqn:He; intros [= <- <-]; exists [j];
      (split_and!; simpl; [lia|lia|done|done|]); [left|right]; eauto.
  - intros [= <- <-]. exists [j]. split_and!; simpl; [lia|lia|done|done|done].
  - intros [= <- <-]. exists [j]. split_and!; simpl; [lia|lia|done|done|by apply Hv].
  - destruct (is_Exception e) eqn:He.
    + intros Hrest. apply IH in Hrest as (js & Hlen & _ & Hlog' & Hr).
      exists (j :: js). split_and!; simpl; [lia|lia|done| |].
      * rewrite Hlog'. simpl. rewrite Hlog, <- !app_assoc. simpl.
        by destruct js; [simpl in Hlen; lia|].
      * destruct r as [v|e'|]; [done| |done].
        destruct Hr as [[Hl Hlast]|Hu]; [left|right]; [|done].
        split; [lia|done].
    + intros [= <- <-]. exists [j]. split_and!; simpl; [lia|lia|done|done|by right].
  - intros [= <- <-]. exists [j]. split_and!; simpl; [lia|lia|done|done|done].
Qed.

(** C8 (amended): the download of a post's payload is wrapped in a broad
    retry policy: an attempt that raises any [Exception] is retried, with at
    most 3 attempts and a backoff of 5 and then 10 seconds (base 5, ceiling
    60).  Before each call of [urlretrieve] the program draws a jitter with
    [random.uniform(0, 3)] and sleeps for [BASE_DELAY_SECONDS], 5 seconds,
    plus the jitter drawn; the first jitter is the one that
    [random.uniform] gives in the world of the call.  When the download
    raises, either the three attempts are exhausted and the last
    [Exception] comes wrapped in a [RetryError], or the exception is not an
    [Exception]. *)
Theorem C8_download_retry_policy video_url output_path (s : St W) r s' :
  download_video video_url output_path s = (r, s') →
  (∃ js,
     1 ≤ length js ≤ 3 ∧
     head js = Some (random_uniform (seconds 0) (seconds 3) (world s)).1 ∧
     log s' = log s ++
       download_trace video_url output_path 0 js
         (match r with Ret _ => true | _ => false end) ∧
     match r with
     | Ret v => v = output_path
     | Raise e =>
         (length js = 3 ∧ ∃ last, e = RetryError last ∧ is_Exception last = true) ∨
         is_Exception e = false
     | Hang => True
     end) ∧
  BASE_DELAY_SECONDS = seconds 5 ∧
  wait_exponential download_policy 0 = 5%Z ∧
  wait_exponential download_policy 1 = 10%Z ∧
  ∀ attempt, (5 ≤ wait_exponential download_policy attempt ≤ 60)%Z.
Proof.
  intros Hd. split_and!; [|done|done|done|].
  - by apply download_retry_spec in Hd.
  - intros attempt. unfold wait_exponential, clamp. simpl. lia.
Qed.





End Claims.

(** * The claims on concrete runs *)

(** Evaluation settles the closed goals below. *)
Ltac by_computing :=
  vm_compute; repeat split;
  first [reflexivity | lia | exact I
        | (let Hd := fresh in intros Hd; discriminate Hd)].

Lemma pair_of_fst {A B} (p : A * B) a : p.1 = a → p = (a, p.2).
Proof. destruct p. simpl. by intros ->. Qed.


(** C10 on the list of ten posts, when every call succeeds: with a cap of 0
    all ten posts are handed to the item processor. *)
Lemma C10_witness :
  (drive ten_posts (Some 0%Z) (boot ∅ tt)).1 = Ret tt ∧
  length (videos_to_process ten_posts (Some 0%Z) (fresh_state "p" "out")) = 10 ∧
  process_calls (log (drive ten_posts (Some 0%Z) (boot ∅ tt)).2) =
    ["V0"; "V1"; "V2"; "V3"; "V4"; "V5"; "V6"; "V7"; "V8"; "V9"].
Proof.
  assert (Hr : (drive ten_posts (Some 0%Z) (boot ∅ tt)).1 = Ret tt)
    by by_computing.
  split; [exact Hr|].
  destruct (C10_zero_cap_is_no_cap 3 ten_posts "key" "out" "user" "secret"
              (boot ∅ tt) _ _ (pair_of_fst _ _ Hr))
    as (Hall & _ & new & Hnew & _ & Hp).
  split; [by_computing|].
  change (log (boot ∅ tt) ++ new) with new in Hnew.
  rewrite Hnew, (Hp eq_refl). by_computing.
Defined.

(** C6 on a progress file that is not JSON. *)
Lemma C6_witness :
  (files (boot ledger_corrupt calm) !! "out/.progress_p.json"
     = Some (document (NotJson "not valid json"))) ∧
  _load_progress "p" "out" (boot ledger_corrupt calm) =
    (Ret (fresh_state "p" "out"), boot ledger_corrupt calm) ∧
  videos_to_process abc_posts None (fresh_state "p" "out") =
    VideoList.videos abc_posts.
Proof.
  split; [by_computing|].
  destruct (C6_corrupt_ledger_recovery 3 abc_posts "key" "out" "user" "secret"
              (boot ledger_corrupt calm)) as (Hload & _ & Hall & _).
  - right. left. exists (document (NotJson "not valid json")). by_computing.
  - split; [exact Hload | exact Hall].
Defined.

(** C9 on a post whose download and analysis succeed. *)
Lemma C9_witness :
  (_process_video 3 (post "A") (boot ∅ calm)).1 ≠ Hang ∧
  "/tmp/tmpvideo.mp4" ∈ tmp_files (named_temporary_file ".mp4" (boot ∅ calm)).2 ∧
  "/tmp/tmpvideo.mp4" ∉ tmp_files (_process_video 3 (post "A") (boot ∅ calm)).2.
Proof.
  assert (Hr : (_process_video 3 (post "A") (boot ∅ calm)).1 ≠ Hang)
    by by_computing.
  split; [exact Hr|].
  destruct (C9_temp_file_removed 3 (post "A") (boot ∅ calm) _ _
              (pair_of_fst _ _ eq_refl) Hr) as (_ & Hin & Hout).
  split; [exact Hin | exact Hout].
Defined.

(** C7 on the profile lookup, which fails twice with a connection error and
    then succeeds: the wrapper sleeps 60 and then 120 seconds. *)
Lemma C7_witness :
  (_get_profile "gym" (boot ∅ flaky)).1 = Ret "gym" ∧
  backoffs (log (_get_profile "gym" (boot ∅ flaky)).2) = [60; 120]%Z.
Proof.
  set (op := _get_profile_body (W := Script) "gym").
  set (s0 := boot ∅ flaky).
  set (s1 := (op s0).2).
  set (s2 := (op (add_log (EvBackoff 60) s1)).2).
  set (s3 := (op (add_log (EvBackoff 120) s2)).2).
  assert (H3 : 3 ≤ stop_after_attempt network_policy) by by_computing.
  assert (Hre : retry_if network_policy reset = true) by done.
  assert (H1 : op s0 = (Raise reset, s1)) by by_computing.
  assert (L1 : log s1 = log s0 ++ log s1) by done.
  assert (H2 : op (add_log (EvBackoff 60) s1) = (Raise reset, s2))
    by by_computing.
  assert (L2 : log s2 = log (add_log (EvBackoff 60) s1) ++ drop 3 (log s2))
    by by_computing.
  assert (H4 : op (add_log (EvBackoff 120) s2) = (Ret "gym", s3))
    by by_computing.
  assert (L3 : log s3 = log (add_log (EvBackoff 120) s2) ++ drop 6 (log s3))
    by by_computing.
  destruct (C7_retry_then_succeed network_policy op s0 reset s1 reset s2 "gym" s3
              (log s1) (drop 3 (log s2)) (drop 6 (log s3))
              H3 Hre Hre H1 L1 H2 L2 H4 L3) as [Hret Hlog].
  change (_get_profile "gym" s0) with (retry network_policy op s0).
  rewrite Hret. split; [done|].
  change (backoffs (log s3) = [60; 120]%Z). rewrite Hlog. by_computing.
Defined.



(** C2 on the list A, B, C with A completed, in the steady world: B and C
    are processed and analysed. *)
Lemma C2_witness :
  (drive abc_posts None (boot ledger_A tt)).1 = Ret tt ∧
  ∃ new,
    log (drive abc_posts None (boot ledger_A tt)).2 = [] ++ new ∧
    process_calls new = ["B"; "C"] ∧
    downloaded new = ["B"; "C"] ∧
    analyze_calls new = ["B"; "C"].
Proof.
  assert (Hr : (drive abc_posts None (boot ledger_A tt)).1 = Ret tt)
    by by_computing.
  split; [exact Hr|].
  destruct (C2_resumption 3 abc_posts "key" "out" "user" "secret"
              (boot ledger_A tt) _ (pair_of_fst _ _ Hr))
    as (new & Hnew & Hp & _ & Ha & _ & Hall).
  exists new.
  assert (Hd : downloaded new = ["B"; "C"]).
  { change (log (boot ledger_A tt) ++ new) with new in Hnew.
    rewrite <- Hnew. by_computing. }
  split_and!; [exact Hnew|exact Hp|exact Hd|]. by rewrite Ha.
Defined.

(** C2 as stated fails without a network: the one eligible post is handed
    to the item processor, and the analyzer is never invoked, although
    [N - k = 1]. *)
Lemma C2_counterexample :
  (drive one_post None (boot ∅ offline)).1 = Ret tt ∧
  process_calls (log (drive one_post None (boot ∅ offline)).2) = ["A"] ∧
  analyze_calls (log (drive one_post None (boot ∅ offline)).2) = [] ∧
  length (VideoList.videos one_post) -
    completed one_post (load_ledger ∅ "p" "out") = 1.
Proof. by_computing. Qed.

(** C3 as stated fails: when the download gives up, the exception escapes
    from [_process_video] to the driver. *)
Lemma C3_counterexample :
  (_process_video 3 (post "A") (boot ∅ offline)).1 = Raise (RetryError timed_out) ∧
  is_Exception (RetryError timed_out) = true.
Proof. by_computing. Qed.



(** C5 on ten eligible posts with a cap of 3, in the steady world: three
    posts are processed and the analyzer is invoked three times. *)
Lemma C5_witness :
  (0 < 3)%Z ∧
  (drive ten_posts (Some 3%Z) (boot ∅ tt)).1 = Ret tt ∧
  ∃ new,
    log (drive ten_posts (Some 3%Z) (boot ∅ tt)).2 = [] ++ new ∧
    process_calls new = ["V0"; "V1"; "V2"] ∧
    length (downloaded new) = 3 ∧
    length (analyze_calls new) = 3.
Proof.
  assert (Hr : (drive ten_posts (Some 3%Z) (boot ∅ tt)).1 = Ret tt)
    by by_computing.
  split; [done|]. split; [exact Hr|].
  destruct (C5_cap 3 ten_posts "key" "out" "user" "secret" 3%Z
              (boot ∅ tt) _ eq_refl (pair_of_fst _ _ Hr))
    as (_ & new & Hnew & Hp & _ & _ & _ & Hall).
  exists new.
  assert (Hd : length (downloaded new) = 3).
  { change (log (boot ∅ tt) ++ new) with new in Hnew.
    rewrite <- Hnew. by_computing. }
  split_and!; [exact Hnew|exact Hp|exact Hd|]. by apply Hall.
Defined.

(** C5 as stated fails twice: a configured cap of 0 leaves the one eligible
    post of the list in the work list, and with a cap of 3 and ten eligible
    posts, without a network, three posts are handed to the item processor
    and the analyzer is never invoked. *)
Lemma C5_counterexample :
  (videos_to_process one_post (Some 0%Z) (fresh_state "p" "out") = [post "A"] ∧
   take (Z.to_nat 0) (eligible one_post (fresh_state "p" "out")) = []) ∧
  (length (eligible ten_posts (load_ledger ∅ "p" "out")) = 10 ∧
   (drive ten_posts (Some 3%Z) (boot ∅ offline)).1 = Ret tt ∧
   process_calls (log (drive ten_posts (Some 3%Z) (boot ∅ offline)).2) =
     ["V0"; "V1"; "V2"] ∧
   analyze_calls (log (drive ten_posts (Some 3%Z) (boot ∅ offline)).2) = []).
Proof. by_computing. Qed.

(** C8 on a download whose first attempt times out: it is retried after 5
    seconds and returns; before each of the two calls the program drew a
    jitter from between 0 and 3 and slept for 5 seconds plus the jitter. *)
Lemma C8_witness :
  (download_video "https://cdn.example/A.mp4" "/tmp/a.mp4" (boot ∅ one_timeout)).1
    = Ret "/tmp/a.mp4" ∧
  log (download_video "https://cdn.example/A.mp4" "/tmp/a.mp4"
         (boot ∅ one_timeout)).2 =
    download_trace "https://cdn.example/A.mp4" "/tmp/a.mp4" 0
      [seconds 0; seconds 0] true ∧
  backoffs (log (download_video "https://cdn.example/A.mp4" "/tmp/a.mp4"
                   (boot ∅ one_timeout)).2) = [5%Z].
Proof.
  destruct (C8_download_retry_policy
              "https://cdn.example/A.mp4" "/tmp/a.mp4" (boot ∅ one_timeout) _ _
              (pair_of_fst _ _ eq_refl)) as (_ & _ & Hd0 & _ & _).
  split; [by_computing|]. split; [by_computing|]. rewrite <- Hd0. by_computing.
Defined.

(** C8 as stated fails: under the network/connection policy a timeout would
    not be retried and a lost connection would be retried after 60 seconds;
    [download_video] retries the timeout, and waits 5 seconds in both
    cases. *)
Lemma C8_counterexample :
  ((download_video "https://cdn.example/A.mp4" "/tmp/a.mp4" (boot ∅ one_timeout)).1
     = Ret "/tmp/a.mp4" ∧
   (download_video_claimed "https://cdn.example/A.mp4" "/tmp/a.mp4"
      (boot ∅ one_timeout)).1 = Raise timed_out) ∧
  (backoffs (log (download_video "https://cdn.example/A.mp4" "/tmp/a.mp4"
                    (boot ∅ one_reset)).2) = [5%Z] ∧
   backoffs (log (download_video_claimed "https://cdn.example/A.mp4" "/tmp/a.mp4"
                    (boot ∅ one_reset)).2) = [60%Z]).
Proof. by_computing. Qed.

(** * Further properties of the code *)

(** ** Shortcodes in a saved page *)

Section Shortcodes.

Lemma chars_app a b : chars (a +:+ b) = chars a ++ chars b.
Proof. unfold chars. induction a as [|c a IH]; simpl; [done|by rewrite IH]. Qed.

Lemma chars_inj a b : chars a = chars b → a = b.
Proof.
  unfold chars. intros Hab.
  rewrite <- (String.string_of_list_ascii_of_string a),
          <- (String.string_of_list_ascii_of_string b). by rewrite Hab.
Qed.

Lemma chars_of_list l : chars (String.string_of_list_ascii l) = l.
Proof. apply String.list_ascii_of_string_of_list_ascii. Qed.

Lemma length_chars a : length (chars a) = String.length a.
Proof. unfold chars. induction a as [|c a IH]; simpl; [done|by rewrite IH]. Qed.

Lemma strip_Some lit text rest : strip lit text = Some rest → text = lit ++ rest.
Proof.
  revert text. induction lit as [|c lit IH]; intros [|d text]; simpl; try done.
  - by intros [= ->].
  - by intros [= ->].
  - destruct (Ascii.eqb c d) eqn:Hcd; [|done].
    apply Ascii.eqb_eq in Hcd as ->. intros ?%IH. by subst.
Qed.

Lemma strip_app lit rest : strip lit (lit ++ rest) = Some rest.
Proof. induction lit as [|c lit IH]; simpl; [done|]. by rewrite Ascii.eqb_refl. Qed.

Lemma match_code_Some text group :
  match_code text = Some group →
  length group = 11 ∧ forallb shortcode_char group = true ∧
  ∃ rest, text = group ++ chars "/" ++ rest.
Proof.
  unfold match_code. cbv zeta.
  destruct (bool_decide (length (take 11 text) = 11)) eqn:Hlen; [|done].
  destruct (forallb shortcode_char (take 11 text)) eqn:Hall; [|done].
  cbn [andb].
  destruct (strip (chars "/") (drop 11 text)) as [rest|] eqn:Hs; [|done].
  intros [= <-]. apply bool_decide_eq_true in Hlen.
  split; [exact Hlen|]. split; [exact Hall|].
  exists rest. apply strip_Some in Hs. rewrite <- Hs. by rewrite take_drop.
Qed.

Lemma match_code_app group rest :
  length group = 11 → forallb shortcode_char group = true →
  match_code (group ++ chars "/" ++ rest) = Some group.
Proof.
  intros Hlen Hall. unfold match_code.
  rewrite take_app_length' by done. rewrite drop_app_length' by done.
  rewrite bool_decide_eq_true_2 by done. rewrite Hall. cbn [andb].
  by rewrite strip_app.
Qed.

Lemma match_here_Some text group len :
  match_here text = Some (group, len) →
  length group = 11 ∧ forallb shortcode_char group = true ∧
  ∃ kind rest, (kind = "p" ∨ kind = "reel") ∧
    text = chars "/" ++ chars kind ++ chars "/" ++ group ++ chars "/" ++ rest.
Proof.
  unfold match_here.
  destruct (strip (chars "/") text) as [after|] eqn:H0;
    cbn [mbind option_bind]; [|done].
  apply strip_Some in H0 as ->.
  assert (Hkind : ∀ kind,
    (strip (chars kind) after ≫= λ rest,
       strip (chars "/") rest ≫= λ rest,
         match_code rest ≫= λ group, Some (group, 1 + String.length kind + 1 + 11 + 1))
      = Some (group, len) →
    length group = 11 ∧ forallb shortcode_char group = true ∧
    ∃ rest, after = chars kind ++ chars "/" ++ group ++ chars "/" ++ rest).
  { intros kind.
    destruct (strip (chars kind) after) as [r1|] eqn:H1;
      cbn [mbind option_bind]; [|done].
    destruct (strip (chars "/") r1) as [r2|] eqn:H2;
      cbn [mbind option_bind]; [|done].
    destruct (match_code r2) as [g|] eqn:H3;
      cbn [mbind option_bind]; [|done].
    intros [= -> <-]. apply match_code_Some in H3 as (? & ? & rest & ->).
    apply strip_Some in H2 as ->. apply strip_Some in H1 as ->.
    split_and!; [done..|]. by exists rest. }
  match goal with |- context [match ?x with Some m => Some m | None => ?y end] =>
    destruct x as [m|] eqn:Hp end.
  - intros [= ->]. apply Hkind in Hp as (? & ? & rest & ->).
    split_and!; [done..|]. exists "p", rest. split; [by left|done].
  - intros Hr. apply Hkind in Hr as (? & ? & rest & ->).
    split_and!; [done..|]. exists "reel", rest. split; [by right|done].
Qed.

Lemma findall_elem skip text sc :
  sc ∈ findall skip text →
  ∃ before group len after,
    text = before ++ after ∧ match_here after = Some (group, len) ∧
    sc = String.string_of_list_ascii group.
Proof.
  revert skip. induction text as [|c text IH]; intros skip; simpl.
  - by intros ?%elem_of_nil.
  - destruct skip as [|skip].
    + destruct (match_here (c :: text)) as [[group len]|] eqn:Hm.
      * intros [->|Hin]%elem_of_cons.
        -- by exists [], group, len, (c :: text).
        -- apply IH in Hin as (before & g & l & after & -> & ? & ?).
           by exists (c :: before), g, l, after.
      * intros Hin. apply IH in Hin as (before & g & l & after & -> & ? & ?).
        by exists (c :: before), g, l, after.
    + intros Hin. apply IH in Hin as (before & g & l & after & -> & ? & ?).
      by exists (c :: before), g, l, after.
Qed.

Lemma fromkeys_from_spec (d keys : list string) :
  NoDup d →
  NoDup (foldl (λ d k, if bool_decide (k ∈ d) then d else d ++ [k]) d keys) ∧
  ∀ k, k ∈ foldl (λ d k, if bool_decide (k ∈ d) then d else d ++ [k]) d keys ↔
       k ∈ d ∨ k ∈ keys.
Proof.
  revert d. induction keys as [|x keys IH]; intros d Hd; simpl.
  - split; [done|]. intros k. rewrite elem_of_nil. tauto.
  - case_bool_decide as Hx.
    + destruct (IH d Hd) as [Hnd Hin]. split; [done|].
      intros k. rewrite Hin, elem_of_cons. split; [tauto|].
      intros [?|[->|?]]; [by left|by left|by right].
    + destruct (IH (d ++ [x])) as [Hnd Hin].
      { apply list.NoDup_app. split_and!; [done| |apply NoDup_singleton].
        intros y Hy ->%list_elem_of_singleton. done. }
      split; [done|]. intros k.
      rewrite Hin, elem_of_app, list_elem_of_singleton, elem_of_cons. tauto.
Qed.

Lemma fromkeys_NoDup_id (d keys : list string) :
  NoDup (d ++ keys) →
  foldl (λ d k, if bool_decide (k ∈ d) then d else d ++ [k]) d keys = d ++ keys.
Proof.
  revert d. induction keys as [|x keys IH]; intros d Hd; simpl.
  - by rewrite app_nil_r.
  - rewrite bool_decide_eq_false_2.
    + rewrite IH; rewrite <- app_assoc; done.
    + apply list.NoDup_app in Hd as (_ & Hdisj & _). intros Hx.
      apply (Hdisj _ Hx). by left.
Qed.

Lemma findall_skip l rest :
  findall (length l) (l ++ rest) = findall 0 rest.
Proof. induction l as [|c l IH]; [done|]. simpl. exact IH. Qed.

Lemma findall_no_link text rest :
  no_link_start text rest = true →
  findall 0 (text ++ rest) = findall 0 rest.
Proof.
  intros Htext. induction text as [|c text IH]; [done|].
  cbn [no_link_start] in Htext. apply andb_true_iff in Htext as [Hc Htext].
  apply bool_decide_eq_true in Hc.
  change (findall 0 ((c :: text) ++ rest))
    with (match match_here ((c :: text) ++ rest) with
          | Some (group, len) =>
              String.string_of_list_ascii group :: findall (len - 1) (text ++ rest)
          | None => findall 0 (text ++ rest)
          end).
  rewrite Hc. by apply IH.
Qed.

Lemma match_here_link reel group rest :
  length group = 11 → forallb shortcode_char group = true →
  match_here (chars (link reel (String.string_of_list_ascii group)) ++ rest) =
    Some (group, String.length (link reel (String.string_of_list_ascii group))).
Proof.
  intros Hlen Hall. unfold link. rewrite !chars_app, chars_of_list.
  rewrite <- !app_assoc. unfold match_here. rewrite strip_app.
  cbn [mbind option_bind].
  assert (Hp : String.length
            ("/" +:+ (if reel then "reel" else "p") +:+ "/" +:+
             String.string_of_list_ascii group +:+ "/") =
          1 + String.length (if reel then "reel" else "p") + 1 + 11 + 1).
  { rewrite <- !length_chars, !chars_app, !length_app, chars_of_list, Hlen.
    rewrite !length_chars. simpl. lia. }
  rewrite Hp. destruct reel.
  - assert (Hno : ∀ x, strip (chars "p") (chars "reel" ++ x) = None) by done.
    rewrite Hno. cbn [mbind option_bind].
    repeat (rewrite strip_app; cbn [mbind option_bind]).
    rewrite match_code_app by done. done.
  - repeat (rewrite strip_app; cbn [mbind option_bind]).
    rewrite match_code_app by done. done.
Qed.

Lemma findall_link reel code rest :
  is_code code = true →
  findall 0 (chars (link reel code) ++ rest) = code :: findall 0 rest.
Proof.
  unfold is_code. intros [Hlen Hall]%andb_true_iff.
  apply Nat.eqb_eq in Hlen. rewrite <- length_chars in Hlen.
  rewrite <- (String.string_of_list_ascii_of_string code) at 1.
  pose proof (match_here_link reel (chars code) rest Hlen Hall) as Hm.
  fold (chars code) in *.
  destruct (chars (link reel (String.string_of_list_ascii (chars code))))
    as [|c l] eqn:Hl.
  { apply (f_equal length) in Hl. rewrite length_chars in Hl.
    unfold link in Hl. by destruct reel. }
  change (findall 0 ((c :: l) ++ rest))
    with (match match_here ((c :: l) ++ rest) with
          | Some (group, len) =>
              String.string_of_list_ascii group :: findall (len - 1) (l ++ rest)
          | None => findall 0 (l ++ rest)
          end).
  rewrite Hm. unfold chars at 1. rewrite String.string_of_list_ascii_of_string.
  f_equal. rewrite <- length_chars, Hl. simpl. rewrite Nat.sub_0_r.
  apply findall_skip.
Qed.

Lemma findall_page links trailer :
  links_only links trailer = true →
  findall 0 (chars (page links trailer)) = links.*2.
Proof.
  induction links as [|[[text reel] code] links IH]; cbn [links_only page].
  - intros Htrailer. rewrite <- (app_nil_r (chars trailer)).
    by rewrite findall_no_link.
  - intros [[Htext Hcode]%andb_true_iff Hrest]%andb_true_iff.
    rewrite chars_app, findall_no_link by done.
    rewrite chars_app, findall_link by done.
    cbn [fmap list_fmap snd]. by rewrite IH.
Qed.

End Shortcodes.

(** ** Files written and read back *)

Section RoundTrips.

Context {W : Type} `{External W}.



End RoundTrips.

(** ** The crawler *)

Section CrawlerFacts.

Context {W : Type} `{External W} `{Instaloader W}.

(** What the retry wrapper returns, the operation returned. *)
Lemma retry_from_ret {A} pol (op : M W A) retries attempt s v s' :
  retry_from pol op retries attempt s = (Ret v, s') →
  ∃ s0, op s0 = (Ret v, s').
Proof.
  revert attempt s. induction retries as [|n IH]; intros attempt s; simpl;
    destruct (op s) as [[a|e|] s1] eqn:E; try done.
  - intros [= <- <-]. eauto.
  - by destruct (retry_if pol e).
  - intros [= <- <-]. eauto.
  - destruct (retry_if pol e); [apply IH|done].
Qed.

Lemma get_post_by_shortcode_body_ret shortcode s v s' :
  get_post_by_shortcode_body shortcode s = (Ret (Some v), s') →
  ∃ u caption, u ≠ "" ∧ v = video_post shortcode u caption.
Proof.
  unfold get_post_by_shortcode_body. intros Hb.
  apply bind_ret_inv in Hb as (_ & s1 & _ & Hb).
  apply bind_ret_inv in Hb as (post & s2 & _ & Hb).
  destruct (negb (Post.is_video post)); [done|].
  apply bind_ret_inv in Hb as ([u|] & s3 & _ & Hb); [|done].
  destruct (String.eqb u "") eqn:Hu; [done|].
  injection Hb as <- _. exists u, (Post.caption post). split; [|done].
  by apply String.eqb_neq.
Qed.

Lemma collected_mono videos seen seen' :
  seen ⊆ seen' → collected videos seen → collected videos seen'.
Proof.
  intros Hsub [Hnd Hall]. split; [done|].
  eapply Forall_impl; [|exact Hall]. intros v (? & ? & ?).
  split_and!; [by apply Hsub|done..].
Qed.

Lemma collected_snoc videos seen sc u caption :
  sc ∉ seen → u ≠ "" → collected videos seen →
  collected (videos ++ [video_post sc u caption]) ({[sc]} ∪ seen).
Proof.
  intros Hsc Hu [Hnd Hall]. split.
  - rewrite fmap_app. apply list.NoDup_app. split_and!; [done| |apply NoDup_singleton].
    intros x (v & Hx & Hv)%list_elem_of_fmap Hin.
    apply list_elem_of_singleton in Hin. simpl in Hin.
    rewrite list.Forall_forall in Hall. destruct (Hall v Hv) as (Hseen & _).
    apply Hsc. by rewrite <- Hin, Hx.
  - apply Forall_app. split.
    + eapply Forall_impl; [|exact Hall]. intros v (? & ? & ?).
      split_and!; [by apply elem_of_union_r|done..].
    + constructor; [|done]. simpl.
      split_and!; [by apply elem_of_union_l, elem_of_singleton|done..].
Qed.

Lemma list_videos_loop_ret fuel profile videos attempts seen s vs s' :
  list_videos_loop fuel profile videos attempts seen s = (Ret vs, s') →
  collected videos seen →
  videos `prefix_of` vs ∧ ∃ seen', collected vs seen'.
Proof.
  revert videos attempts seen s.
  induction fuel as [|fuel IH]; intros videos attempts seen s; [done|].
  cbn [list_videos_loop].
  destruct ((let! _ := _sleep_with_jitter BASE_DELAY_SECONDS in ext next_post) s)
    as [[[post|]|e|] s1] eqn:Hnext.
  - case_bool_decide as Hseen.
    + apply IH.
    + destruct (negb (Post.is_video post)).
      * intros Hloop Hc. eapply IH; [done|].
        eapply collected_mono; [apply union_subseteq_r|done].
      * intros Hloop Hc.
        apply bind_ret_inv in Hloop as (videos' & s2 & Hget & Hloop).
        assert (Hv' : videos `prefix_of` videos' ∧
                      collected videos' ({[Post.shortcode post]} ∪ seen)).
        { assert (Hsame : collected videos ({[Post.shortcode post]} ∪ seen)).
          { eapply collected_mono; [apply union_subseteq_r|done]. }
          revert Hget. unfold catch_Exception.
          match goal with |- context [bind ?m ?k s1] =>
            destruct (bind m k s1) as [[x|e|] s3] eqn:Hin end.
          - intros [= <- <-].
            apply bind_ret_inv in Hin as ([u|] & s4 & _ & Hin).
            + destruct (String.eqb u "") eqn:Hu.
              * injection Hin as <- _. done.
              * injection Hin as <- _. split; [by apply prefix_app_r|].
                apply collected_snoc; [done| |done]. by apply String.eqb_neq.
            + injection Hin as <- _. done.
          - destruct (is_Exception e); [|done]. by intros [= <- <-].
          - done. }
        destruct Hv' as [Hpre Hc'].
        destruct (IH _ _ _ _ Hloop Hc') as [Hpre' Hex].
        split; [by etrans|done].
  - intros [= <- <-] Hc. split; [done|by exists seen].
  - destruct (is_connection_error e); [|done].
    intros Hloop Hc.
    apply bind_ret_inv in Hloop as (go_on & s2 & _ & Hloop).
    destruct go_on.
    + apply bind_ret_inv in Hloop as (_ & s3 & _ & Hloop).
      apply bind_ret_inv in Hloop as (_ & s4 & _ & Hloop).
      by eapply IH.
    + injection Hloop as <- _. split; [done|by exists seen].
  - done.
Qed.

Lemma list_videos_ret fuel profile_name s video_list s' :
  list_videos fuel profile_name s = (Ret video_list, s') →
  VideoList.profile video_list = profile_name ∧
  ∃ seen, collected (VideoList.videos video_list) seen.
Proof.
  unfold list_videos. intros Hl.
  apply bind_ret_inv in Hl as (profile & s1 & _ & Hl).
  apply bind_ret_inv in Hl as (_ & s2 & _ & Hl).
  apply bind_ret_inv in Hl as (videos & s3 & Hloop & Hl).
  injection Hl as <- _. split; [done|].
  apply list_videos_loop_ret in Hloop as [_ Hc]; [done|].
  split; [constructor|constructor].
Qed.

End CrawlerFacts.

(** ** The counters and the ledger of a run *)

Section Tally.

Lemma marked_app l1 l2 : marked (l1 ++ l2) = marked l1 ++ marked l2.
Proof. unfold marked, verdicts. by rewrite omap_app, list.filter_app, fmap_app. Qed.

Lemma not_marked_app l1 l2 :
  not_marked (l1 ++ l2) = not_marked l1 ++ not_marked l2.
Proof. unfold not_marked, verdicts. by rewrite omap_app, list.filter_app, fmap_app. Qed.

Lemma summaries_app l1 l2 : summaries (l1 ++ l2) = summaries l1 ++ summaries l2.
Proof. apply omap_app. Qed.

Lemma summaries_visible l : summaries (visible l) = summaries l.
Proof. apply omap_visible. by intros []. Qed.

Lemma marked_visible l : marked (visible l) = marked l.
Proof. unfold marked. by rewrite verdicts_visible. Qed.

Lemma not_marked_visible l : not_marked (visible l) = not_marked l.
Proof. unfold not_marked. by rewrite verdicts_visible. Qed.

Lemma verdicts_split l :
  length (marked l) + length (not_marked l) = length (verdicts l).
Proof.
  unfold marked, not_marked. rewrite !length_fmap.
  induction (verdicts l) as [|[sc []] vs IH]; [done|..];
    rewrite ?filter_cons_True, ?filter_cons_False by done; simpl; lia.
Qed.

#[global] Instance tallied_preorder {W} : PreOrder (@tallied W).
Proof.
  split.
  - intros s. exists []. rewrite app_nil_r. split_and!; [done|done|simpl; lia..].
  - intros s1 s2 s3 (n1 & Hn1 & Hs1 & Hp1 & He1) (n2 & Hn2 & Hs2 & Hp2 & He2).
    exists (n1 ++ n2). split_and!.
    + by rewrite Hn2, Hn1, app_assoc.
    + by rewrite summaries_app, Hs1, Hs2.
    + rewrite marked_app, length_app. lia.
    + rewrite not_marked_app, length_app. lia.
Qed.

Lemma logged_tallied {W} l (s s' : St W) :
  logged l s s' → locals s' = locals s →
  summaries l = [] → marked l = [] → not_marked l = [] → tallied s s'.
Proof.
  intros (new & Hnew & Hvis) Hloc Hs Hm Hn. exists new. split_and!; [done|..].
  - by rewrite <- summaries_visible, Hvis.
  - rewrite <- marked_visible, Hvis, Hm, Hloc. simpl. lia.
  - rewrite <- not_marked_visible, Hvis, Hn, Hloc. simpl. lia.
Qed.

Lemma tallied_plain {W} (s : St W) e : plain e = true → tallied s (add_log e s).
Proof.
  intros He. exists [e]. split_and!; [done|..]; destruct e; try done; simpl; lia.
Qed.

Lemma tallied_same {W} (s s' : St W) :
  log s' = log s →
  processed_count (locals s') = processed_count (locals s) →
  error_count (locals s') = error_count (locals s) → tallied s s'.
Proof.
  intros Hlog Hp He. exists []. rewrite Hlog, Hp, He, app_nil_r.
  split_and!; [done|done|simpl; lia..].
Qed.

Lemma noise_silent l :
  Forall (λ e, is_noise e = true) l →
  summaries l = [] ∧ marked l = [] ∧ not_marked l = [].
Proof.
  intros Hl. apply visible_noise in Hl.
  by rewrite <- summaries_visible, <- marked_visible, <- not_marked_visible, Hl.
Qed.

Lemma quiet_tallied {W} (s s' : St W) : quiet s s' → tallied s s'.
Proof.
  intros (_ & Hloc & new & Hnew & Hnoise).
  destruct (noise_silent _ Hnoise) as (Hs & Hm & Hn).
  exists new. rewrite Hs, Hm, Hn, Hloc. split_and!; [done|done|simpl; lia..].
Qed.

End Tally.

Ltac tally_step :=
  lazymatch goal with
  | |- preserves _ (ret _) => apply preserves_ret; apply _
  | |- preserves _ (raise _) => apply preserves_raise; apply _
  | |- preserves _ hang => apply preserves_hang; apply _
  | |- preserves _ (gets _) => apply preserves_gets; apply _
  | |- preserves _ (bind _ _) => apply preserves_bind; [apply _| |intros ?]
  | |- preserves _ (catch_Exception _ _) =>
      apply preserves_catch; [apply _| |intros ?]
  | |- preserves _ (try_finally _ _) => apply preserves_finally; [apply _|..]
  | |- preserves _ (retry _ _) =>
      apply preserves_retry; [apply _| |intros; by apply tallied_plain]
  | |- preserves _ (ask _) => apply preserves_ask; intros; by apply tallied_same
  | |- preserves _ (ext _) => apply preserves_ext; intros; by apply tallied_same
  | |- preserves _ (emit _) => apply preserves_emit; intros; by apply tallied_plain
  | |- preserves _ (modify _) =>
      apply preserves_modify; intros; by apply tallied_same
  end.

Section RunTally.

Context {W : Type} `{External W}.
Variable poll_fuel : nat.

Lemma download_video_tallied video_url output_path :
  preserves tallied (download_video (W := W) video_url output_path).
Proof.
  unfold download_video, download_video_body, _sleep_with_jitter, uniform,
    time_sleep.
  repeat tally_step.
Qed.

Lemma analyze_tallied video_path shortcode :
  preserves tallied (analyze poll_fuel video_path shortcode).
Proof.
  intros s r s' Ha. apply analyze_quiet in Ha.
  etrans; [|by apply quiet_tallied]. by apply tallied_plain.
Qed.

Lemma _process_video_tallied p :
  preserves tallied (_process_video poll_fuel p).
Proof.
  unfold _process_video, named_temporary_file, path_exists.
  repeat tally_step.
  - apply download_video_tallied.
  - apply analyze_tallied.
  - destruct a0; unfold unlink; repeat tally_step.
Qed.

Lemma _append_result_tallied result rf :
  preserves tallied (_append_result (W := W) result rf).
Proof. unfold _append_result, append_line. repeat tally_step. Qed.

Lemma _save_progress_tallied st out :
  preserves tallied (_save_progress (W := W) st out).
Proof. unfold _save_progress, write_text. repeat tally_step. Qed.

Lemma count_error_tallied sc :
  preserves tallied
    (let! _ := modify (set_locals count_error) in emit (W := W) (EvNotMarked sc)).
Proof.
  intros s r s' [= <- <-]. exists [EvNotMarked sc].
  split_and!; try done; simpl; lia.
Qed.

Lemma count_processed_tallied sc :
  preserves tallied
    (let! _ := modify (set_locals count_processed) in emit (W := W) (EvMarked sc)).
Proof.
  intros s r s' [= <- <-]. exists [EvMarked sc].
  split_and!; try done; simpl; lia.
Qed.

Lemma process_post_tallied rf out p :
  preserves tallied (process_post poll_fuel rf out p).
Proof.
  unfold process_post.
  apply preserves_catch; [apply _| |intros e; apply count_error_tallied].
  apply preserves_bind; [apply _|apply _process_video_tallied|intros result].
  destruct (truthy (VideoResult.error result)); [apply count_error_tallied|].
  apply preserves_bind; [apply _|apply _append_result_tallied|intros _].
  apply preserves_bind; [apply _|by tally_step|intros _].
  apply preserves_bind; [apply _|by tally_step|intros st].
  apply preserves_bind; [apply _|apply _save_progress_tallied|intros _].
  apply count_processed_tallied.
Qed.

Lemma for_each_tallied rf out todo :
  preserves tallied (for_each todo (process_post poll_fuel rf out)).
Proof.
  induction todo as [|p todo IH]; simpl; [by tally_step|].
  apply preserves_bind; [apply _|apply process_post_tallied|by intros _].
Qed.

End RunTally.

Section RunExtras.

Context {W : Type} `{External W}.
Variable poll_fuel : nat.

(** The log of a run: without a summary when the loop was not reached or
    never came back, and else ending in the one summary, which counts the
    posts that the log marks and leaves unmarked. *)
Lemma run_tally video_list api_key output_dir username password max_videos
    (s : St W) r s' :
  run_pipeline_from_file poll_fuel video_list api_key output_dir username
    password max_videos s = (r, s') →
  ∃ new, log s' = log s ++ new ∧
    ((summaries new = [] ∧ ∀ v, r ≠ Ret v) ∨
     ∃ front,
       new = front ++ [EvSummary (length (marked new)) (length (not_marked new))] ∧
       summaries front = []).
Proof.
  intros Hrun. unfold run_pipeline_from_file in Hrun.
  apply bind_inv in Hrun as [(st & s0 & Hload & Hrun)|[(e & Hload & _)|[Hload _]]];
    rewrite _load_progress_eq in Hload; [|done..].
  injection Hload as <- <-.
  apply bind_inv in Hrun as [(u1 & s1 & Hc & Hrun)|[(e & Hc & ->)|[Hc ->]]];
    apply ext_quiet in Hc.
  2,3: destruct Hc as (_ & _ & n & Hn & Hnoise); exists n;
       split; [done|]; left; split; [by apply noise_silent|done].
  apply bind_inv in Hrun as [(u2 & s2 & Ha & Hrun)|[(e & Ha & ->)|[Ha ->]]];
    apply ext_quiet in Ha; pose proof (transitivity Hc Ha) as Hq.
  2,3: destruct Hq as (_ & _ & n & Hn & Hnoise); exists n;
       split; [done|]; left; split; [by apply noise_silent|done].
  destruct Hq as (_ & _ & n & Hn & Hnoise).
  apply noise_silent in Hnoise as (Hns & Hnm & Hnn).
  unfold bind at 1, modify at 1 in Hrun.
  set (s3 := set_locals _ s2) in Hrun.
  apply summary_spec in Hrun as (s4 & Hloop & Hend).
  apply for_each_tallied in Hloop as (nl & Hnl & Hls & Hlp & Hle).
  change (log s3) with (log s2) in Hnl.
  change (processed_count (locals s3)) with 0 in Hlp.
  change (error_count (locals s3)) with 0 in Hle.
  destruct Hend as [[-> ->]|[Hnh ->]].
  - exists (n ++ nl). split; [by rewrite Hnl, Hn, app_assoc|].
    left. split; [by rewrite summaries_app, Hns, Hls|done].
  - exists (n ++ nl ++ [EvSummary (processed_count (locals s4))
                          (error_count (locals s4))]).
    split; [simpl; by rewrite Hnl, Hn, <- !app_assoc|].
    right. exists (n ++ nl). split.
    + rewrite !marked_app, !not_marked_app, Hnm, Hnn. simpl.
      rewrite !length_app. simpl. rewrite !Nat.add_0_r.
      by rewrite Hlp, Hle, <- app_assoc.
    + by rewrite summaries_app, Hns, Hls.
Qed.

(** The items of a run, with its log given. *)
Lemma run_items_of video_list api_key output_dir username password max_videos
    (s : St W) r s' new :
  run_pipeline_from_file poll_fuel video_list api_key output_dir username
    password max_videos s = (r, s') →
  log s' = log s ++ new →
  let st0 := load_ledger (files s) (VideoList.profile video_list)
               output_dir in
  let rf := ProgressState.results_file st0 in
  let todo := videos_to_process video_list max_videos st0 in
  ∃ items tail,
    visible new = loop_events rf output_dir st0 items ++ tail ∧
    (∀ e, e ∈ tail → ∃ x y, e = EvSummary x y) ∧
    items.*1 `prefix_of` todo ∧
    (r = Ret tt → items.*1 = todo ∧ Forall (λ en, finished en = true) items.*2) ∧
    files s' =
      disk (settle_all rf output_dir {| ledger := st0; disk := files s |} items).
Proof.
  intros Hrun Hnew st0 rf todo.
  destruct (run_items poll_fuel _ _ _ _ _ _ _ _ _ Hrun)
    as (new' & items & tail & Hnew' & Hvis & Htail & Hpre & Hret & _ & _ & Hfiles).
  assert (new' = new) as -> by (apply (inj (app (log s))); congruence).
  by exists items, tail.
Qed.

(** A run that returns has given a verdict on each post of its work
    list. *)
Lemma run_verdicts video_list api_key output_dir username password max_videos
    (s : St W) s' new :
  run_pipeline_from_file poll_fuel video_list api_key output_dir username
    password max_videos s = (Ret tt, s') →
  log s' = log s ++ new →
  (verdicts new).*1 =
    VideoPost.shortcode <$>
      videos_to_process video_list max_videos
        (load_ledger (files s) (VideoList.profile video_list) output_dir).
Proof.
  intros Hrun Hnew.
  destruct (run_items_of _ _ _ _ _ _ _ _ _ _ Hrun Hnew)
    as (items & tail & Hvis & Htail & _ & Hret & _).
  destruct (Hret eq_refl) as [Hall Hfin].
  destruct (loop_log _ _ _ _ _ _ Hvis Htail) as (_ & _ & _ & _ & _ & ->).
  by rewrite verdicts_finished, Hall.
Qed.



End RunExtras.

(** ** The crawler and the commands leave the files alone *)

Section CommandFacts.

Context {W : Type} `{External W} `{Instaloader W}.







(** A command under the two handlers lets no exception escape. *)
Lemma exit_on_exception_inv (m : M W unit) s r s' :
  exit_on_exception m s = (r, s') →
  (r = Ret Returns ∧ m s = (Ret tt, s')) ∨
  (r = Ret (SysExit 130) ∧ ∃ e, m s = (Raise e, s') ∧ is_Exception e = false) ∨
  (r = Ret (SysExit 1) ∧ ∃ e, m s = (Raise e, s') ∧ is_Exception e = true) ∨
  (r = Hang ∧ m s = (Hang, s')).
Proof.
  unfold exit_on_exception. destruct (m s) as [[[]|e|] s1].
  - intros [= <- <-]. by left.
  - destruct e as [[] msg|last]; intros [= <- <-];
      first [right; left; split; [done|]; by eexists
            |right; right; left; split; [done|]; by eexists].
  - intros [= <- <-]. by right; right; right.
Qed.

Lemma load_video_list_inv file_path (s : St W) r s' :
  load_video_list file_path s = (r, s') → s' = s.
Proof.
  unfold load_video_list, bind, read_json.
  destruct (files s !! file_path) as [c|]; [|by intros [= _ <-]].
  destruct (json_loads c) as [doc|]; [|by intros [= _ <-]].
  destruct (VideoList_model_validate doc); by intros [= _ <-].
Qed.

End CommandFacts.

(** ** Temporary files *)

Section TmpFacts.

Context {W : Type} `{External W}.
Variable poll_fuel : nat.

#[global] Instance tmp_within_preorder path : PreOrder (@tmp_within W path).
Proof.
  split.
  - intros s. split; [done|apply union_subseteq_r].
  - intros s1 s2 s3 [Hl1 Hu1] [Hl2 Hu2]. split; [by etrans|].
    etrans; [exact Hu2|]. apply union_least; [apply union_subseteq_l|done].
Qed.

Lemma tmp_within_same path (s s' : St W) :
  tmp_files s' = tmp_files s → tmp_within path s s'.
Proof.
  intros Heq. unfold tmp_within. rewrite Heq. split; [done|apply union_subseteq_r].
Qed.

Ltac tmp_step :=
  lazymatch goal with
  | |- preserves _ (ret _) => apply preserves_ret; apply _
  | |- preserves _ (raise _) => apply preserves_raise; apply _
  | |- preserves _ hang => apply preserves_hang; apply _
  | |- preserves _ (gets _) => apply preserves_gets; apply _
  | |- preserves _ (bind _ _) => apply preserves_bind; [apply _| |intros ?]
  | |- preserves _ (catch_Exception _ _) =>
      apply preserves_catch; [apply _| |intros ?]
  | |- preserves _ (try_finally _ _) => apply preserves_finally; [apply _|..]
  | |- preserves _ (retry _ _) =>
      apply preserves_retry; [apply _| |intros; by apply tmp_within_same]
  | |- preserves _ (ask _) =>
      apply preserves_ask; intros; by apply tmp_within_same
  | |- preserves _ (ext _) =>
      apply preserves_ext; intros; by apply tmp_within_same
  | |- preserves _ (emit _) =>
      apply preserves_emit; intros; by apply tmp_within_same
  | |- preserves _ (modify _) =>
      apply preserves_modify; intros;
      first [by apply tmp_within_same
            |split; simpl; [apply union_subseteq_r|done]]
  end.

Lemma download_video_tmp video_url output_path :
  preserves (tmp_within output_path) (download_video video_url output_path).
Proof.
  unfold download_video, download_video_body, _sleep_with_jitter, uniform,
    time_sleep.
  repeat tmp_step.
Qed.

Lemma wait_while_processing_tmp path fuel video_file :
  preserves (tmp_within path) (wait_while_processing fuel video_file).
Proof.
  revert video_file. induction fuel as [|n IH]; intros video_file; simpl;
    destruct (String.eqb _ _); unfold time_sleep; repeat tmp_step.
  apply IH.
Qed.

Lemma analyze_tmp path video_path shortcode :
  preserves (tmp_within path) (analyze poll_fuel video_path shortcode).
Proof.
  intros s r s'. unfold analyze, bind, emit. set (s0 := add_log _ s).
  assert (H0 : tmp_within path s s0) by (by apply tmp_within_same).
  assert (Hup : preserves (tmp_within path) (_upload_video poll_fuel video_path)).
  { unfold _upload_video, _upload_video_body. repeat tmp_step.
    - apply wait_while_processing_tmp.
    - destruct (negb _); repeat tmp_step. }
  destruct (_upload_video poll_fuel video_path s0) as [[vf|e|] s1] eqn:Hu;
    apply Hup in Hu.
  - intros Hrest.
    apply (transitivity (R := tmp_within path) H0).
    apply (transitivity (R := tmp_within path) Hu).
    assert (Hin : preserves (tmp_within path)
              (try_finally
                 (catch_Exception (analyze_uploaded vf shortcode)
                    (λ e, ret (error_result shortcode e)))
                 (_delete_video vf))).
    { unfold analyze_uploaded, _analyze_with_schema, _delete_video,
        model_validate_exercise, model_validate_general, time_sleep.
      repeat tmp_step.
      - destruct (validate_exercise _); repeat tmp_step.
      - destruct (validate_general _); repeat tmp_step. }
    by apply Hin in Hrest.
  - destruct (is_Exception e); intros [= <- <-];
      exact (transitivity (R := tmp_within path) H0 Hu).
  - intros [= <- <-]. exact (transitivity (R := tmp_within path) H0 Hu).
Qed.

Lemma cleanup_tmp {A} (body : M W A) path s r s' :
  try_finally body
    (let! still_there := path_exists path in
     if (still_there : bool) then unlink path else ret tt) s = (r, s') →
  r ≠ Hang →
  ∃ s2, body s = (r, s2) ∧ tmp_files s' = tmp_files s2 ∖ {[path]}.
Proof.
  assert (Hfin : ∀ s2 : St W, ∃ s3,
    (let! still_there := path_exists path in
     if (still_there : bool) then unlink path else ret tt) s2 = (Ret tt, s3) ∧
    tmp_files s3 = tmp_files s2 ∖ {[path]}).
  { intros s2. unfold bind, path_exists, gets, unlink, modify, ret.
    destruct (bool_decide (path ∈ tmp_files s2)) eqn:Hin; eexists;
      (split; [done|]); [done|].
    apply bool_decide_eq_false in Hin. symmetry. apply set_eq. intros x.
    rewrite elem_of_difference, elem_of_singleton. split; [tauto|].
    intros Hx. split; [done|]. by intros ->. }
  unfold try_finally. destruct (body s) as [[a|e|] s2] eqn:E.
  - destruct (Hfin s2) as (s3 & -> & Htmp). intros [= <- <-] _. eauto.
  - destruct (Hfin s2) as (s3 & -> & Htmp). intros [= <- <-] _. eauto.
  - by intros [= <- <-].
Qed.

Lemma _process_video_tmp p (s : St W) r s' :
  _process_video poll_fuel p s = (r, s') → r ≠ Hang →
  tmp_files s' = tmp_files s ∖ {[(mkstemp ".mp4" (world s)).1]}.
Proof.
  intros Hp Hr. unfold _process_video, bind in Hp.
  rewrite named_temporary_file_eq in Hp.
  set (path := (mkstemp ".mp4" (world s)).1) in *.
  set (s0 := set_tmp_files _ _) in Hp.
  apply cleanup_tmp in Hp as (s2 & Hbody & ->); [|done].
  assert (Hw : tmp_within path s0 s2).
  { assert (Hin : preserves (tmp_within path)
              (let! _ := emit (EvProcess (VideoPost.shortcode p)) in
               let! _ := download_video (VideoPost.video_url p) path in
               let! result := analyze poll_fuel path (VideoPost.shortcode p) in
               ret result)).
    { repeat tmp_step.
      - apply download_video_tmp.
      - apply analyze_tmp. }
    by apply Hin in Hbody. }
  destruct Hw as [Hl Hu]. change (tmp_files s0) with ({[path]} ∪ tmp_files s) in *.
  apply set_eq. intros x. rewrite !elem_of_difference, elem_of_singleton.
  split.
  - intros [Hx Hne]. split; [|done]. apply Hu in Hx.
    rewrite !elem_of_union, elem_of_singleton in Hx. tauto.
  - intros [Hx Hne]. split; [|done]. apply Hl. apply elem_of_union. by right.
Qed.

#[global] Instance tmp_kept_preorder : PreOrder (@tmp_kept W).
Proof.
  split.
  - intros s. by unfold tmp_kept.
  - intros s1 s2 s3 H1 H2. unfold tmp_kept in *. by etrans.
Qed.

Lemma tmp_kept_same (s s' : St W) : tmp_files s' = tmp_files s → tmp_kept s s'.
Proof. unfold tmp_kept. by intros ->. Qed.

Ltac kept_step :=
  lazymatch goal with
  | |- preserves _ (ret _) => apply preserves_ret; apply _
  | |- preserves _ (gets _) => apply preserves_gets; apply _
  | |- preserves _ (bind _ _) => apply preserves_bind; [apply _| |intros ?]
  | |- preserves _ (ext _) => apply preserves_ext; intros; by apply tmp_kept_same
  | |- preserves _ (emit _) => apply preserves_emit; intros; by apply tmp_kept_same
  | |- preserves _ (modify _) =>
      apply preserves_modify; intros; by apply tmp_kept_same
  end.

(** The bookkeeping of the loop touches no temporary file. *)
Lemma bookkeeping_tmp rf out p result :
  preserves tmp_kept
    (if truthy (VideoResult.error result) then
       let! _ := modify (set_locals count_error) in
       emit (W := W) (EvNotMarked (VideoPost.shortcode p))
     else
       let! _ := _append_result result rf in
       let! _ := modify (set_locals (mark_processed (VideoPost.shortcode p))) in
       let! st := gets (λ s, state (locals s)) in
       let! _ := _save_progress st out in
       let! _ := modify (set_locals count_processed) in
       emit (EvMarked (VideoPost.shortcode p))).
Proof.
  destruct (truthy _);
    unfold _append_result, append_line, _save_progress, write_text;
    repeat kept_step.
Qed.

Lemma process_post_tmp rf out p (s : St W) r s' :
  process_post poll_fuel rf out p s = (r, s') → r ≠ Hang →
  tmp_files s' ⊆ tmp_files s.
Proof.
  unfold process_post, catch_Exception. unfold bind at 1.
  destruct (_process_video poll_fuel p s) as [[result|e|] s1] eqn:Hp.
  - apply _process_video_tmp in Hp; [|done].
    assert (Hs1 : tmp_files s1 ⊆ tmp_files s)
      by (rewrite Hp; by apply subseteq_difference_l).
    match goal with
    | |- context [?m s1] =>
        destruct (m s1) as [[u|e|] s2] eqn:Hrest;
        apply bookkeeping_tmp in Hrest
    end.
    + intros [= <- <-] _. by etrans.
    + destruct (is_Exception e); intros [= <- <-] _; simpl; by etrans.
    + by intros [= <- <-].
  - apply _process_video_tmp in Hp; [|done].
    destruct (is_Exception e); intros [= <- <-] _; simpl;
      rewrite Hp; apply subseteq_difference_l; done.
  - by intros [= <- <-].
Qed.

Lemma for_each_tmp rf out todo (s : St W) r s' :
  for_each todo (process_post poll_fuel rf out) s = (r, s') → r ≠ Hang →
  tmp_files s' ⊆ tmp_files s.
Proof.
  revert s. induction todo as [|p todo IH]; intros s; simpl.
  - by intros [= <- <-].
  - intros Hb Hr. apply bind_inv in Hb
      as [(a & s1 & Hp & Hrest)|[(e & Hp & ->)|[Hp ->]]]; [| |done].
    + apply process_post_tmp in Hp; [|done]. etrans; [by eapply IH|done].
    + by apply process_post_tmp in Hp.
Qed.

End TmpFacts.

(** * Further properties, stated *)

Section Further.

Context {W : Type} `{External W} `{Instaloader W}.
Variable poll_fuel : nat.

(** X1: [extract_shortcodes_from_html] returns no shortcode twice. *)
Theorem extract_shortcodes_distinct html :
  NoDup (extract_shortcodes_from_html html).
Proof. apply fromkeys_from_spec. constructor. Qed.

(** X2: every shortcode that [extract_shortcodes_from_html] returns is made
    of 11 characters of the class [[A-Za-z0-9_-]], and stands in the page
    in a link [/p/CODE/] or [/reel/CODE/]. *)
Theorem extract_shortcodes_sound html sc :
  sc ∈ extract_shortcodes_from_html html →
  is_code sc = true ∧
  ∃ before reel after, html = before +:+ link reel sc +:+ after.
Proof.
  unfold extract_shortcodes_from_html, fromkeys. intros Hin.
  destruct (fromkeys_from_spec [] (findall 0 (chars html))) as [_ Hiff];
    [constructor|].
  apply Hiff in Hin as [Hin|Hin]; [by apply elem_of_nil in Hin|].
  apply findall_elem in Hin as (before & group & len & after & Hhtml & Hm & ->).
  apply match_here_Some in Hm as (Hlen & Hall & kind & rest & Hkind & ->).
  split.
  - unfold is_code. rewrite <- length_chars, chars_of_list, Hlen, Hall. done.
  - exists (String.string_of_list_ascii before),
      (if decide (kind = "reel") then true else false),
      (String.string_of_list_ascii rest).
    apply chars_inj. unfold link.
    rewrite !chars_app, !chars_of_list, Hhtml, <- !app_assoc.
    by destruct Hkind as [-> | ->].
Qed.

(** X3: from a page made of links [/p/CODE/] and [/reel/CODE/], each after
    a text in which no match of the pattern starts (the text may hold
    slashes, as in [<p>Leg day</p>]), [extract_shortcodes_from_html] returns
    the codes of the links in the order of the page, each at its first
    occurrence: the codes themselves when they are pairwise distinct. *)
Theorem extract_shortcodes_of_page links trailer :
  links_only links trailer = true →
  extract_shortcodes_from_html (page links trailer) = fromkeys links.*2 ∧
  (NoDup links.*2 → extract_shortcodes_from_html (page links trailer) = links.*2).
Proof.
  intros Hlinks. unfold extract_shortcodes_from_html.
  rewrite findall_page by done. split; [done|].
  intros Hnd. unfold fromkeys. by rewrite fromkeys_NoDup_id.
Qed.



(** X6: [_handle_rate_limit] gives up, without sleeping, from the fifth
    rate limit in a row on; before that it sleeps and goes on, for 120, 240
    and 480 seconds and then for 600 seconds: never less than 120 and never
    more than 600. *)
Theorem _handle_rate_limit_bounds attempt (s : St W) :
  if bool_decide (attempt < MAX_RATE_LIMIT_RETRIES) then
    ∃ wait,
      _handle_rate_limit attempt s =
        (Ret true, add_log (EvSleep (seconds wait)) s) ∧
      (120 ≤ wait ≤ 600)%Z ∧
      (attempt ≤ 2 → wait = (120 * 2 ^ Z.of_nat attempt)%Z) ∧
      (3 ≤ attempt → wait = 600%Z)
  else _handle_rate_limit attempt s = (Ret false, s).
Proof.
  unfold _handle_rate_limit, MAX_RATE_LIMIT_RETRIES. case_bool_decide as Hlt.
  - rewrite bool_decide_eq_false_2 by lia.
    eexists. split; [reflexivity|].
    destruct attempt as [|[|[|[|[|n]]]]]; [..|lia];
      (split_and!; [by vm_compute|by vm_compute|intros; try lia; done
                   |intros; try lia; done]).
  - by rewrite bool_decide_eq_true_2 by lia.
Qed.

(** X7: the list that [list_videos] returns names the profile asked for,
    holds no shortcode twice, and gives each video the canonical address of
    its post and a video address that is not empty. *)
Theorem list_videos_well_formed fuel profile_name (s : St W) video_list s' :
  list_videos fuel profile_name s = (Ret video_list, s') →
  VideoList.profile video_list = profile_name ∧
  NoDup (VideoPost.shortcode <$> VideoList.videos video_list) ∧
  Forall (λ v, VideoPost.url v = post_url (VideoPost.shortcode v) ∧
               VideoPost.video_url v ≠ "")
    (VideoList.videos video_list).
Proof.
  intros Hl. apply list_videos_ret in Hl as (Hp & seen & Hnd & Hall).
  split_and!; [done..|].
  eapply Forall_impl; [|exact Hall]. by intros v (_ & ? & ?).
Qed.

(** X8: the posts that [get_video_posts] yields are those of [list_videos]
    whose shortcode is not to be skipped, in the same order: all of them
    when no set is given, and no shortcode twice. *)
Theorem get_video_posts_skips fuel profile_name skip_shortcodes (s : St W)
    videos s' :
  get_video_posts fuel profile_name skip_shortcodes s = (Ret videos, s') →
  ∃ video_list,
    list_videos fuel profile_name s = (Ret video_list, s') ∧
    videos `sublist_of` VideoList.videos video_list ∧
    (∀ v, v ∈ videos ↔
          v ∈ VideoList.videos video_list ∧
          ∀ skip, skip_shortcodes = Some skip → VideoPost.shortcode v ∉ skip) ∧
    (skip_shortcodes = None → videos = VideoList.videos video_list) ∧
    NoDup (VideoPost.shortcode <$> videos).
Proof.
  unfold get_video_posts. intros Hg.
  apply bind_ret_inv in Hg as (video_list & s1 & Hl & Hg).
  injection Hg as <- <-. exists video_list. split; [done|].
  split_and!.
  - apply sublist_filter.
  - intros v. rewrite list_elem_of_filter. split.
    + intros [Hskip Hin]. split; [done|]. by intros skip ->.
    + intros [Hin Hskip]. split; [|done].
      destruct skip_shortcodes as [skip|]; simpl; [by apply Hskip|].
      apply not_elem_of_empty.
  - intros ->. simpl. induction (VideoList.videos video_list) as [|v vs IH];
      [done|].
    rewrite filter_cons_True by apply not_elem_of_empty. by rewrite IH.
  - apply list_videos_ret in Hl as (_ & seen & Hnd & _).
    eapply sublist_NoDup; [exact Hnd|]. apply fmap_sublist, sublist_filter.
Qed.

(** X9: when [get_post_by_shortcode] returns a post, the post carries the
    shortcode asked for, the canonical address of that shortcode, and a
    video address that is not empty. *)
Theorem get_post_by_shortcode_entry shortcode (s : St W) v s' :
  get_post_by_shortcode shortcode s = (Ret (Some v), s') →
  VideoPost.shortcode v = shortcode ∧
  VideoPost.url v = post_url shortcode ∧
  VideoPost.video_url v ≠ "".
Proof.
  intros Hg. apply retry_from_ret in Hg as (s0 & Hb).
  by apply get_post_by_shortcode_body_ret in Hb as (u & caption & Hu & ->).
Qed.

(** X10: a result of [analyze] carries the shortcode asked for and its
    canonical address, and exactly one of an exercise analysis, general
    insights and an error; [is_exercise_video] holds exactly with the
    exercise analysis, and the error is never the empty string, so the
    driver takes no failed analysis for a success. *)
Theorem analyze_result_shape video_path shortcode (s : St W) v s' :
  analyze poll_fuel video_path shortcode s = (Ret v, s') →
  VideoResult.shortcode v = shortcode ∧
  VideoResult.url v = post_url shortcode ∧
  (VideoResult.is_exercise_video v = true ↔
   is_Some (VideoResult.exercise_analysis v)) ∧
  ((is_Some (VideoResult.exercise_analysis v) ∧
    VideoResult.general_insights v = None ∧ VideoResult.error v = None) ∨
   (VideoResult.exercise_analysis v = None ∧
    is_Some (VideoResult.general_insights v) ∧ VideoResult.error v = None) ∨
   (VideoResult.exercise_analysis v = None ∧
    VideoResult.general_insights v = None ∧
    truthy (VideoResult.error v) = true)).
Proof.
  intros Ha.
  apply analyze_returns in Ha as [[a ->]|[[g ->]|(e & _ & Hmsg & ->)]]; simpl.
  - split_and!; [done|done| |left; by eauto]. split; [by eauto|done].
  - split_and!; [done|done| |right; left; by eauto].
    split; [done|]. by intros [? [=]].
  - split_and!; [done|done| |right; right; split_and!; [done|done|]].
    + split; [done|]. by intros [? [=]].
    + apply negb_true_iff. by apply String.eqb_neq.
Qed.

(** X11: the file that [_upload_video] returns is in the state ACTIVE. *)
Theorem _upload_video_active video_path (s : St W) video_file s' :
  _upload_video poll_fuel video_path s = (Ret video_file, s') →
  file_state video_file = "ACTIVE".
Proof.
  intros Hu. apply retry_from_ret in Hu as (s0 & Hb).
  unfold _upload_video_body in Hb.
  apply bind_ret_inv in Hb as (f0 & s1 & _ & Hb).
  apply bind_ret_inv in Hb as (f1 & s2 & _ & Hb).
  destruct (String.eqb (file_state f1) "ACTIVE") eqn:Hact; [|done].
  injection Hb as <- _. by apply String.eqb_eq.
Qed.

(** X12: the summary that ends a run counts the posts of the run rightly:
    it is the last entry of the log and the only summary, its two numbers
    are those of the posts that the run marked as processed and of the posts
    that it left for a retry, and for a run that returns they add up to the
    length of the work list.  A run logs no summary only when it does not
    return. *)
Theorem summary_counts video_list api_key output_dir username password
    max_videos (s : St W) r s' :
  let st0 := load_ledger (files s) (VideoList.profile video_list)
               output_dir in
  run_pipeline_from_file poll_fuel video_list api_key output_dir username
    password max_videos s = (r, s') →
  ∃ new,
    log s' = log s ++ new ∧
    ((summaries new = [] ∧ r ≠ Ret tt) ∨
     (∃ front,
        new = front ++
              [EvSummary (length (marked new)) (length (not_marked new))] ∧
        summaries front = [])) ∧
    (r = Ret tt →
     length (marked new) + length (not_marked new) =
       length (videos_to_process video_list max_videos st0)).
Proof.
  intros st0 Hrun.
  destruct (run_tally _ _ _ _ _ _ _ _ _ _ Hrun) as (new & Hnew & Hsum).
  exists new. split_and!; [done| |].
  - destruct Hsum as [[Hs Hr]|(front & Hfront & Hs)].
    + left. split; [done|]. apply Hr.
    + right. by exists front.
  - intros ->. rewrite verdicts_split.
    rewrite <- (length_fmap fst (verdicts new)).
    rewrite (run_verdicts _ _ _ _ _ _ _ _ _ _ Hrun Hnew).
    by rewrite length_fmap.
Qed.


(** X14: [cmd_analyze] lets no exception escape.  It exits with status 1,
    before anything is read or run, when no API key, no user name or no
    password is set or the video list file does not exist; it returns only
    when the list was loaded and the pipeline returned; and otherwise it
    exits with status 130 or 1. *)
Theorem cmd_analyze_exit_status environ video_list output max_videos
    (s : St W) r s' :
  let api_key :=
    or_else (environ !! "GEMINI_API_KEY") (environ !! "GOOGLE_API_KEY") in
  let username := environ !! "INSTAGRAM_USERNAME" in
  let password := environ !! "INSTAGRAM_PASSWORD" in
  cmd_analyze poll_fuel environ video_list output max_videos s = (r, s') →
  (∀ e, r ≠ Raise e) ∧
  (truthy api_key = false ∨ truthy username = false ∨
   truthy password = false ∨ files s !! video_list = None →
   r = Ret (SysExit 1) ∧ s' = s) ∧
  (r = Ret Returns →
   ∃ videos,
     load_video_list video_list s = (Ret videos, s) ∧
     run_pipeline_from_file poll_fuel videos (default "" api_key) output
       (default "" username) (default "" password) max_videos s = (Ret tt, s')) ∧
  (∀ code, r = Ret (SysExit code) → code = 1%Z ∨ code = 130%Z).
Proof.
  intros api_key username password. unfold cmd_analyze.
  fold api_key username password.
  destruct (truthy api_key) eqn:Hk; cbn [negb].
  2: { intros [= <- <-]. split_and!; try done. intros code [= <-]. by left. }
  destruct (truthy username) eqn:Hu; cbn [negb orb].
  2: { intros [= <- <-]. split_and!; try done. intros code [= <-]. by left. }
  destruct (truthy password) eqn:Hp; cbn [negb orb].
  2: { intros [= <- <-]. split_and!; try done. intros code [= <-]. by left. }
  unfold bind at 1, gets at 1.
  case_bool_decide as Hfile; cbn [negb].
  2: { intros [= <- <-]. split_and!; try done. intros code [= <-]. by left. }
  intros Hcmd.
  apply exit_on_exception_inv in Hcmd
    as [[-> Hm]|[[-> Hm]|[[-> Hm]|[-> Hm]]]].
  - split_and!; try done.
    + intros [?|[?|[?|Hnone]]]; [congruence..|]. rewrite Hnone in Hfile.
      by destruct Hfile.
    + intros _. apply bind_ret_inv in Hm as (videos & s1 & Hload & Hm).
      pose proof (load_video_list_inv _ _ _ _ Hload) as ->. by exists videos.
  - split_and!; try done.
    + intros [?|[?|[?|Hnone]]]; [congruence..|]. rewrite Hnone in Hfile.
      by destruct Hfile.
    + intros code [= <-]. by right.
  - split_and!; try done.
    + intros [?|[?|[?|Hnone]]]; [congruence..|]. rewrite Hnone in Hfile.
      by destruct Hfile.
    + intros code [= <-]. by left.
  - split_and!; try done.
    intros [?|[?|[?|Hnone]]]; [congruence..|]. rewrite Hnone in Hfile.
    by destruct Hfile.
Qed.


(** X16: [_process_video] leaves every other temporary file as it was: when
    the call comes back, the temporary files are those that were there
    before, without the file of the call. *)
Theorem _process_video_keeps_other_files p (s : St W) r s' :
  _process_video poll_fuel p s = (r, s') →
  r ≠ Hang →
  tmp_files s' = tmp_files s ∖ {[(mkstemp ".mp4" (world s)).1]}.
Proof. apply _process_video_tmp. Qed.

(** X17: a run that comes back, with a return or an exception, leaves no
    temporary file behind. *)
Theorem run_leaves_no_temporary_file video_list api_key output_dir username
    password max_videos (s : St W) r s' :
  run_pipeline_from_file poll_fuel video_list api_key output_dir username
    password max_videos s = (r, s') →
  r ≠ Hang →
  tmp_files s' ⊆ tmp_files s.
Proof.
  intros Hrun Hr. unfold run_pipeline_from_file in Hrun.
  apply bind_inv in Hrun as [(st & s0 & Hload & Hrun)|[(e & Hload & _)|[Hload _]]];
    rewrite _load_progress_eq in Hload; [|done..].
  injection Hload as <- <-.
  assert (Hext : ∀ A (f : W → res A * W) (s1 : St W) r1 s2,
            ext f s1 = (r1, s2) → tmp_files s2 = tmp_files s1).
  { intros A f s1 r1 s2. unfold ext. destruct (f (world s1)).
    by intros [= _ <-]. }
  apply bind_inv in Hrun as [(u1 & s1 & Hc & Hrun)|[(e & Hc & ->)|[Hc ->]]];
    apply Hext in Hc; [|by rewrite Hc..].
  apply bind_inv in Hrun as [(u2 & s2 & Ha & Hrun)|[(e & Ha & ->)|[Ha ->]]];
    apply Hext in Ha; [|by rewrite Ha, Hc..].
  unfold bind at 1, modify at 1 in Hrun.
  set (s3 := set_locals _ s2) in Hrun.
  apply summary_spec in Hrun as (s4 & Hloop & [[-> _]|[_ ->]]); [done|].
  apply for_each_tmp in Hloop; [|done]. simpl.
  etrans; [exact Hloop|]. change (tmp_files s3) with (tmp_files s2).
  by rewrite Ha, Hc.
Qed.

(** X18: a run writes to two files only, the results file that the ledger
    it loaded names and the progress file of the profile which that ledger
    names: every other file is as it was.  So the run writes no progress
    file but its own, when the results file is no progress file. *)
Theorem run_writes_own_progress_file video_list api_key output_dir username
    password max_videos (s : St W) r s' :
  let st0 := load_ledger (files s) (VideoList.profile video_list)
               output_dir in
  let pf := _get_progress_file (ProgressState.profile st0) output_dir in
  run_pipeline_from_file poll_fuel video_list api_key output_dir username
    password max_videos s = (r, s') →
  (∀ q, q ≠ pf → q ≠ ProgressState.results_file st0 →
        files s' !! q = files s !! q) ∧
  (sink_apart st0 output_dir →
   ∀ profile', _get_progress_file profile' output_dir ≠ pf →
     files s' !! _get_progress_file profile' output_dir =
     files s !! _get_progress_file profile' output_dir).
Proof.
  intros st0 pf Hrun.
  assert (Hframe : ∀ q, q ≠ pf → q ≠ ProgressState.results_file st0 →
                        files s' !! q = files s !! q).
  { intros q Hq Hrf.
    destruct (run_items poll_fuel _ _ _ _ _ _ _ _ _ Hrun)
      as (new & items & tail & _ & _ & _ & _ & _ & _ & _ & ->).
    by rewrite settle_all_frame. }
  split; [done|]. intros Hapart profile' Hne.
  apply Hframe; [done|]. apply not_eq_sym, Hapart.
Qed.

(** X19: with a negative cap [-k], a run that returns has handed to
    [_process_video] the eligible posts without the last [k] of them, in
    input order. *)
Theorem negative_cap_drops_the_last video_list api_key output_dir username
    password (n : Z) (s : St W) s' :
  let st0 := load_ledger (files s) (VideoList.profile video_list)
               output_dir in
  (n < 0)%Z →
  run_pipeline_from_file poll_fuel video_list api_key output_dir username
    password (Some n) s = (Ret tt, s') →
  ∃ new,
    log s' = log s ++ new ∧
    process_calls new =
      VideoPost.shortcode <$>
        take (length (eligible video_list st0) - Z.to_nat (- n))
          (eligible video_list st0).
Proof.
  intros st0 Hn Hrun.
  apply run_processes in Hrun as (new & Hnew & _ & Hp & _).
  exists new. split; [done|]. rewrite (Hp eq_refl). fold st0.
  rewrite videos_to_process_cap, bool_decide_eq_true_2 by lia.
  unfold slice_to. rewrite bool_decide_eq_true_2 by done.
  do 2 f_equal. lia.
Qed.

End Further.

(** * The further properties on concrete inputs *)

(** X2 on the sample page: the code of the reel is found, and stands in a
    link. *)
Lemma extract_shortcodes_sound_witness :
  is_code "REEL1234567" = true ∧
  ∃ before reel after,
    page sample_links sample_trailer =
      before +:+ link reel "REEL1234567" +:+ after.
Proof.
  apply (extract_shortcodes_sound (page sample_links sample_trailer)).
  apply (bool_decide_unpack _). by_computing.
Defined.

(** X3 on the sample page: the two codes, in the order of the page. *)
Lemma extract_shortcodes_of_page_witness :
  extract_shortcodes_from_html (page sample_links sample_trailer) =
    ["ABC12345678"; "REEL1234567"].
Proof.
  destruct (extract_shortcodes_of_page sample_links sample_trailer) as [Heq _].
  - by_computing.
  - rewrite Heq. by_computing.
Defined.



(** X7 on the scripted profile: the clip that the iterator yields twice is
    listed once, also after the iterator was made anew. *)
Lemma list_videos_well_formed_witness :
  VideoPost.shortcode <$>
    VideoList.videos
      (default one_post
         (match (list_videos 10 "gym" (boot ∅ gym_feed)).1 with
          | Ret video_list => Some video_list
          | _ => None
          end)) = ["V1"; "V2"] ∧
  NoDup ["V1"; "V2"].
Proof.
  assert (Hr : (list_videos 10 "gym" (boot ∅ gym_feed)).1 =
               Ret {| VideoList.profile := "gym";
                      VideoList.videos :=
                        [video_post "V1" "https://cdn.example/V1.mp4" None;
                         video_post "V2" "https://cdn.example/V2.mp4" None] |})
    by by_computing.
  destruct (list_videos_well_formed 10 "gym" (boot ∅ gym_feed) _ _
              (pair_of_fst _ _ Hr)) as (_ & Hnd & _).
  rewrite Hr. split; [done|exact Hnd].
Defined.

(** X8 on the scripted profile, when V1 is to be skipped. *)
Lemma get_video_posts_skips_witness :
  ∃ video_list,
    list_videos 10 "gym" (boot ∅ gym_feed) =
      (Ret video_list, (get_video_posts 10 "gym" (Some {["V1"]}) (boot ∅ gym_feed)).2) ∧
    [video_post "V2" "https://cdn.example/V2.mp4" None]
      `sublist_of` VideoList.videos video_list.
Proof.
  assert (Hr : (get_video_posts 10 "gym" (Some {["V1"]}) (boot ∅ gym_feed)).1 =
               Ret [video_post "V2" "https://cdn.example/V2.mp4" None])
    by by_computing.
  destruct (get_video_posts_skips 10 "gym" (Some {["V1"]}) (boot ∅ gym_feed) _ _
              (pair_of_fst _ _ Hr)) as (video_list & Hl & Hsub & _).
  exists video_list. split; [exact Hl|exact Hsub].
Defined.

(** X9 on the scripted profile. *)
Lemma get_post_by_shortcode_entry_witness :
  (get_post_by_shortcode "V1" (boot ∅ gym_feed)).1 =
    Ret (Some (video_post "V1" "https://cdn.example/V1.mp4" None)) ∧
  VideoPost.url (video_post "V1" "https://cdn.example/V1.mp4" None) =
    post_url "V1".
Proof.
  assert (Hr : (get_post_by_shortcode "V1" (boot ∅ gym_feed)).1 =
               Ret (Some (video_post "V1" "https://cdn.example/V1.mp4" None)))
    by by_computing.
  split; [exact Hr|].
  by destruct (get_post_by_shortcode_entry "V1" (boot ∅ gym_feed) _ _
                 (pair_of_fst _ _ Hr)) as (_ & Hurl & _).
Defined.

(** X10 on an analysis that fails on both schemas: the result carries an
    error that counts as one. *)
Lemma analyze_result_shape_witness :
  (analyze 3 "/tmp/a.mp4" "A" (boot ∅ fussy)).1 =
    Ret (error_result "A" (RetryError overloaded)) ∧
  VideoResult.url (error_result "A" (RetryError overloaded)) = post_url "A".
Proof.
  assert (Hr : (analyze 3 "/tmp/a.mp4" "A" (boot ∅ fussy)).1 =
               Ret (error_result "A" (RetryError overloaded))) by by_computing.
  split; [exact Hr|].
  by destruct (analyze_result_shape 3 "/tmp/a.mp4" "A" (boot ∅ fussy) _ _
                 (pair_of_fst _ _ Hr)) as (_ & Hurl & _).
Defined.

(** X11 in the calm world. *)
Lemma _upload_video_active_witness :
  (_upload_video 3 "/tmp/a.mp4" (boot ∅ calm)).1 = Ret active_file ∧
  file_state active_file = "ACTIVE".
Proof.
  assert (Hr : (_upload_video 3 "/tmp/a.mp4" (boot ∅ calm)).1 = Ret active_file)
    by by_computing.
  split; [exact Hr|].
  exact (_upload_video_active 3 "/tmp/a.mp4" (boot ∅ calm) _ _
           (pair_of_fst _ _ Hr)).
Defined.

(** X12 on the list A, B, C with A completed, when the analysis of B fails
    and that of C succeeds: the summary counts one post processed and one
    error. *)
Lemma summary_counts_witness :
  (drive abc_posts None (boot ledger_A fussy)).1 = Ret tt ∧
  ∃ new,
    log (drive abc_posts None (boot ledger_A fussy)).2 = [] ++ new ∧
    marked new = ["C"] ∧ not_marked new = ["B"] ∧
    length (marked new) + length (not_marked new) = 2.
Proof.
  assert (Hr : (drive abc_posts None (boot ledger_A fussy)).1 = Ret tt)
    by by_computing.
  split; [exact Hr|].
  destruct (summary_counts 3 abc_posts "key" "out" "user" "secret" None
              (boot ledger_A fussy) _ _ (pair_of_fst _ _ Hr))
    as (new & Hnew & _ & Hlen).
  exists new. split; [exact Hnew|].
  assert (Hm : marked new = ["C"]) by (simpl in Hnew; rewrite <- Hnew; by_computing).
  assert (Hn : not_marked new = ["B"])
    by (simpl in Hnew; rewrite <- Hnew; by_computing).
  split; [exact Hm|]. split; [exact Hn|].
  rewrite (Hlen eq_refl). by_computing.
Defined.


(** X14 on a disk with a video list, in the steady world: the command
    returns, and the pipeline has run on the list of the file. *)
Lemma cmd_analyze_exit_status_witness :
  (cmd_analyze 3 sample_environ "videos_p.json" "out" None
     (boot sample_disk tt)).1 = Ret Returns ∧
  process_calls
    (log (cmd_analyze 3 sample_environ "videos_p.json" "out" None
            (boot sample_disk tt)).2) = ["A"; "B"; "C"] ∧
  ∀ code,
    (cmd_analyze 3 sample_environ "videos_p.json" "out" None
       (boot sample_disk tt)).1 = Ret (SysExit code) →
    code = 1%Z ∨ code = 130%Z.
Proof.
  split; [by_computing|]. split; [by_computing|].
  by destruct (cmd_analyze_exit_status 3 sample_environ "videos_p.json" "out" None
                 (boot sample_disk tt) _ _ (surjective_pairing _))
    as (_ & _ & _ & Hcode).
Defined.


(** X16 on a post whose download and analysis succeed, when another
    temporary file is there: that file stays. *)
Lemma _process_video_keeps_other_files_witness :
  (_process_video 3 (post "A")
     (set_tmp_files (λ _, {["/tmp/other.mp4"]}) (boot ∅ calm))).1 ≠ Hang ∧
  tmp_files (_process_video 3 (post "A")
               (set_tmp_files (λ _, {["/tmp/other.mp4"]}) (boot ∅ calm))).2 =
    {["/tmp/other.mp4"]} ∖ {["/tmp/tmpvideo.mp4"]}.
Proof.
  assert (Hr : (_process_video 3 (post "A")
                  (set_tmp_files (λ _, {["/tmp/other.mp4"]}) (boot ∅ calm))).1
               ≠ Hang) by by_computing.
  split; [exact Hr|].
  exact (_process_video_keeps_other_files 3 (post "A")
           (set_tmp_files (λ _, {["/tmp/other.mp4"]}) (boot ∅ calm)) _ _
           (surjective_pairing _) Hr).
Defined.

(** X17 on a run without a network: no temporary file is left. *)
Lemma run_leaves_no_temporary_file_witness :
  (drive abc_posts None (boot ∅ offline)).1 ≠ Hang ∧
  tmp_files (drive abc_posts None (boot ∅ offline)).2 ⊆ ∅.
Proof.
  assert (Hr : (drive abc_posts None (boot ∅ offline)).1 ≠ Hang) by by_computing.
  split; [exact Hr|].
  exact (run_leaves_no_temporary_file 3 abc_posts "key" "out" "user" "secret"
           None (boot ∅ offline) _ _ (surjective_pairing _) Hr).
Defined.

(** X18 on the list A, B, C with A completed: the video list on the disk is
    as it was. *)
Lemma run_writes_own_progress_file_witness :
  files (drive abc_posts None (boot (sample_disk ∪ ledger_A) tt)).2
    !! "videos_p.json" =
    Some (document (JsonDoc (VideoList_model_dump abc_posts))).
Proof.
  destruct (run_writes_own_progress_file 3 abc_posts "key" "out" "user" "secret"
              None (boot (sample_disk ∪ ledger_A) tt) _ _ (surjective_pairing _))
    as [Hframe _].
  etrans; [apply Hframe; by_computing|]. by_computing.
Defined.

(** X19 on ten eligible posts with a cap of -7, in the steady world: the
    first three posts are processed. *)
Lemma negative_cap_drops_the_last_witness :
  (-7 < 0)%Z ∧
  (drive ten_posts (Some (-7)%Z) (boot ∅ tt)).1 = Ret tt ∧
  ∃ new,
    log (drive ten_posts (Some (-7)%Z) (boot ∅ tt)).2 = [] ++ new ∧
    process_calls new = ["V0"; "V1"; "V2"].
Proof.
  assert (Hr : (drive ten_posts (Some (-7)%Z) (boot ∅ tt)).1 = Ret tt)
    by by_computing.
  split; [done|]. split; [exact Hr|].
  destruct (negative_cap_drops_the_last 3 ten_posts "key" "out" "user" "secret"
              (-7)%Z (boot ∅ tt) _ eq_refl (pair_of_fst _ _ Hr))
    as (new & Hnew & Hp).
  exists new. split; [exact Hnew|]. rewrite Hp. by_computing.
Defined.

